(** * The pose-tracker relay server and its peer-side connection manager

    A shallow embedding of
      - pose-tracker-websocket/server.js   (the deployment server, [Cloud]),
      - local/local-server.js              (the development server, [Local]),
      - src/utils/WebSocketManager.js      (the peer, [WebSocketManager]),
    and the properties of rooms, broadcasts, rate limiting, message routing,
    registration and reconnection that hold of them.

    JavaScript values are modelled as follows.  A [Map] is an association
    list in insertion order ([omap]); a [ws] object is a record in a store
    indexed by a handle, so that two references to the same connection alias;
    [Date.now()] and [Math.random()] are inputs of the events; every
    [JSON.stringify] and every [ws.send] is recorded, in order, in the
    [out] log of the server.  A handler runs to its end before the next
    event is taken, and within one handler every call of [Date.now()]
    returns the same value.  Room codes and session ids are strings; a field
    that is absent, [null] or [undefined] is [None].  The keepalive timer
    and the HTTP endpoints are left out: they read the state and close
    connections, which the events [WsClosing] and [WsClose] stand for. *)

From Stdlib Require Import String List ZArith Bool Lia Arith.
From Stdlib Require Import DecimalString DecimalNat.
Import ListNotations.
Local Open Scope string_scope.
Local Open Scope list_scope.

(** ** Insertion-ordered maps (the JavaScript [Map]) *)

Class Key (K : Type) := {
  key_eqb : K -> K -> bool;
  key_eqb_eq : forall a b, key_eqb a b = true <-> a = b
}.

#[global] Instance string_Key : Key string :=
  {| key_eqb := String.eqb; key_eqb_eq := String.eqb_eq |}.

Definition option_string_eqb (a b : option string) : bool :=
  match a, b with
  | Some x, Some y => String.eqb x y
  | None, None => true
  | _, _ => false
  end.

Lemma option_string_eqb_eq (a b : option string) :
  option_string_eqb a b = true <-> a = b.
Proof.
  destruct a as [x|], b as [y|]; simpl; split; intro H;
    try discriminate; try reflexivity.
  - apply String.eqb_eq in H. now subst.
  - injection H as ->. apply String.eqb_refl.
Qed.

#[global] Instance option_string_Key : Key (option string) :=
  {| key_eqb := option_string_eqb; key_eqb_eq := option_string_eqb_eq |}.

Section OrderedMap.
Context {K V : Type} `{Key K}.

Definition omap := list (K * V).

(** [m.get(k)] *)
Fixpoint map_get (k : K) (m : omap) : option V :=
  match m with
  | [] => None
  | (k', v) :: m' => if key_eqb k k' then Some v else map_get k m'
  end.

(** [m.has(k)] *)
Definition map_has (k : K) (m : omap) : bool :=
  match map_get k m with Some _ => true | None => false end.

(** [m.set(k, v)]: an existing key keeps its place, a new one goes last. *)
Fixpoint map_set (k : K) (v : V) (m : omap) : omap :=
  match m with
  | [] => [(k, v)]
  | (k', v') :: m' =>
      if key_eqb k k' then (k, v) :: m' else (k', v') :: map_set k v m'
  end.

(** [m.delete(k)] *)
Fixpoint map_delete (k : K) (m : omap) : omap :=
  match m with
  | [] => []
  | (k', v') :: m' =>
      if key_eqb k k' then map_delete k m' else (k', v') :: map_delete k m'
  end.

(** [m.size] *)
Definition map_size (m : omap) : nat := length m.

Lemma key_eqb_refl (k : K) : key_eqb k k = true.
Proof. now apply key_eqb_eq. Qed.

Lemma key_eqb_neq (a b : K) : a <> b -> key_eqb a b = false.
Proof.
  intro N. destruct (key_eqb a b) eqn:E; [|reflexivity].
  apply key_eqb_eq in E. contradiction.
Qed.

Lemma key_eq_dec (a b : K) : {a = b} + {a <> b}.
Proof.
  destruct (key_eqb a b) eqn:E.
  - left. now apply key_eqb_eq.
  - right. intro Q. apply key_eqb_eq in Q. congruence.
Qed.

Lemma map_get_set_same k v m : map_get k (map_set k v m) = Some v.
Proof.
  induction m as [|[k' v'] m IH]; simpl.
  - now rewrite key_eqb_refl.
  - destruct (key_eqb k k') eqn:E; simpl.
    + now rewrite key_eqb_refl.
    + now rewrite E.
Qed.

Lemma map_get_set_other k k' v m :
  k <> k' -> map_get k' (map_set k v m) = map_get k' m.
Proof.
  intro N. induction m as [|[k0 v0] m IH]; simpl.
  - rewrite key_eqb_neq; auto.
  - destruct (key_eqb k k0) eqn:E; simpl.
    + apply key_eqb_eq in E. subst k0.
      rewrite key_eqb_neq; auto.
    + now rewrite IH.
Qed.

Lemma map_get_delete_same k m : map_get k (map_delete k m) = None.
Proof.
  induction m as [|[k0 v0] m IH]; simpl; [reflexivity|].
  destruct (key_eqb k k0) eqn:E; simpl; [assumption|].
  now rewrite E.
Qed.

Lemma map_get_delete_other k k' m :
  k <> k' -> map_get k' (map_delete k m) = map_get k' m.
Proof.
  intro N. induction m as [|[k0 v0] m IH]; simpl; [reflexivity|].
  destruct (key_eqb k k0) eqn:E; simpl.
  - apply key_eqb_eq in E. subst k0. rewrite key_eqb_neq; auto.
  - now rewrite IH.
Qed.

Lemma map_get_In k v m : map_get k m = Some v -> In (k, v) m.
Proof.
  induction m as [|[k0 v0] m IH]; simpl; [discriminate|].
  destruct (key_eqb k k0) eqn:E.
  - apply key_eqb_eq in E. subst k0. intros [= ->]. now left.
  - intro G. right. auto.
Qed.

Lemma In_map_get k v m : In (k, v) m -> exists v', map_get k m = Some v'.
Proof.
  induction m as [|[k0 v0] m IH]; simpl; [contradiction|].
  intros [E|I].
  - injection E as -> ->. rewrite key_eqb_refl. eauto.
  - destruct (key_eqb k k0); eauto.
Qed.

Lemma In_map_set k v m x :
  In x (map_set k v m) -> x = (k, v) \/ In x m.
Proof.
  induction m as [|[k0 v0] m IH]; simpl.
  - intros [E|[]]; auto.
  - destruct (key_eqb k k0); simpl; intros [E|I]; auto.
    destruct (IH I); auto.
Qed.

Lemma In_map_delete k m k' v :
  In (k', v) (map_delete k m) -> In (k', v) m /\ k' <> k.
Proof.
  induction m as [|[k0 v0] m IH]; simpl; [contradiction|].
  destruct (key_eqb k k0) eqn:E; simpl.
  - intro I. destruct (IH I). auto.
  - intros [Q|I].
    + injection Q as -> ->. split; [now left|].
      intro Q. subst k'. rewrite key_eqb_refl in E. discriminate.
    + destruct (IH I). auto.
Qed.

Lemma map_set_not_nil k v m : map_set k v m <> [].
Proof. destruct m as [|[k0 v0] m]; simpl; [|destruct (key_eqb k k0)]; discriminate. Qed.

Lemma map_has_true k m : map_has k m = true <-> exists v, map_get k m = Some v.
Proof.
  unfold map_has. destruct (map_get k m); split; eauto; try discriminate.
  intros [v E]. discriminate.
Qed.

Lemma map_has_false k m : map_has k m = false <-> map_get k m = None.
Proof. unfold map_has. destruct (map_get k m); split; congruence. Qed.
End OrderedMap.

Arguments omap : clear implicits.

(** ** Data model *)

(** A connection is referred to by a handle: the index of its [ws] object in
    the store of the server.  Two participant entries holding the same
    handle hold the same object. *)
Definition handle := nat.

(** A JSON subtree the server relays without looking into it. *)
Definition blob := string.

Inductive ReadyState := CONNECTING | OPEN | CLOSING | CLOSED.

Definition ReadyState_eqb (a b : ReadyState) : bool :=
  match a, b with
  | CONNECTING, CONNECTING | OPEN, OPEN | CLOSING, CLOSING | CLOSED, CLOSED => true
  | _, _ => false
  end.

(** The fields the servers keep on a [ws] object.  [roomId] is [null]
    (or [undefined]) when [None]; a string otherwise, possibly empty. *)
Record WebSocket := {
  sessionId : string;
  deviceType : string;
  roomId : option string;
  connectedAt : Z;
  readyState : ReadyState;
  capabilities : option blob;
  deviceInfo : option blob
}.

(** An entry of [room.participants]: [{ ws, deviceType, joinedAt }]. *)
Record Participant := {
  p_ws : handle;
  p_deviceType : string;
  joinedAt : Z
}.

(** [{ id, created, participants }]; the key [None] is [undefined], the
    room a [join_room] without a [roomId] field lands in. *)
Record Room := {
  id : option string;
  created : Z;
  participants : omap string Participant
}.

(** An entry of [poseDataLimits]: [{ count, resetTime }]. *)
Record Limit := {
  count : Z;
  resetTime : Z
}.

(** [deviceMetrics] of the development server. *)
Record Metrics := {
  totalConnections : Z;
  currentConnections : Z;
  messagesSent : Z;
  messagesReceived : Z
}.

(** An inbound envelope after [JSON.parse]: the fields the handlers read.
    A field is [None] when it is absent ([undefined]). *)
Record message := {
  msg_type : option string;
  msg_roomId : option string;
  msg_timestamp : option Z;
  landmarks : option blob;
  metadata : option blob;
  msg_capabilities : option blob;
  msg_deviceInfo : option blob;
  targetSession : option string
}.

(** What [JSON.parse(data.toString())] makes of a frame: it throws, or it
    yields [null] (on which [message.type] throws), or it yields a value
    whose fields can be read. *)
Inductive frame :=
| NotJSON
| JSONNull
| JSONValue (m : message).

(** An element of the [participants] array sent in [room_joined]. *)
Record ParticipantInfo := {
  pi_sessionId : string;
  pi_deviceType : string;
  pi_joinedAt : Z
}.

(** An element of the array sent in [room_list]. *)
Record RoomSummary := {
  rs_id : option string;
  rs_created : Z;
  rs_participants : nat;
  rs_devices : list string
}.

(** The outbound envelopes, one constructor for each object literal the
    servers pass to [send] or [broadcastToRoom]. *)
Inductive envelope :=
| Connected (sid dt : string) (serverTime : Z) (connectionId : option string)
| RoomJoined (room : option string) (others : list ParticipantInfo) (roomCreated : Z)
| ParticipantJoined (sid dt : string) (at_ : Z)
| ParticipantLeft (sid dt : string)
| PairingSuccess (devices : list string)
| RoomCreated (room : string)
| PoseData (sid dt : string) (timestamp : Z) (lm md : option blob)
           (serverReceived : Z) (latency : option Z)
| PoseDataEnhanced (m : message) (receivedAt latency processingTime : Z)
| DeviceRegistered (sid : string) (caps : option blob)
| Pong (timestamp : Z)
| SyncForward (m : message) (sourceSession : string)
| RoomList (rs : list RoomSummary)
| Stats (metrics : Metrics) (nrooms : nat) (rs : list (option string * nat * Z))
| Error (msg : string) (timestamp : Z).

(** The string [JSON.stringify] returns, kept as the term it renders. *)
Inductive wire := Json (m : envelope).

(** What the server does to the outside, in order. *)
Inductive effect :=
| Stringify (m : envelope)
| WsSend (to : handle) (messageStr : wire).

(** The module-level state of a server.  [messageCount] and
    [poseDataLimits] are the deployment server's, [deviceMetrics] the
    development server's. *)
Record Server := {
  sockets : list WebSocket;
  rooms : omap (option string) Room;
  connections : omap string handle;
  poseDataLimits : omap string Limit;
  messageCount : Z;
  deviceMetrics : Metrics;
  out : list effect
}.

Definition with_sockets (v : list WebSocket) (st : Server) : Server :=
  {| sockets := v; rooms := rooms st; connections := connections st;
     poseDataLimits := poseDataLimits st; messageCount := messageCount st;
     deviceMetrics := deviceMetrics st; out := out st |}.

Definition with_rooms (v : omap (option string) Room) (st : Server) : Server :=
  {| sockets := sockets st; rooms := v; connections := connections st;
     poseDataLimits := poseDataLimits st; messageCount := messageCount st;
     deviceMetrics := deviceMetrics st; out := out st |}.

Definition with_connections (v : omap string handle) (st : Server) : Server :=
  {| sockets := sockets st; rooms := rooms st; connections := v;
     poseDataLimits := poseDataLimits st; messageCount := messageCount st;
     deviceMetrics := deviceMetrics st; out := out st |}.

Definition with_poseDataLimits (v : omap string Limit) (st : Server) : Server :=
  {| sockets := sockets st; rooms := rooms st; connections := connections st;
     poseDataLimits := v; messageCount := messageCount st;
     deviceMetrics := deviceMetrics st; out := out st |}.

Definition with_messageCount (v : Z) (st : Server) : Server :=
  {| sockets := sockets st; rooms := rooms st; connections := connections st;
     poseDataLimits := poseDataLimits st; messageCount := v;
     deviceMetrics := deviceMetrics st; out := out st |}.

Definition with_deviceMetrics (v : Metrics) (st : Server) : Server :=
  {| sockets := sockets st; rooms := rooms st; connections := connections st;
     poseDataLimits := poseDataLimits st; messageCount := messageCount st;
     deviceMetrics := v; out := out st |}.

(** Append to the log of effects. *)
Definition emit (es : list effect) (st : Server) : Server :=
  {| sockets := sockets st; rooms := rooms st; connections := connections st;
     poseDataLimits := poseDataLimits st; messageCount := messageCount st;
     deviceMetrics := deviceMetrics st; out := out st ++ es |}.

(** The server before any connection. *)
Definition init : Server :=
  {| sockets := []; rooms := []; connections := []; poseDataLimits := [];
     messageCount := 0;
     deviceMetrics := {| totalConnections := 0; currentConnections := 0;
                         messagesSent := 0; messagesReceived := 0 |};
     out := [] |}.

(** *** The store of [ws] objects *)

Definition socket (h : handle) (st : Server) : option WebSocket :=
  nth_error (sockets st) h.

(** What a property read through a handle that names no object yields;
    no handle kept by the server is in that case. *)
Definition no_socket : WebSocket :=
  {| sessionId := ""; deviceType := ""; roomId := None; connectedAt := 0;
     readyState := CLOSED; capabilities := None; deviceInfo := None |}.

Definition ws_of (st : Server) (h : handle) : WebSocket :=
  nth h (sockets st) no_socket.

Fixpoint list_alter {A : Type} (f : A -> A) (n : nat) (l : list A) : list A :=
  match l, n with
  | [], _ => []
  | x :: l', O => f x :: l'
  | x :: l', S n' => x :: list_alter f n' l'
  end.

Definition set_roomId (v : option string) (w : WebSocket) : WebSocket :=
  {| sessionId := sessionId w; deviceType := deviceType w; roomId := v;
     connectedAt := connectedAt w; readyState := readyState w;
     capabilities := capabilities w; deviceInfo := deviceInfo w |}.

Definition set_readyState (v : ReadyState) (w : WebSocket) : WebSocket :=
  {| sessionId := sessionId w; deviceType := deviceType w; roomId := roomId w;
     connectedAt := connectedAt w; readyState := v;
     capabilities := capabilities w; deviceInfo := deviceInfo w |}.

Definition set_device (c d : option blob) (w : WebSocket) : WebSocket :=
  {| sessionId := sessionId w; deviceType := deviceType w; roomId := roomId w;
     connectedAt := connectedAt w; readyState := readyState w;
     capabilities := c; deviceInfo := d |}.

(** Assignment to a field of the object behind [h]. *)
Definition update_ws (h : handle) (f : WebSocket -> WebSocket) (st : Server) : Server :=
  with_sockets (list_alter f h (sockets st)) st.

Definition with_participants (v : omap string Participant) (r : Room) : Room :=
  {| id := id r; created := created r; participants := v |}.

(** JavaScript truthiness of a value that is [null], [undefined] or a
    string: only a non-empty string is truthy. *)
Definition truthy (v : option string) : bool :=
  match v with
  | Some s => negb (String.eqb s "")
  | None => false
  end.

(** [a || b] on such values. *)
Definition or_else (a : option string) (b : string) : string :=
  match a with
  | Some s => if String.eqb s "" then b else s
  | None => b
  end.

(** ** The functions the two servers share

    [send], [sendError], [broadcastToRoom] and [leaveRoom] read the same
    in server.js and in local-server.js (console output apart).
    [registerDevice] is defined in server.js only: local-server.js calls
    it without defining it. *)

(** [ws.readyState === ws.OPEN] *)
Definition is_open (h : handle) (st : Server) : bool :=
  ReadyState_eqb (readyState (ws_of st h)) OPEN.

Definition send (h : handle) (m : envelope) (st : Server) : Server :=
  if is_open h st then emit [Stringify m; WsSend h (Json m)] st else st.

Definition sendError (h : handle) (msg : string) (now : Z) (st : Server) : Server :=
  send h (Error msg now) st.

(** The body of the [forEach] of [broadcastToRoom]. *)
Definition deliver (messageStr : wire) (excludeSession : option string)
    (acc : Server) (entry : string * Participant) : Server :=
  let (sessionId, participant) := entry in
  if negb (key_eqb (Some sessionId) excludeSession)
     && is_open (p_ws participant) acc
  then emit [WsSend (p_ws participant) messageStr] acc
  else acc.

Definition broadcastToRoom (roomId : option string) (m : envelope)
    (excludeSession : option string) (st : Server) : Server :=
  match map_get roomId (rooms st) with
  | None => st
  | Some room =>
      let messageStr := Json m in
      fold_left (deliver messageStr excludeSession) (participants room)
                (emit [Stringify m] st)
  end.

Definition leaveRoom (h : handle) (st : Server) : Server :=
  let ws := ws_of st h in
  if negb (truthy (roomId ws)) || negb (map_has (roomId ws) (rooms st)) then st
  else
    match map_get (roomId ws) (rooms st) with
    | None => st
    | Some room =>
        let room' := with_participants
                       (map_delete (sessionId ws) (participants room)) room in
        let st1 := with_rooms (map_set (roomId ws) room' (rooms st)) st in
        let st2 := broadcastToRoom (roomId ws)
                     (ParticipantLeft (sessionId ws) (deviceType ws)) None st1 in
        let st3 := if Nat.eqb (map_size (participants room')) 0
                   then with_rooms (map_delete (roomId ws) (rooms st2)) st2
                   else st2 in
        update_ws h (set_roomId None) st3
    end.

Definition registerDevice (h : handle) (m : message) (st : Server) : Server :=
  let st1 := update_ws h (set_device (msg_capabilities m) (msg_deviceInfo m)) st in
  send h (DeviceRegistered (sessionId (ws_of st1 h)) (capabilities (ws_of st1 h))) st1.

(** The [participants] array built in [joinRoom]. *)
Definition participant_infos (st : Server) (room : Room) : list ParticipantInfo :=
  map (fun e : string * Participant =>
         {| pi_sessionId := sessionId (ws_of st (p_ws (snd e)));
            pi_deviceType := deviceType (ws_of st (p_ws (snd e)));
            pi_joinedAt := joinedAt (snd e) |})
      (participants room).

Definition room_summary (e : option string * Room) : RoomSummary :=
  {| rs_id := fst e; rs_created := created (snd e);
     rs_participants := map_size (participants (snd e));
     rs_devices := map (fun p : string * Participant => p_deviceType (snd p))
                       (participants (snd e)) |}.

(** What the template literal [`${message.type}`] prints. *)
Definition show_type (t : option string) : string :=
  match t with Some s => s | None => "undefined" end.

Definition type_is (m : message) (t : string) : bool :=
  match msg_type m with Some s => String.eqb s t | None => false end.

(** What can happen to a server; [now] is what [Date.now()] returns while
    the handler runs, [id1] and [id2] what the two calls of [generateId()]
    of the connection handler return, [rid] what [generateRoomId()] returns
    should the handler call it. *)
Inductive event :=
| Connection (sessionIdParam deviceTypeParam roomIdParam : option string)
             (id1 id2 : string) (now : Z)
| Message (h : handle) (data : frame) (rid : string) (now : Z)
| WsError (h : handle)
| WsClosing (h : handle)
| WsClose (h : handle)
| Sweep (now : Z).

(** A new [ws] object, as the connection handler fills it in. *)
Definition new_socket (sid dt : string) (room : option string) (now : Z) : WebSocket :=
  {| sessionId := sid; deviceType := dt; roomId := room; connectedAt := now;
     readyState := OPEN; capabilities := None; deviceInfo := None |}.

(** A connection that exists and has not been closed still raises events. *)
Definition live (h : handle) (st : Server) : bool :=
  match socket h st with
  | Some w => negb (ReadyState_eqb (readyState w) CLOSED)
  | None => false
  end.

(** ** pose-tracker-websocket/server.js *)
Module Cloud.

Definition joinRoom (h : handle) (roomId_ : option string) (now : Z)
    (st : Server) : Server :=
  (* Leave current room first *)
  let st1 := if truthy (roomId (ws_of st h)) then leaveRoom h st else st in
  let st2 :=
    if negb (map_has roomId_ (rooms st1))
    then with_rooms (map_set roomId_
                       {| id := roomId_; created := now; participants := [] |}
                       (rooms st1)) st1
    else st1 in
  match map_get roomId_ (rooms st2) with
  | None => st2
  | Some room =>
      let ws := ws_of st2 h in
      let room' := with_participants
                     (map_set (sessionId ws)
                        {| p_ws := h; p_deviceType := deviceType ws; joinedAt := now |}
                        (participants room)) room in
      let st3 := with_rooms (map_set roomId_ room' (rooms st2)) st2 in
      let st4 := update_ws h (set_roomId roomId_) st3 in
      (* Get participant list *)
      let participants_ := participant_infos st4 room' in
      (* Confirm room join *)
      let st5 := send h (RoomJoined roomId_
                           (filter (fun p => negb (String.eqb (pi_sessionId p)
                                                              (sessionId ws)))
                                   participants_)
                           (created room')) st4 in
      (* Notify others *)
      broadcastToRoom roomId_
        (ParticipantJoined (sessionId ws) (deviceType ws) now)
        (Some (sessionId ws)) st5
  end.

(** Pose data handling with rate limiting *)
Definition handlePoseData (h : handle) (m : message) (now : Z)
    (st : Server) : Server :=
  let ws := ws_of st h in
  let sessionLimit :=
    match map_get (sessionId ws) (poseDataLimits st) with
    | Some l => l
    | None => {| count := 0; resetTime := now + 1000 |}
    end in
  let sessionLimit1 :=
    if (now >? resetTime sessionLimit)%Z
    then {| count := 0; resetTime := now + 1000 |}
    else sessionLimit in
  let sessionLimit2 :=
    {| count := count sessionLimit1 + 1; resetTime := resetTime sessionLimit1 |} in
  let st1 := with_poseDataLimits
               (map_set (sessionId ws) sessionLimit2 (poseDataLimits st)) st in
  (* Limit to 30 FPS per session *)
  if (count sessionLimit2 >? 30)%Z then st1
  else if truthy (roomId ws)
  then broadcastToRoom (roomId ws)
         (PoseData (sessionId ws) (deviceType ws) now (landmarks m) (metadata m)
            now (option_map (fun t => now - t)%Z (msg_timestamp m)))
         (Some (sessionId ws)) st1
  else st1.

Definition handleSyncRequest (h : handle) (m : message) (now : Z)
    (st : Server) : Server :=
  match targetSession m with
  | Some targetSession_ =>
      if truthy (Some targetSession_) then
        match map_get targetSession_ (connections st) with
        | Some target =>
            if is_open target st
            then send target (SyncForward m (sessionId (ws_of st h))) st
            else sendError h "Target session not found" now st
        | None => sendError h "Target session not found" now st
        end
      else st
  | None => st
  end.

Definition sendRoomList (h : handle) (st : Server) : Server :=
  send h (RoomList (map room_summary (rooms st))) st.

(** The types the [switch] of [handleMessage] has a case for. *)
Definition recognized : list string :=
  ["join_room"; "leave_room"; "pose_data"; "device_register"; "ping";
   "sync_request"; "room_list"].

(** Message router *)
Definition handleMessage (h : handle) (m : message) (now : Z)
    (st : Server) : Server :=
  if type_is m "join_room" then joinRoom h (msg_roomId m) now st
  else if type_is m "leave_room" then leaveRoom h st
  else if type_is m "pose_data" then handlePoseData h m now st
  else if type_is m "device_register" then registerDevice h m st
  else if type_is m "ping" then send h (Pong now) st
  else if type_is m "sync_request" then handleSyncRequest h m now st
  else if type_is m "room_list" then sendRoomList h st
  else sendError h ("Unknown message type: " ++ show_type (msg_type m)) now st.

(** [ws.on('message', ...)]: the [catch] takes what [JSON.parse] and the
    read of [message.type] of [null] throw. *)
Definition onMessage (h : handle) (data : frame) (now : Z)
    (st : Server) : Server :=
  let st1 := with_messageCount (messageCount st + 1) st in
  match data with
  | JSONValue m => handleMessage h m now st1
  | NotJSON | JSONNull => sendError h "Invalid message format" now st1
  end.

Definition cleanup (h : handle) (st : Server) : Server :=
  let sid := sessionId (ws_of st h) in
  let st1 := with_connections (map_delete sid (connections st)) st in
  let st2 := leaveRoom h st1 in
  with_poseDataLimits (map_delete sid (poseDataLimits st2)) st2.

(** [wss.on('connection', ...)] *)
Definition onConnection (sessionIdParam deviceTypeParam roomIdParam : option string)
    (id1 id2 : string) (now : Z) (st : Server) : Server :=
  let sessionId_ := or_else sessionIdParam id1 in
  let deviceType_ := or_else deviceTypeParam "unknown" in
  let h := length (sockets st) in
  let st1 := with_sockets
               (sockets st ++ [new_socket sessionId_ deviceType_ roomIdParam now])
               st in
  let st2 := with_connections (map_set sessionId_ h (connections st1)) st1 in
  (* Auto-join room if specified *)
  let st3 := if truthy roomIdParam then joinRoom h roomIdParam now st2 else st2 in
  (* Send welcome *)
  send h (Connected sessionId_ deviceType_ now (Some id2)) st3.

(** The periodic cleanup of rate limit data. *)
Definition sweep (now : Z) (st : Server) : Server :=
  with_poseDataLimits
    (filter (fun e : string * Limit => negb (now >? resetTime (snd e) + 60000)%Z)
            (poseDataLimits st)) st.

Definition step (st : Server) (e : event) : Server :=
  match e with
  | Connection s d r id1 id2 now => onConnection s d r id1 id2 now st
  | Message h data _ now => if live h st then onMessage h data now st else st
  | WsError h => if live h st then cleanup h st else st
  | WsClosing h =>
      if live h st then update_ws h (set_readyState CLOSING) st else st
  | WsClose h =>
      if live h st then cleanup h (update_ws h (set_readyState CLOSED) st) else st
  | Sweep now => sweep now st
  end.

Definition run (st : Server) (es : list event) : Server := fold_left step es st.

End Cloud.

(** ** local/local-server.js *)
Module Local.

Definition bump_totalConnections (d : Metrics) : Metrics :=
  {| totalConnections := totalConnections d + 1;
     currentConnections := currentConnections d + 1;
     messagesSent := messagesSent d; messagesReceived := messagesReceived d |}.

Definition drop_currentConnections (d : Metrics) : Metrics :=
  {| totalConnections := totalConnections d;
     currentConnections := currentConnections d - 1;
     messagesSent := messagesSent d; messagesReceived := messagesReceived d |}.

Definition bump_messagesSent (d : Metrics) : Metrics :=
  {| totalConnections := totalConnections d;
     currentConnections := currentConnections d;
     messagesSent := messagesSent d + 1; messagesReceived := messagesReceived d |}.

Definition bump_messagesReceived (d : Metrics) : Metrics :=
  {| totalConnections := totalConnections d;
     currentConnections := currentConnections d;
     messagesSent := messagesSent d; messagesReceived := messagesReceived d + 1 |}.

(** [participants.some(p => p.deviceType === cls)] *)
Definition some_deviceType (cls : string) (ps : list ParticipantInfo) : bool :=
  existsb (fun p => String.eqb (pi_deviceType p) cls) ps.

Definition joinRoom (h : handle) (roomId_ : option string) (now : Z)
    (st : Server) : Server :=
  let st1 := if truthy (roomId (ws_of st h)) then leaveRoom h st else st in
  let st2 :=
    if negb (map_has roomId_ (rooms st1))
    then with_rooms (map_set roomId_
                       {| id := roomId_; created := now; participants := [] |}
                       (rooms st1)) st1
    else st1 in
  match map_get roomId_ (rooms st2) with
  | None => st2
  | Some room =>
      let ws := ws_of st2 h in
      let room' := with_participants
                     (map_set (sessionId ws)
                        {| p_ws := h; p_deviceType := deviceType ws; joinedAt := now |}
                        (participants room)) room in
      let st3 := with_rooms (map_set roomId_ room' (rooms st2)) st2 in
      let st4 := update_ws h (set_roomId roomId_) st3 in
      let participants_ := participant_infos st4 room' in
      (* Send room confirmation *)
      let st5 := send h (RoomJoined roomId_
                           (filter (fun p => negb (String.eqb (pi_sessionId p)
                                                              (sessionId ws)))
                                   participants_)
                           (created room')) st4 in
      (* Notify others *)
      let st6 := broadcastToRoom roomId_
                   (ParticipantJoined (sessionId ws) (deviceType ws) now)
                   (Some (sessionId ws)) st5 in
      (* Check for successful pairing *)
      let hasPhone := some_deviceType "mobile" participants_ in
      let hasVR := some_deviceType "vr" participants_ in
      if hasPhone && hasVR
      then broadcastToRoom roomId_
             (PairingSuccess (map pi_deviceType participants_)) None st6
      else st6
  end.

(** Pose data with performance metrics; there is no rate limit here. *)
Definition handlePoseData (h : handle) (m : message) (now : Z)
    (st : Server) : Server :=
  let ws := ws_of st h in
  let latency :=
    match msg_timestamp m with
    | Some t => if (t =? 0)%Z then (now - now)%Z else (now - t)%Z
    | None => (now - now)%Z
    end in
  let st1 := with_deviceMetrics (bump_messagesSent (deviceMetrics st)) st in
  if truthy (roomId ws)
  then broadcastToRoom (roomId ws)
         (PoseDataEnhanced m now latency (now - now)%Z)
         (Some (sessionId ws)) st1
  else st1.

Definition sendStats (h : handle) (st : Server) : Server :=
  send h (Stats (deviceMetrics st) (map_size (rooms st))
            (map (fun e : option string * Room =>
                    (fst e, map_size (participants (snd e)), created (snd e)))
                 (rooms st))) st.

Definition recognized : list string :=
  ["join_room"; "create_room"; "leave_room"; "pose_data"; "device_register";
   "ping"; "get_stats"].

(** How a call of [handleMessage] ends: it returns, or it throws, with the
    state as it is then. *)
Inductive completion :=
| Returns (st : Server)
| Throws (st : Server).

(** The message router.  The case of [device_register] calls
    [registerDevice], which this file does not define: the call throws a
    [ReferenceError] before anything is done. *)
Definition handleMessage (h : handle) (m : message) (rid : string) (now : Z)
    (st : Server) : completion :=
  if type_is m "join_room" then Returns (joinRoom h (msg_roomId m) now st)
  else if type_is m "create_room"
  then Returns (send h (RoomCreated rid) (joinRoom h (Some rid) now st))
  else if type_is m "leave_room" then Returns (leaveRoom h st)
  else if type_is m "pose_data" then Returns (handlePoseData h m now st)
  else if type_is m "device_register" then Throws st
  else if type_is m "ping" then Returns (send h (Pong now) st)
  else if type_is m "get_stats" then Returns (sendStats h st)
  else Returns (sendError h ("Unknown message type: " ++ show_type (msg_type m))
                  now st).

(** [ws.on('message', ...)]: the [catch] takes what [JSON.parse], the read
    of [message.type] of [null] and [handleMessage] throw. *)
Definition onMessage (h : handle) (data : frame) (rid : string) (now : Z)
    (st : Server) : Server :=
  let st1 := with_deviceMetrics (bump_messagesReceived (deviceMetrics st)) st in
  match data with
  | JSONValue m =>
      match handleMessage h m rid now st1 with
      | Returns st2 => st2
      | Throws st2 => sendError h "Invalid message format" now st2
      end
  | NotJSON | JSONNull => sendError h "Invalid message format" now st1
  end.

Definition cleanup (h : handle) (st : Server) : Server :=
  let sid := sessionId (ws_of st h) in
  leaveRoom h (with_connections (map_delete sid (connections st)) st).

Definition onConnection (sessionIdParam deviceTypeParam roomIdParam : option string)
    (id1 : string) (now : Z) (st : Server) : Server :=
  let sessionId_ := or_else sessionIdParam id1 in
  let deviceType_ := or_else deviceTypeParam "unknown" in
  let h := length (sockets st) in
  let st1 := with_sockets
               (sockets st ++ [new_socket sessionId_ deviceType_ roomIdParam now])
               st in
  let st2 := with_connections (map_set sessionId_ h (connections st1)) st1 in
  let st2' := with_deviceMetrics (bump_totalConnections (deviceMetrics st2)) st2 in
  let st3 := if truthy roomIdParam then joinRoom h roomIdParam now st2' else st2' in
  send h (Connected sessionId_ deviceType_ now None) st3.

Definition step (st : Server) (e : event) : Server :=
  match e with
  | Connection s d r id1 _ now => onConnection s d r id1 now st
  | Message h data rid now =>
      if live h st then onMessage h data rid now st else st
  | WsError h => if live h st then cleanup h st else st
  | WsClosing h =>
      if live h st then update_ws h (set_readyState CLOSING) st else st
  | WsClose h =>
      if live h st
      then cleanup h
             (with_deviceMetrics (drop_currentConnections (deviceMetrics st))
                (update_ws h (set_readyState CLOSED) st))
      else st
  | Sweep _ => st
  end.

Definition run (st : Server) (es : list event) : Server := fold_left step es st.

End Local.

(** *** Ready-made inbound envelopes *)

Definition join_room (r : string) : frame :=
  JSONValue {| msg_type := Some "join_room"; msg_roomId := Some r;
               msg_timestamp := None; landmarks := None; metadata := None;
               msg_capabilities := None; msg_deviceInfo := None;
               targetSession := None |}.

Definition create_room : frame :=
  JSONValue {| msg_type := Some "create_room"; msg_roomId := None;
               msg_timestamp := None; landmarks := None; metadata := None;
               msg_capabilities := None; msg_deviceInfo := None;
               targetSession := None |}.

(** ** src/utils/WebSocketManager.js: the connection manager *)
Module WebSocketManager.

(** The text [updateConnectionStatus] last showed. *)
Inductive Status :=
| NoStatus
| StatusConnected
| StatusDisconnected
| StatusReconnecting (attempt max : nat)
| StatusConnectionFailed
| StatusPaired (type : string).        (* "Paired with <type>" *)

(** The socket [this.ws] whose handlers the manager has set: none yet,
    one that is connecting, one that has opened, one that has raised
    [error] and has still to raise [close], or one that has closed. *)
Inductive Socket := NoSocket | Connecting | Opened | Errored | Closed.

(** A message the manager has written to its socket: the [device_register]
    of [onopen], or the [sync_response] of [handleSyncRequest] with its
    [targetSession].  Their other fields are read from the browser and are
    left out. *)
Inductive Sent :=
| DeviceRegister
| SyncResponse (targetSession : option string).

Record Manager := {
  ws : Socket;
  isConnected : bool;
  reconnectAttempts : nat;
  maxReconnectAttempts : nat;
  reconnectDelay : Z;
  connectionStatus : Status;
  timers : list Z;                       (* delays of the pending [setTimeout]s *)
  opened : list (string * option string); (* url and room of each [new WebSocket] *)
  console : list string;                 (* what [console.error] printed *)
  sent : list Sent                       (* what [this.ws.send] was given *)
}.

(** The constructor. *)
Definition new_manager : Manager :=
  {| ws := NoSocket; isConnected := false; reconnectAttempts := 0;
     maxReconnectAttempts := 5; reconnectDelay := 1000;
     connectionStatus := NoStatus; timers := []; opened := []; console := [];
     sent := [] |}.

(** [this.cloudServices]; the [ngrok] entry is commented out in the source. *)
Definition cloudServices : list (string * string) :=
  [("cloudflare", "wss://pose-tracker.your-domain.workers.dev");
   ("railway", "wss://your-app.railway.app");
   ("custom", "wss://your-custom-server.com");
   ("local", "ws://192.168.86.208:8080/ws")].

(** The default of the [service] parameter of [connect]. *)
Definition default_service : string := "ngrok".

Definition updateConnectionStatus (s : Status) (m : Manager) : Manager :=
  {| ws := ws m; isConnected := isConnected m;
     reconnectAttempts := reconnectAttempts m;
     maxReconnectAttempts := maxReconnectAttempts m;
     reconnectDelay := reconnectDelay m; connectionStatus := s;
     timers := timers m; opened := opened m; console := console m;
     sent := sent m |}.

Definition set_ws (s : Socket) (m : Manager) : Manager :=
  {| ws := s; isConnected := isConnected m;
     reconnectAttempts := reconnectAttempts m;
     maxReconnectAttempts := maxReconnectAttempts m;
     reconnectDelay := reconnectDelay m; connectionStatus := connectionStatus m;
     timers := timers m; opened := opened m; console := console m;
     sent := sent m |}.

Definition set_isConnected (b : bool) (m : Manager) : Manager :=
  {| ws := ws m; isConnected := b;
     reconnectAttempts := reconnectAttempts m;
     maxReconnectAttempts := maxReconnectAttempts m;
     reconnectDelay := reconnectDelay m; connectionStatus := connectionStatus m;
     timers := timers m; opened := opened m; console := console m;
     sent := sent m |}.

Definition set_reconnectAttempts (n : nat) (m : Manager) : Manager :=
  {| ws := ws m; isConnected := isConnected m;
     reconnectAttempts := n;
     maxReconnectAttempts := maxReconnectAttempts m;
     reconnectDelay := reconnectDelay m; connectionStatus := connectionStatus m;
     timers := timers m; opened := opened m; console := console m;
     sent := sent m |}.

Definition set_timers (t : list Z) (m : Manager) : Manager :=
  {| ws := ws m; isConnected := isConnected m;
     reconnectAttempts := reconnectAttempts m;
     maxReconnectAttempts := maxReconnectAttempts m;
     reconnectDelay := reconnectDelay m; connectionStatus := connectionStatus m;
     timers := t; opened := opened m; console := console m;
     sent := sent m |}.

Definition set_sent (l : list Sent) (m : Manager) : Manager :=
  {| ws := ws m; isConnected := isConnected m;
     reconnectAttempts := reconnectAttempts m;
     maxReconnectAttempts := maxReconnectAttempts m;
     reconnectDelay := reconnectDelay m; connectionStatus := connectionStatus m;
     timers := timers m; opened := opened m; console := console m;
     sent := l |}.

Definition new_WebSocket (url : string) (roomId_ : option string) (m : Manager) : Manager :=
  {| ws := Connecting; isConnected := isConnected m;
     reconnectAttempts := reconnectAttempts m;
     maxReconnectAttempts := maxReconnectAttempts m;
     reconnectDelay := reconnectDelay m; connectionStatus := connectionStatus m;
     timers := timers m; opened := opened m ++ [(url, roomId_)];
     console := console m; sent := sent m |}.

Definition console_error (s : string) (m : Manager) : Manager :=
  {| ws := ws m; isConnected := isConnected m;
     reconnectAttempts := reconnectAttempts m;
     maxReconnectAttempts := maxReconnectAttempts m;
     reconnectDelay := reconnectDelay m; connectionStatus := connectionStatus m;
     timers := timers m; opened := opened m; console := console m ++ [s];
     sent := sent m |}.

(** [connect(service = 'ngrok', roomId = null)], for a [service] that is a
    key of [cloudServices] or names no property at all.  The URLs of
    [cloudServices] are well-formed, so nothing in the [try] throws. *)
Definition connect (service : string) (roomId_ : option string) (m : Manager) : Manager :=
  match map_get service cloudServices with
  | None => console_error ("Invalid cloud service: " ++ service) m
  | Some wsUrl => new_WebSocket wsUrl roomId_ m
  end.

(** [sendMessage(message)]: the socket is written to when it is open. *)
Definition sendMessage (x : Sent) (m : Manager) : Manager :=
  match ws m with
  | Opened => set_sent (sent m ++ [x]) m
  | _ => m
  end.

(** [this.ws.onopen] *)
Definition onopen (m : Manager) : Manager :=
  sendMessage DeviceRegister
    (updateConnectionStatus StatusConnected
       (set_reconnectAttempts 0 (set_isConnected true m))).

(** The callback [handleDisconnection] gives to [setTimeout]. *)
Definition retry (m : Manager) : Manager :=
  let m1 := set_reconnectAttempts (reconnectAttempts m + 1) m in
  let m2 := updateConnectionStatus
              (StatusReconnecting (reconnectAttempts m1) (maxReconnectAttempts m1))
              m1 in
  connect default_service None m2.

Definition handleDisconnection (m : Manager) : Manager :=
  let m1 := updateConnectionStatus StatusDisconnected (set_isConnected false m) in
  if Nat.ltb (reconnectAttempts m1) (maxReconnectAttempts m1)
  then set_timers
         (timers m1 ++ [reconnectDelay m1 * 2 ^ Z.of_nat (reconnectAttempts m1)]%Z)
         m1
  else updateConnectionStatus StatusConnectionFailed m1.

(** What [JSON.parse(event.data)] yields, as [handleMessage] reads it:
    [data.type], [data.pairedDevice] together with its [type],
    [data.message] and [data.sessionId].  A field is [None] when it is
    absent. *)
Record Data := {
  data_type : option string;
  pairedDevice : option (option string);
  data_message : option string;
  data_sessionId : option string
}.

(** The text of a frame: [JSON.parse] throws on it, or yields [null], or
    yields a value whose fields can be read. *)
Inductive Received :=
| NotJSON
| JSONNull
| JSONValue (d : Data).

Definition data_is (d : Data) (t : string) : bool :=
  match data_type d with Some s => String.eqb s t | None => false end.

(** [handleSyncRequest(data)] *)
Definition handleSyncRequest (d : Data) (m : Manager) : Manager :=
  sendMessage (SyncResponse (data_sessionId d)) m.

(** [handleMessage(data)].  The callbacks [onPoseData], [onDevicePaired]
    and [onRoomJoined], which the application sets, do not touch the
    manager.  In the case of [device_paired] the read of
    [data.pairedDevice.type] throws when there is no [pairedDevice], before
    the status is set. *)
Definition handleMessage (d : Data) (m : Manager) : Manager :=
  if data_is d "pose_data" then m
  else if data_is d "device_paired" then
    match pairedDevice d with
    | Some type => updateConnectionStatus (StatusPaired (show_type type)) m
    | None => m
    end
  else if data_is d "room_joined" then m
  else if data_is d "sync_request" then handleSyncRequest d m
  else if data_is d "error"
  then console_error ("Server error: " ++ show_type (data_message d)) m
  else m.

(** [this.ws.onmessage]: what [JSON.parse] or [handleMessage] throws ends
    the handler. *)
Definition onmessage (data : Received) (m : Manager) : Manager :=
  match data with
  | JSONValue d => handleMessage d m
  | NotJSON | JSONNull => m
  end.

(** [this.ws.onerror]; of what [console.error] prints, the event object is
    left out. *)
Definition onerror (m : Manager) : Manager :=
  handleDisconnection (console_error "WebSocket error:" m).

(** What the browser does to the manager: the socket opens, raises
    [error], closes, delivers a message (which it does only while the
    socket is open), or a pending timer runs out. *)
Inductive Event := Open | Error | Close | Timeout (i : nat) | Receive (data : Received).

Fixpoint remove_nth {A : Type} (i : nat) (l : list A) : list A :=
  match l, i with
  | [], _ => []
  | _ :: l', O => l'
  | x :: l', S i' => x :: remove_nth i' l'
  end.

Definition step (m : Manager) (e : Event) : Manager :=
  match e, ws m with
  | Open, Connecting => onopen (set_ws Opened m)
  | Error, (Connecting | Opened) => onerror (set_ws Errored m)
  | Close, (Connecting | Opened | Errored) => handleDisconnection (set_ws Closed m)
  | Receive data, Opened => onmessage data m
  | Timeout i, _ =>
      if Nat.ltb i (length (timers m))
      then retry (set_timers (remove_nth i (timers m)) m)
      else m
  | _, _ => m
  end.

Definition run (m : Manager) (es : list Event) : Manager := fold_left step es m.

(** The manager as [PoseTracker.init] leaves it: [connect('local')]. *)
Definition started : Manager := connect "local" None new_manager.

End WebSocketManager.

(** ** src/utils/WebSocketManager.js: the names of the landmarks *)

Definition landmarkNames : list string :=
  ["nose"; "left_eye_inner"; "left_eye"; "left_eye_outer";
   "right_eye_inner"; "right_eye"; "right_eye_outer"; "left_ear";
   "right_ear"; "mouth_left"; "mouth_right"; "left_shoulder";
   "right_shoulder"; "left_elbow"; "right_elbow"; "left_wrist";
   "right_wrist"; "left_pinky"; "right_pinky"; "left_index";
   "right_index"; "left_thumb"; "right_thumb"; "left_hip";
   "right_hip"; "left_knee"; "right_knee"; "left_ankle";
   "right_ankle"; "left_heel"; "right_heel"; "left_foot_index";
   "right_foot_index"].

(** What the template literal [`${index}`] prints for an index of an
    array, a whole number below 2^32: its decimal digits. *)
Definition show_index (index : nat) : string :=
  NilEmpty.string_of_uint (Nat.to_uint index).

(** [getLandmarkName(index)], for the indices [Array.prototype.map] passes:
    the natural numbers. *)
Definition getLandmarkName (index : nat) : string :=
  or_else (nth_error landmarkNames index) ("landmark_" ++ show_index index).

(** * Properties *)

(** ** The log and the store *)

Lemma emit_nil st : emit [] st = st.
Proof. destruct st. unfold emit. simpl. now rewrite app_nil_r. Qed.

Lemma emit_emit l1 l2 st : emit l2 (emit l1 st) = emit (l1 ++ l2) st.
Proof. unfold emit. simpl. now rewrite app_assoc. Qed.

Lemma length_list_alter {A} (f : A -> A) n l : length (list_alter f n l) = length l.
Proof.
  revert n. induction l as [|x l IH]; intros [|n]; simpl; auto.
Qed.

Lemma nth_list_alter_same {A} (f : A -> A) n l d :
  n < length l -> nth n (list_alter f n l) d = f (nth n l d).
Proof.
  revert n. induction l as [|x l IH]; intros [|n]; simpl; intro L;
    try lia; auto. apply IH. lia.
Qed.

Lemma nth_list_alter_other {A} (f : A -> A) n n' l d :
  n <> n' -> nth n' (list_alter f n l) d = nth n' l d.
Proof.
  revert n n'. induction l as [|x l IH]; intros [|n] [|n']; simpl; intro N;
    try congruence; auto.
Qed.

Lemma ws_of_update_same h f st :
  h < length (sockets st) -> ws_of (update_ws h f st) h = f (ws_of st h).
Proof. intro L. unfold ws_of, update_ws. simpl. now apply nth_list_alter_same. Qed.

Lemma ws_of_update_other h h' f st :
  h <> h' -> ws_of (update_ws h f st) h' = ws_of st h'.
Proof. intro N. unfold ws_of, update_ws. simpl. now apply nth_list_alter_other. Qed.

Lemma length_update_ws h f st :
  length (sockets (update_ws h f st)) = length (sockets st).
Proof. unfold update_ws. simpl. apply length_list_alter. Qed.

Lemma live_lt h st : live h st = true -> h < length (sockets st).
Proof.
  unfold live, socket. destruct (nth_error (sockets st) h) eqn:E; [|discriminate].
  intros _. apply nth_error_Some. congruence.
Qed.

Lemma live_ws_of h st :
  live h st = negb (ReadyState_eqb (readyState (ws_of st h)) CLOSED).
Proof.
  unfold live, socket, ws_of.
  destruct (nth_error (sockets st) h) eqn:E.
  - now rewrite (nth_error_nth _ _ _ E).
  - apply nth_error_None in E. rewrite nth_overflow by assumption. reflexivity.
Qed.

(** ** Broadcast *)

(** Whom the [forEach] of [broadcastToRoom] writes to. *)
Definition eligible (st : Server) (excludeSession : option string)
    (e : string * Participant) : bool :=
  negb (key_eqb (Some (fst e)) excludeSession) && is_open (p_ws (snd e)) st.

(** What a broadcast adds to the log. *)
Definition deliveries (r : option string) (m : envelope)
    (excludeSession : option string) (st : Server) : list effect :=
  match map_get r (rooms st) with
  | None => []
  | Some room =>
      Stringify m ::
      map (fun e : string * Participant => WsSend (p_ws (snd e)) (Json m))
          (filter (eligible st excludeSession) (participants room))
  end.

Lemma fold_deliver ms ex st ps : forall acc,
  sockets acc = sockets st ->
  fold_left (deliver ms ex) ps acc =
  emit (map (fun e : string * Participant => WsSend (p_ws (snd e)) ms)
            (filter (eligible st ex) ps)) acc.
Proof.
  induction ps as [|[s p] ps IH]; intros acc E.
  - simpl. now rewrite emit_nil.
  - assert (O : is_open (p_ws p) acc = is_open (p_ws p) st)
      by (unfold is_open, ws_of; now rewrite E).
    cbn [fold_left filter]. unfold deliver at 2, eligible at 1.
    cbn [fst snd]. rewrite O.
    destruct (negb (key_eqb (Some s) ex) && is_open (p_ws p) st).
    + rewrite IH by exact E. cbn [map]. now rewrite emit_emit.
    + now apply IH.
Qed.

Lemma broadcastToRoom_emit r m ex st :
  broadcastToRoom r m ex st = emit (deliveries r m ex st) st.
Proof.
  unfold broadcastToRoom, deliveries.
  destruct (map_get r (rooms st)) as [room|]; [|now rewrite emit_nil].
  rewrite (fold_deliver _ _ st) by reflexivity.
  now rewrite emit_emit.
Qed.

Lemma send_emit h m st :
  send h m st =
  emit (if is_open h st then [Stringify m; WsSend h (Json m)] else []) st.
Proof. unfold send. destruct (is_open h st); [reflexivity|now rewrite emit_nil]. Qed.

(** ** What [leaveRoom] and [joinRoom] do to the state *)

Lemma map_set_set {K V} `{Key K} (k : K) (v v0 : V) (m : omap K V) :
  map_set k v (map_set k v0 m) = map_set k v m.
Proof.
  induction m as [|[k1 v1] m IH]; simpl.
  - now rewrite key_eqb_refl.
  - destruct (key_eqb k k1) eqn:E; simpl.
    + now rewrite key_eqb_refl.
    + now rewrite E, IH.
Qed.

(** The room [h] is in once it has left, with [h] taken out. *)
Definition left_participants (h : handle) (room : Room) (st : Server) :
    omap string Participant :=
  map_delete (sessionId (ws_of st h)) (participants room).

Definition left_rooms (h : handle) (room : Room) (st : Server) :
    omap (option string) Room :=
  let r := roomId (ws_of st h) in
  let rooms1 := map_set r (with_participants (left_participants h room st) room)
                        (rooms st) in
  if Nat.eqb (map_size (left_participants h room st)) 0
  then map_delete r rooms1 else rooms1.

Definition left_effects (h : handle) (room : Room) (st : Server) : list effect :=
  let ws := ws_of st h in
  deliveries (roomId ws) (ParticipantLeft (sessionId ws) (deviceType ws)) None
    (with_rooms (map_set (roomId ws)
                   (with_participants (left_participants h room st) room)
                   (rooms st)) st).

Lemma leaveRoom_noop h st :
  truthy (roomId (ws_of st h)) = false \/
  map_get (roomId (ws_of st h)) (rooms st) = None ->
  leaveRoom h st = st.
Proof.
  unfold leaveRoom, map_has. intros [E|E]; rewrite E; simpl; [reflexivity|].
  now rewrite orb_true_r.
Qed.

Lemma leaveRoom_leaves h st room :
  truthy (roomId (ws_of st h)) = true ->
  map_get (roomId (ws_of st h)) (rooms st) = Some room ->
  leaveRoom h st =
  update_ws h (set_roomId None)
    (with_rooms (left_rooms h room st) (emit (left_effects h room st) st)).
Proof.
  intros T G. unfold leaveRoom, map_has. rewrite T, G. simpl.
  rewrite broadcastToRoom_emit.
  unfold left_rooms, left_effects, left_participants. simpl.
  destruct (Nat.eqb _ 0); reflexivity.
Qed.

(** The three ways [leaveRoom h st] can go: the room is left, or there is
    no such room, or the connection has no room. *)
Ltac leave_cases h st room T G :=
  destruct (truthy (roomId (ws_of st h))) eqn:T;
  [ destruct (map_get (roomId (ws_of st h)) (rooms st)) as [room|] eqn:G;
    [ rewrite (leaveRoom_leaves _ _ _ T G)
    | rewrite (leaveRoom_noop h st (or_intror G)) ]
  | rewrite (leaveRoom_noop h st (or_introl T)) ].

(** The state [joinRoom] starts from once the current room is left. *)
Definition pre_leave (h : handle) (st : Server) : Server :=
  if truthy (roomId (ws_of st h)) then leaveRoom h st else st.

Definition fresh_room (r : option string) (now : Z) : Room :=
  {| id := r; created := now; participants := [] |}.

Definition joined_room (h : handle) (r : option string) (now : Z) (st1 : Server) : Room :=
  let room0 := match map_get r (rooms st1) with
               | Some room => room
               | None => fresh_room r now
               end in
  with_participants
    (map_set (sessionId (ws_of st1 h))
       {| p_ws := h; p_deviceType := deviceType (ws_of st1 h); joinedAt := now |}
       (participants room0)) room0.

Definition joined (h : handle) (r : option string) (now : Z) (st1 : Server) : Server :=
  update_ws h (set_roomId r)
    (with_rooms (map_set r (joined_room h r now st1) (rooms st1)) st1).

Definition room_joined_envelope (h : handle) (r : option string) (now : Z)
    (st1 : Server) : envelope :=
  RoomJoined r
    (filter (fun p => negb (String.eqb (pi_sessionId p) (sessionId (ws_of st1 h))))
            (participant_infos (joined h r now st1) (joined_room h r now st1)))
    (created (joined_room h r now st1)).

Definition join_effects (h : handle) (r : option string) (now : Z)
    (st1 : Server) : list effect :=
  (if is_open h (joined h r now st1)
   then [Stringify (room_joined_envelope h r now st1);
         WsSend h (Json (room_joined_envelope h r now st1))]
   else []) ++
  deliveries r
    (ParticipantJoined (sessionId (ws_of st1 h)) (deviceType (ws_of st1 h)) now)
    (Some (sessionId (ws_of st1 h))) (joined h r now st1).

Lemma joinRoom_joined h r now st :
  Cloud.joinRoom h r now st =
  emit (join_effects h r now (pre_leave h st)) (joined h r now (pre_leave h st)).
Proof.
  unfold Cloud.joinRoom. fold (pre_leave h st).
  set (st1 := pre_leave h st).
  unfold join_effects, room_joined_envelope, joined, joined_room, map_has.
  destruct (map_get r (rooms st1)) as [room|] eqn:G; simpl.
  - rewrite G. rewrite send_emit, broadcastToRoom_emit, emit_emit. reflexivity.
  - rewrite map_get_set_same. rewrite send_emit, broadcastToRoom_emit, emit_emit.
    simpl. rewrite map_set_set. reflexivity.
Qed.

(** ** Handlers that leave the rooms alone *)

Lemma rooms_send h m st : rooms (send h m st) = rooms st.
Proof. now rewrite send_emit. Qed.

Lemma rooms_broadcastToRoom r m ex st : rooms (broadcastToRoom r m ex st) = rooms st.
Proof. now rewrite broadcastToRoom_emit. Qed.

Lemma rooms_registerDevice h m st : rooms (registerDevice h m st) = rooms st.
Proof. unfold registerDevice. now rewrite rooms_send. Qed.

Lemma rooms_handlePoseData h m now st :
  rooms (Cloud.handlePoseData h m now st) = rooms st.
Proof.
  unfold Cloud.handlePoseData.
  repeat match goal with |- context [if ?c then _ else _] => destruct c end;
    rewrite ?rooms_broadcastToRoom; reflexivity.
Qed.

Lemma rooms_handleSyncRequest h m now st :
  rooms (Cloud.handleSyncRequest h m now st) = rooms st.
Proof.
  unfold Cloud.handleSyncRequest, sendError.
  repeat match goal with
         | |- context [match ?c with _ => _ end] => destruct c
         end; rewrite ?rooms_send; reflexivity.
Qed.

(** ** Rooms and their participant sets (C1) *)

(** The participant set of a room code: that of the room the directory has
    under the code, and empty when it has none. *)
Definition participant_set (r : option string) (st : Server) :
    omap string Participant :=
  match map_get r (rooms st) with
  | Some room => participants room
  | None => []
  end.

Definition rooms_nonempty (st : Server) : Prop :=
  forall r room, map_get r (rooms st) = Some room -> participants room <> [].

Lemma rooms_nonempty_ext st st' :
  rooms st' = rooms st -> rooms_nonempty st -> rooms_nonempty st'.
Proof. unfold rooms_nonempty. intros E. now rewrite E. Qed.

Lemma rooms_nonempty_leaveRoom h st :
  rooms_nonempty st -> rooms_nonempty (leaveRoom h st).
Proof.
  intro I.
  leave_cases h st room T G; [|solve [auto]..].
  intros r room' G'. simpl in G'. unfold left_rooms in G'.
  destruct (key_eq_dec (roomId (ws_of st h)) r) as [<-|N].
  - destruct (Nat.eqb _ 0) eqn:Z.
    + now rewrite map_get_delete_same in G'.
    + rewrite map_get_set_same in G'. injection G' as <-. simpl.
      intro Q. unfold map_size in Z. rewrite Q in Z. discriminate.
  - destruct (Nat.eqb _ 0);
      rewrite ?map_get_delete_other, map_get_set_other in G' by assumption;
      eauto.
Qed.

Lemma rooms_nonempty_pre_leave h st :
  rooms_nonempty st -> rooms_nonempty (pre_leave h st).
Proof.
  unfold pre_leave. destruct (truthy _); auto using rooms_nonempty_leaveRoom.
Qed.

Lemma rooms_nonempty_joinRoom h r now st :
  rooms_nonempty st -> rooms_nonempty (Cloud.joinRoom h r now st).
Proof.
  intro I. rewrite joinRoom_joined.
  apply rooms_nonempty_pre_leave with (h := h) in I.
  intros r' room' G. simpl in G.
  destruct (key_eq_dec r r') as [<-|N].
  - rewrite map_get_set_same in G. injection G as <-.
    unfold joined_room. simpl. apply map_set_not_nil.
  - rewrite map_get_set_other in G by assumption. eauto.
Qed.

Lemma rooms_nonempty_handleMessage h m now st :
  rooms_nonempty st -> rooms_nonempty (Cloud.handleMessage h m now st).
Proof.
  intro I. unfold Cloud.handleMessage, Cloud.sendRoomList, sendError.
  repeat match goal with |- context [if ?c then _ else _] => destruct c end;
    auto using rooms_nonempty_joinRoom, rooms_nonempty_leaveRoom;
    (eapply rooms_nonempty_ext; [|exact I]);
    rewrite ?rooms_handlePoseData, ?rooms_registerDevice, ?rooms_send,
      ?rooms_handleSyncRequest; reflexivity.
Qed.

Lemma rooms_nonempty_cleanup h st :
  rooms_nonempty st -> rooms_nonempty (Cloud.cleanup h st).
Proof.
  intro I. unfold Cloud.cleanup.
  eapply rooms_nonempty_ext; [reflexivity|].
  apply rooms_nonempty_leaveRoom.
  eapply rooms_nonempty_ext; [|exact I]. reflexivity.
Qed.

Lemma rooms_nonempty_step st e :
  rooms_nonempty st -> rooms_nonempty (Cloud.step st e).
Proof.
  intro I. destruct e; simpl.
  - unfold Cloud.onConnection.
    eapply rooms_nonempty_ext; [apply rooms_send|].
    destruct (truthy roomIdParam); [|exact I].
    apply rooms_nonempty_joinRoom. exact I.
  - destruct (live h st); [|exact I]. unfold Cloud.onMessage.
    destruct data.
    + eapply rooms_nonempty_ext; [|exact I]. unfold sendError. now rewrite rooms_send.
    + eapply rooms_nonempty_ext; [|exact I]. unfold sendError. now rewrite rooms_send.
    + apply rooms_nonempty_handleMessage. exact I.
  - destruct (live h st); [|exact I]. now apply rooms_nonempty_cleanup.
  - destruct (live h st); exact I.
  - destruct (live h st); [|exact I]. apply rooms_nonempty_cleanup. exact I.
  - exact I.
Qed.

Lemma rooms_nonempty_run es : forall st,
  rooms_nonempty st -> rooms_nonempty (Cloud.run st es).
Proof.
  induction es as [|e es IH]; intros st I; simpl; auto.
  apply IH. now apply rooms_nonempty_step.
Qed.

Lemma rooms_nonempty_init : rooms_nonempty init.
Proof. intros r room G. discriminate. Qed.


Lemma sessionId_pre_leave h st :
  sessionId (ws_of (pre_leave h st) h) = sessionId (ws_of st h) /\
  deviceType (ws_of (pre_leave h st) h) = deviceType (ws_of st h).
Proof.
  unfold pre_leave.
  destruct (truthy (roomId (ws_of st h))) eqn:T'; [|auto].
  leave_cases h st room T G; [|solve [auto]..].
  destruct (Nat.lt_ge_cases h (length (sockets st))) as [L|L].
  - rewrite ws_of_update_same by exact L. auto.
  - unfold ws_of, update_ws. simpl.
    rewrite !nth_overflow; rewrite ?length_list_alter; auto.
Qed.



(** ** Which connection a participant entry refers to *)

(** The room under code [r] has an entry under key [s] that holds the
    [ws] object [h]. *)
Definition refs (st : Server) (h : handle) (r : option string) (s : string) : Prop :=
  exists room p,
    map_get r (rooms st) = Some room /\ In (s, p) (participants room) /\ p_ws p = h.

(** Two states with the same rooms whose [ws] objects agree on the fields
    the room logic reads. *)
Definition core_eq (st st' : Server) : Prop :=
  rooms st' = rooms st /\
  length (sockets st') = length (sockets st) /\
  forall h, sessionId (ws_of st' h) = sessionId (ws_of st h) /\
            roomId (ws_of st' h) = roomId (ws_of st h) /\
            readyState (ws_of st' h) = readyState (ws_of st h).

Lemma core_eq_same st st' :
  rooms st' = rooms st -> sockets st' = sockets st -> core_eq st st'.
Proof. intros R S. unfold core_eq, ws_of. rewrite R, S. auto. Qed.

Lemma core_eq_refl st : core_eq st st.
Proof. now apply core_eq_same. Qed.

Lemma core_eq_trans a b c : core_eq a b -> core_eq b c -> core_eq a c.
Proof.
  intros (R1 & L1 & W1) (R2 & L2 & W2). repeat split; try congruence;
    destruct (W1 h) as (? & ? & ?), (W2 h) as (? & ? & ?); congruence.
Qed.

Lemma core_eq_emit l st : core_eq st (emit l st).
Proof. now apply core_eq_same. Qed.

Lemma core_eq_send h m st : core_eq st (send h m st).
Proof. rewrite send_emit. apply core_eq_emit. Qed.

Lemma core_eq_broadcastToRoom r m ex st : core_eq st (broadcastToRoom r m ex st).
Proof. rewrite broadcastToRoom_emit. apply core_eq_emit. Qed.

Lemma core_eq_update_ws h f st :
  (forall w, sessionId (f w) = sessionId w /\ roomId (f w) = roomId w /\
             readyState (f w) = readyState w) ->
  core_eq st (update_ws h f st).
Proof.
  intro F. split; [reflexivity|]. split; [apply length_update_ws|].
  intro h'. destruct (Nat.eq_dec h h') as [<-|N].
  - destruct (Nat.lt_ge_cases h (length (sockets st))) as [L|L].
    + rewrite ws_of_update_same by exact L. apply F.
    + unfold ws_of, update_ws. simpl.
      rewrite !nth_overflow; rewrite ?length_list_alter; auto.
  - rewrite ws_of_update_other by exact N. auto.
Qed.

Lemma core_eq_registerDevice h m st : core_eq st (registerDevice h m st).
Proof.
  unfold registerDevice.
  eapply core_eq_trans; [|apply core_eq_send].
  apply core_eq_update_ws. intro w. simpl. auto.
Qed.

Lemma handlePoseData_shape h m now st :
  exists l lims,
    Cloud.handlePoseData h m now st = emit l (with_poseDataLimits lims st).
Proof.
  unfold Cloud.handlePoseData.
  repeat match goal with |- context [if ?c then _ else _] => destruct c end;
    rewrite ?broadcastToRoom_emit;
    try (eexists; eexists; reflexivity);
    (exists []; eexists; now rewrite emit_nil).
Qed.

Lemma handleSyncRequest_shape h m now st :
  exists l, Cloud.handleSyncRequest h m now st = emit l st.
Proof.
  unfold Cloud.handleSyncRequest, sendError.
  repeat match goal with
         | |- context [match ?c with _ => _ end] => destruct c
         end; rewrite ?send_emit;
    try (eexists; reflexivity); (exists []; now rewrite emit_nil).
Qed.

Lemma core_eq_handlePoseData h m now st :
  core_eq st (Cloud.handlePoseData h m now st).
Proof.
  destruct (handlePoseData_shape h m now st) as (l & lims & ->).
  now apply core_eq_same.
Qed.

Lemma core_eq_handleSyncRequest h m now st :
  core_eq st (Cloud.handleSyncRequest h m now st).
Proof.
  destruct (handleSyncRequest_shape h m now st) as (l & ->).
  now apply core_eq_same.
Qed.

Create HintDb relay discriminated.
#[global] Hint Resolve core_eq_emit core_eq_send core_eq_broadcastToRoom
  core_eq_registerDevice core_eq_handlePoseData core_eq_handleSyncRequest
  : relay.

Lemma refs_core_eq st st' h r s : core_eq st st' -> refs st' h r s -> refs st h r s.
Proof. intros (R & _). unfold refs. now rewrite R. Qed.

(** *** Entries after a leave and after a join *)

Lemma refs_leaveRoom h0 st h r s :
  refs (leaveRoom h0 st) h r s -> refs st h r s.
Proof.
  leave_cases h0 st room T G; [|solve [auto]..].
  intros (room' & p & G' & I & P). simpl in G'. unfold left_rooms in G'.
  destruct (key_eq_dec (roomId (ws_of st h0)) r) as [<-|N].
  - destruct (Nat.eqb _ 0).
    + now rewrite map_get_delete_same in G'.
    + rewrite map_get_set_same in G'. injection G' as <-. simpl in I.
      apply In_map_delete in I. exists room, p. tauto.
  - exists room', p.
    destruct (Nat.eqb _ 0);
      rewrite ?map_get_delete_other, map_get_set_other in G' by assumption;
      auto.
Qed.

Lemma refs_leaveRoom_own h0 st h :
  truthy (roomId (ws_of st h0)) = true ->
  ~ refs (leaveRoom h0 st) h (roomId (ws_of st h0)) (sessionId (ws_of st h0)).
Proof.
  intros T (room' & p & G' & I & P).
  destruct (map_get (roomId (ws_of st h0)) (rooms st)) as [room|] eqn:G.
  - rewrite (leaveRoom_leaves _ _ _ T G) in G'. simpl in G'.
    unfold left_rooms in G'. destruct (Nat.eqb _ 0).
    + now rewrite map_get_delete_same in G'.
    + rewrite map_get_set_same in G'. injection G' as <-. simpl in I.
      apply In_map_delete in I. tauto.
  - rewrite leaveRoom_noop in G' by auto. congruence.
Qed.

Lemma refs_joined h0 r0 now st1 h r s :
  refs (joined h0 r0 now st1) h r s ->
  refs st1 h r s \/ (h = h0 /\ r = r0 /\ s = sessionId (ws_of st1 h0)).
Proof.
  intros (room' & p & G' & I & P). simpl in G'.
  destruct (key_eq_dec r0 r) as [<-|N].
  - rewrite map_get_set_same in G'. injection G' as <-.
    unfold joined_room in I. simpl in I.
    apply In_map_set in I. destruct I as [E|I].
    + injection E as -> ->. simpl in P. auto.
    + destruct (map_get r0 (rooms st1)) as [room|] eqn:G; [|contradiction].
      left. exists room, p. auto.
  - rewrite map_get_set_other in G' by assumption.
    left. exists room', p. auto.
Qed.

Lemma core_leaveRoom h0 st :
  length (sockets (leaveRoom h0 st)) = length (sockets st) /\
  forall h, sessionId (ws_of (leaveRoom h0 st) h) = sessionId (ws_of st h) /\
            deviceType (ws_of (leaveRoom h0 st) h) = deviceType (ws_of st h) /\
            readyState (ws_of (leaveRoom h0 st) h) = readyState (ws_of st h) /\
            (h <> h0 -> ws_of (leaveRoom h0 st) h = ws_of st h).
Proof.
  leave_cases h0 st room T G; [|solve [auto]..].
  split; [now rewrite length_update_ws|]. intro h.
  destruct (Nat.eq_dec h0 h) as [<-|N].
  - destruct (Nat.lt_ge_cases h0 (length (sockets st))) as [L|L].
    + rewrite ws_of_update_same by exact L. simpl. tauto.
    + unfold ws_of, update_ws. simpl.
      rewrite !nth_overflow; rewrite ?length_list_alter; auto.
  - rewrite ws_of_update_other by exact N. auto.
Qed.

Lemma roomId_leaveRoom_own h0 st :
  h0 < length (sockets st) ->
  truthy (roomId (ws_of st h0)) = true ->
  map_get (roomId (ws_of st h0)) (rooms st) <> None ->
  roomId (ws_of (leaveRoom h0 st) h0) = None.
Proof.
  intros L T G.
  destruct (map_get (roomId (ws_of st h0)) (rooms st)) as [room|] eqn:G';
    [|congruence].
  rewrite (leaveRoom_leaves _ _ _ T G').
  now rewrite ws_of_update_same by exact L.
Qed.

Lemma core_pre_leave h0 st :
  length (sockets (pre_leave h0 st)) = length (sockets st) /\
  forall h, sessionId (ws_of (pre_leave h0 st) h) = sessionId (ws_of st h) /\
            deviceType (ws_of (pre_leave h0 st) h) = deviceType (ws_of st h) /\
            readyState (ws_of (pre_leave h0 st) h) = readyState (ws_of st h) /\
            (h <> h0 -> ws_of (pre_leave h0 st) h = ws_of st h).
Proof.
  unfold pre_leave. destruct (truthy _); [apply core_leaveRoom|auto].
Qed.

Lemma refs_pre_leave h0 st h r s : refs (pre_leave h0 st) h r s -> refs st h r s.
Proof.
  unfold pre_leave. destruct (truthy _); [apply refs_leaveRoom|auto].
Qed.

Lemma core_joined h0 r0 now st1 :
  length (sockets (joined h0 r0 now st1)) = length (sockets st1) /\
  forall h, sessionId (ws_of (joined h0 r0 now st1) h) = sessionId (ws_of st1 h) /\
            deviceType (ws_of (joined h0 r0 now st1) h) = deviceType (ws_of st1 h) /\
            readyState (ws_of (joined h0 r0 now st1) h) = readyState (ws_of st1 h) /\
            (h <> h0 -> ws_of (joined h0 r0 now st1) h = ws_of st1 h).
Proof.
  unfold joined. split; [now rewrite length_update_ws|]. intro h.
  destruct (Nat.eq_dec h0 h) as [<-|N].
  - destruct (Nat.lt_ge_cases h0 (length (sockets st1))) as [L|L].
    + rewrite ws_of_update_same by exact L. simpl. tauto.
    + unfold ws_of, update_ws. simpl.
      rewrite !nth_overflow; rewrite ?length_list_alter; auto.
  - rewrite ws_of_update_other by exact N. auto.
Qed.

(** ** Entries are keyed by the session id of their connection *)

Definition keyed (st : Server) : Prop :=
  forall h r s, refs st h r s ->
    h < length (sockets st) /\ sessionId (ws_of st h) = s.

Lemma keyed_core_eq st st' : core_eq st st' -> keyed st -> keyed st'.
Proof.
  intros C K h r s R. destruct (K h r s (refs_core_eq _ _ _ _ _ C R)) as [L S].
  destruct C as (_ & E & W). destruct (W h) as (-> & _). split; [lia|assumption].
Qed.

Lemma keyed_leaveRoom h0 st : keyed st -> keyed (leaveRoom h0 st).
Proof.
  intros K h r s R. apply refs_leaveRoom in R. destruct (K h r s R) as [L S].
  destruct (core_leaveRoom h0 st) as (E & W). destruct (W h) as (-> & _).
  split; [lia|assumption].
Qed.

Lemma keyed_pre_leave h0 st : keyed st -> keyed (pre_leave h0 st).
Proof. unfold pre_leave. destruct (truthy _); auto using keyed_leaveRoom. Qed.

Lemma keyed_joinRoom h0 r0 now st :
  h0 < length (sockets st) -> keyed st -> keyed (Cloud.joinRoom h0 r0 now st).
Proof.
  intros L K. rewrite joinRoom_joined.
  eapply keyed_core_eq; [apply core_eq_emit|].
  apply keyed_pre_leave with (h0 := h0) in K.
  destruct (core_pre_leave h0 st) as (E1 & _).
  destruct (core_joined h0 r0 now (pre_leave h0 st)) as (E & W).
  intros h r s R. destruct (W h) as (-> & _). rewrite E.
  apply refs_joined in R. destruct R as [R|(-> & _ & ->)]; [exact (K h r s R)|].
  split; [lia|reflexivity].
Qed.

Lemma keyed_handleMessage h m now st :
  h < length (sockets st) -> keyed st -> keyed (Cloud.handleMessage h m now st).
Proof.
  intros L K. unfold Cloud.handleMessage, Cloud.sendRoomList, sendError.
  repeat match goal with |- context [if ?c then _ else _] => destruct c end;
    auto using keyed_joinRoom, keyed_leaveRoom;
    (eapply keyed_core_eq; [|exact K]); auto with relay.
Qed.

Lemma keyed_cleanup h st : keyed st -> keyed (Cloud.cleanup h st).
Proof.
  intro K. unfold Cloud.cleanup.
  eapply keyed_core_eq; [apply core_eq_same; reflexivity|].
  apply keyed_leaveRoom.
  eapply keyed_core_eq; [|exact K]. now apply core_eq_same.
Qed.

Lemma ws_of_connect st w h :
  h < length (sockets st) ->
  ws_of (with_sockets (sockets st ++ [w]) st) h = ws_of st h.
Proof. intro L. unfold ws_of. simpl. now rewrite app_nth1. Qed.

Lemma ws_of_connect_new st w :
  ws_of (with_sockets (sockets st ++ [w]) st) (length (sockets st)) = w.
Proof. unfold ws_of. simpl. rewrite app_nth2, Nat.sub_diag; auto. Qed.

Lemma keyed_connect st w c :
  keyed st -> keyed (with_connections c (with_sockets (sockets st ++ [w]) st)).
Proof.
  intros K h r s R. destruct (K h r s R) as [L S]. split.
  - simpl. rewrite length_app. simpl. lia.
  - unfold ws_of. simpl. rewrite app_nth1 by exact L. exact S.
Qed.

Lemma keyed_step st e : keyed st -> keyed (Cloud.step st e).
Proof.
  intro K. destruct e; simpl.
  - unfold Cloud.onConnection.
    eapply keyed_core_eq; [apply core_eq_send|].
    destruct (truthy roomIdParam); [|now apply keyed_connect].
    apply keyed_joinRoom; [|now apply keyed_connect].
    simpl. rewrite length_app. simpl. lia.
  - destruct (live h st) eqn:L; [|exact K]. apply live_lt in L.
    unfold Cloud.onMessage.
    destruct data; unfold sendError;
      try (eapply keyed_core_eq; [|exact K];
           eapply core_eq_trans; [|apply core_eq_send];
           now apply core_eq_same).
    apply keyed_handleMessage; [exact L|].
    eapply keyed_core_eq; [|exact K]. now apply core_eq_same.
  - destruct (live h st); [|exact K]. now apply keyed_cleanup.
  - destruct (live h st); [|exact K].
    intros h' r s R. destruct (K h' r s R) as [L S].
    rewrite length_update_ws. split; [exact L|].
    destruct (Nat.eq_dec h h') as [<-|N].
    + now rewrite ws_of_update_same by exact L.
    + now rewrite ws_of_update_other by exact N.
  - destruct (live h st); [|exact K]. apply keyed_cleanup.
    intros h' r s R. destruct (K h' r s R) as [L S].
    rewrite length_update_ws. split; [exact L|].
    destruct (Nat.eq_dec h h') as [<-|N].
    + now rewrite ws_of_update_same by exact L.
    + now rewrite ws_of_update_other by exact N.
  - eapply keyed_core_eq; [|exact K]. now apply core_eq_same.
Qed.

Lemma keyed_run es : forall st, keyed st -> keyed (Cloud.run st es).
Proof.
  induction es as [|e es IH]; intros st K; simpl; auto.
  apply IH. now apply keyed_step.
Qed.

Lemma keyed_init : keyed init.
Proof. intros h r s (room & p & G & _). discriminate. Qed.

(** ** The broadcast engine (C5) *)

(** The connections a broadcast writes to, in the order of the entries. *)
Definition recipients (r : option string) (excludeSession : option string)
    (st : Server) : list handle :=
  map (fun e : string * Participant => p_ws (snd e))
      (filter (eligible st excludeSession) (participant_set r st)).

Lemma deliveries_recipients r m ex st :
  deliveries r m ex st =
  (if map_has r (rooms st) then [Stringify m] else []) ++
  map (fun h => WsSend h (Json m)) (recipients r ex st).
Proof.
  unfold deliveries, recipients, participant_set, map_has.
  destruct (map_get r (rooms st)); [|reflexivity].
  simpl. now rewrite map_map.
Qed.

(** C5.  In any state the deployment server reaches, [broadcastToRoom]
    calls [JSON.stringify] once (when the room exists; without the room it
    does nothing at all), then writes that one string to the connection of
    each entry of the room that is open and whose key is not the excluded
    session id, and to no other: it never writes to a connection whose
    session id is the excluded one, and a participant whose connection is
    not open is passed over with nothing added to the log and no other
    change of the state. *)
Theorem C5_broadcast_delivery (es : list event) (r : option string)
    (m : envelope) (excludeSession : option string) :
  let st := Cloud.run init es in
  broadcastToRoom r m excludeSession st =
    emit ((if map_has r (rooms st) then [Stringify m] else []) ++
          map (fun h => WsSend h (Json m)) (recipients r excludeSession st)) st
  /\ (forall s p, In (s, p) (participant_set r st) ->
        Some s <> excludeSession -> is_open (p_ws p) st = true ->
        In (p_ws p) (recipients r excludeSession st))
  /\ (forall h, In h (recipients r excludeSession st) ->
        is_open h st = true /\
        Some (sessionId (ws_of st h)) <> excludeSession /\
        exists p, In (sessionId (ws_of st h), p) (participant_set r st) /\ p_ws p = h).
Proof.
  intro st.
  assert (K : keyed st) by (apply keyed_run, keyed_init).
  split; [|split].
  - rewrite broadcastToRoom_emit. now rewrite deliveries_recipients.
  - intros s p I N O. unfold recipients.
    apply in_map_iff. exists (s, p). split; [reflexivity|].
    apply filter_In. split; [exact I|]. unfold eligible. cbn [fst snd].
    rewrite O, andb_true_r. now rewrite key_eqb_neq by exact N.
  - intros h I. unfold recipients in I. apply in_map_iff in I.
    destruct I as ([s p] & <- & I). apply filter_In in I. destruct I as [I E].
    unfold eligible in E. cbn [fst snd] in *. apply andb_true_iff in E.
    destruct E as [E O].
    assert (S : sessionId (ws_of st (p_ws p)) = s).
    { unfold participant_set in I.
      destruct (map_get r (rooms st)) as [room|] eqn:G; [|contradiction].
      apply (K (p_ws p) r s). exists room, p. auto. }
    rewrite S. split; [exact O|]. split; [|eauto].
    intro Q. rewrite Q, key_eqb_refl in E. discriminate.
Qed.

Definition C5_trace : list event :=
  [Connection (Some "a") (Some "mobile") (Some "R") "i" "j" 1%Z;
   Connection (Some "b") (Some "vr") (Some "R") "i" "j" 2%Z;
   Connection (Some "c") (Some "desktop") (Some "R") "i" "j" 3%Z;
   WsClosing 2].

Lemma C5_broadcast_delivery_witness :
  In 1 (recipients (Some "R") (Some "a") (Cloud.run init C5_trace)) /\
  (is_open 1 (Cloud.run init C5_trace) = true /\
   Some (sessionId (ws_of (Cloud.run init C5_trace) 1)) <> Some "a" /\
   exists p,
     In (sessionId (ws_of (Cloud.run init C5_trace) 1), p)
        (participant_set (Some "R") (Cloud.run init C5_trace)) /\
     p_ws p = 1).
Proof.
  destruct (C5_broadcast_delivery C5_trace (Some "R") (Pong 9) (Some "a"))
    as (_ & B & C).
  assert (I : In 1 (recipients (Some "R") (Some "a") (Cloud.run init C5_trace))).
  { apply (B "b" {| p_ws := 1; p_deviceType := "vr"; joinedAt := 2 |}).
    - vm_compute. right. left. reflexivity.
    - discriminate.
    - vm_compute. reflexivity. }
  split; [exact I|]. exact (C 1 I).
Defined.

(** ** One room per session (C4) *)

(** The connection of an entry has the room of the entry as its [roomId],
    and that code is truthy. *)
Definition placed (st : Server) : Prop :=
  forall h r s, refs st h r s -> roomId (ws_of st h) = r /\ truthy r = true.

(** The connection of an entry has not been closed. *)
Definition alive (st : Server) : Prop :=
  forall h r s, refs st h r s -> live h st = true.

(** No two connections that are not closed have the same session id. *)
Definition unique_ids (st : Server) : Prop :=
  forall h1 h2, live h1 st = true -> live h2 st = true ->
    sessionId (ws_of st h1) = sessionId (ws_of st h2) -> h1 = h2.

Record Inv (st : Server) : Prop := {
  inv_keyed : keyed st;
  inv_placed : placed st;
  inv_alive : alive st;
  inv_unique : unique_ids st
}.

Lemma live_core st st' h :
  readyState (ws_of st' h) = readyState (ws_of st h) -> live h st' = live h st.
Proof. intro E. now rewrite !live_ws_of, E. Qed.

Lemma placed_core_eq st st' : core_eq st st' -> placed st -> placed st'.
Proof.
  intros C P h r s R. destruct (P h r s (refs_core_eq _ _ _ _ _ C R)) as [E T].
  destruct C as (_ & _ & W). destruct (W h) as (_ & -> & _). auto.
Qed.

Lemma alive_core_eq st st' : core_eq st st' -> alive st -> alive st'.
Proof.
  intros C A h r s R. pose proof (A h r s (refs_core_eq _ _ _ _ _ C R)) as L.
  destruct C as (_ & _ & W). destruct (W h) as (_ & _ & E).
  now rewrite (live_core _ _ _ E).
Qed.

Lemma unique_ids_core st st' :
  (forall h, sessionId (ws_of st' h) = sessionId (ws_of st h) /\
             readyState (ws_of st' h) = readyState (ws_of st h)) ->
  unique_ids st -> unique_ids st'.
Proof.
  intros W U h1 h2 L1 L2 E.
  destruct (W h1) as [S1 R1], (W h2) as [S2 R2].
  rewrite (live_core _ _ _ R1) in L1. rewrite (live_core _ _ _ R2) in L2.
  apply U; congruence.
Qed.

Lemma Inv_core_eq st st' : core_eq st st' -> Inv st -> Inv st'.
Proof.
  intros C [K P A U]. split.
  - eapply keyed_core_eq; eauto.
  - eapply placed_core_eq; eauto.
  - eapply alive_core_eq; eauto.
  - eapply unique_ids_core; [|exact U].
    intro h. destruct C as (_ & _ & W). destruct (W h) as (? & _ & ?). auto.
Qed.

(** Once [h0] has left, no entry holds it. *)
Lemma unreferenced_leaveRoom h0 st r s :
  keyed st -> placed st -> ~ refs (leaveRoom h0 st) h0 r s.
Proof.
  intros K P R.
  pose proof (refs_leaveRoom _ _ _ _ _ R) as R0.
  destruct (K _ _ _ R0) as [_ S]. destruct (P _ _ _ R0) as [E T].
  subst r s. revert R. apply refs_leaveRoom_own. exact T.
Qed.

Lemma unreferenced_pre_leave h0 st r s :
  keyed st -> placed st -> ~ refs (pre_leave h0 st) h0 r s.
Proof.
  intros K P. unfold pre_leave.
  destruct (truthy (roomId (ws_of st h0))) eqn:T;
    [now apply unreferenced_leaveRoom|].
  intro R. destruct (P _ _ _ R) as [E T']. congruence.
Qed.

Lemma placed_leaveRoom h0 st : keyed st -> placed st -> placed (leaveRoom h0 st).
Proof.
  intros K P h r s R.
  destruct (Nat.eq_dec h h0) as [->|N];
    [now apply unreferenced_leaveRoom in R|].
  destruct (core_leaveRoom h0 st) as (_ & W). destruct (W h) as (_ & _ & _ & ->);
    [|exact N].
  apply (P h r s). now apply refs_leaveRoom in R.
Qed.

Lemma alive_leaveRoom h0 st : alive st -> alive (leaveRoom h0 st).
Proof.
  intros A h r s R. apply refs_leaveRoom in R.
  destruct (core_leaveRoom h0 st) as (_ & W). destruct (W h) as (_ & _ & E & _).
  rewrite (live_core _ _ _ E). eauto.
Qed.

Lemma unique_ids_leaveRoom h0 st : unique_ids st -> unique_ids (leaveRoom h0 st).
Proof.
  apply unique_ids_core. intro h.
  destruct (core_leaveRoom h0 st) as (_ & W). destruct (W h) as (? & _ & ? & _).
  auto.
Qed.

Lemma Inv_leaveRoom h0 st : Inv st -> Inv (leaveRoom h0 st).
Proof.
  intros [K P A U]. split;
    auto using keyed_leaveRoom, placed_leaveRoom, alive_leaveRoom,
      unique_ids_leaveRoom.
Qed.

Lemma Inv_pre_leave h0 st : Inv st -> Inv (pre_leave h0 st).
Proof. unfold pre_leave. destruct (truthy _); auto using Inv_leaveRoom. Qed.

Lemma roomId_joined h0 r0 now st1 :
  h0 < length (sockets st1) -> roomId (ws_of (joined h0 r0 now st1) h0) = r0.
Proof. intro L. unfold joined. now rewrite ws_of_update_same by exact L. Qed.

Lemma Inv_joinRoom h0 r0 now st :
  live h0 st = true -> truthy r0 = true -> Inv st ->
  Inv (Cloud.joinRoom h0 r0 now st).
Proof.
  intros L T I. pose proof (live_lt _ _ L) as Lt.
  assert (K' : keyed (Cloud.joinRoom h0 r0 now st))
    by (apply keyed_joinRoom; [exact Lt|apply I]).
  revert K'. rewrite joinRoom_joined. intro K'.
  assert (N : forall r s, ~ refs (pre_leave h0 st) h0 r s)
    by (intros r s; apply unreferenced_pre_leave; apply I).
  destruct (core_pre_leave h0 st) as (E1 & W1).
  apply Inv_pre_leave with (h0 := h0) in I.
  set (st1 := pre_leave h0 st) in *.
  destruct (core_joined h0 r0 now st1) as (E & W).
  eapply Inv_core_eq; [apply core_eq_emit|].
  destruct I as [K P A U]. split.
  - eapply keyed_core_eq; [|exact K'].
    split; [reflexivity|]. split; [reflexivity|]. auto.
  - intros h r s R. apply refs_joined in R. destruct R as [R|(-> & -> & ->)].
    + destruct (Nat.eq_dec h h0) as [->|D]; [now apply N in R|].
      destruct (W h) as (_ & _ & _ & ->); [|exact D]. eauto.
    + split; [|exact T]. apply roomId_joined. lia.
  - intros h r s R. destruct (W h) as (_ & _ & Er & _).
    rewrite (live_core _ _ _ Er).
    apply refs_joined in R. destruct R as [R|(-> & -> & ->)]; [eauto|].
    destruct (W1 h0) as (_ & _ & Er1 & _). now rewrite (live_core _ _ _ Er1).
  - revert U. apply unique_ids_core. intro h.
    destruct (W h) as (? & _ & ? & _). auto.
Qed.

(** The events the amended property is about: a connection arrives with a
    session id no connection that is not closed has, and a [join_room]
    names a truthy room code. *)
Definition ok_event (st : Server) (e : event) : Prop :=
  match e with
  | Connection s _ _ id1 _ _ =>
      forall h, live h st = true -> sessionId (ws_of st h) <> or_else s id1
  | Message _ (JSONValue m) _ _ =>
      type_is m "join_room" = true -> truthy (msg_roomId m) = true
  | _ => True
  end.

Fixpoint ok_trace (st : Server) (es : list event) : Prop :=
  match es with
  | [] => True
  | e :: es' => ok_event st e /\ ok_trace (Cloud.step st e) es'
  end.

Lemma Inv_handleMessage h m now st :
  live h st = true ->
  (type_is m "join_room" = true -> truthy (msg_roomId m) = true) ->
  Inv st -> Inv (Cloud.handleMessage h m now st).
Proof.
  intros L O I. unfold Cloud.handleMessage, Cloud.sendRoomList, sendError.
  destruct (type_is m "join_room"); [now apply Inv_joinRoom; auto|].
  repeat match goal with |- context [if ?c then _ else _] => destruct c end;
    auto using Inv_leaveRoom;
    (eapply Inv_core_eq; [|exact I]); auto with relay.
Qed.

Lemma Inv_cleanup h st : Inv st -> Inv (Cloud.cleanup h st).
Proof.
  intro I. unfold Cloud.cleanup.
  eapply (Inv_core_eq (leaveRoom h _)); [now apply core_eq_same|].
  apply Inv_leaveRoom.
  eapply Inv_core_eq; [|exact I]. now apply core_eq_same.
Qed.

Lemma Inv_connect st w c :
  (forall h, live h st = true -> sessionId (ws_of st h) <> sessionId w) ->
  Inv st -> Inv (with_connections c (with_sockets (sockets st ++ [w]) st)).
Proof.
  intros F [K P A U].
  set (st' := with_connections c (with_sockets (sockets st ++ [w]) st)).
  assert (O : forall h, h < length (sockets st) -> ws_of st' h = ws_of st h)
    by (intros h Lh; unfold st', ws_of; simpl; now rewrite app_nth1).
  assert (Ln : forall h, live h st' = true ->
                 h < length (sockets st) \/ h = length (sockets st)).
  { intros h Lh. apply live_lt in Lh. unfold st' in Lh. simpl in Lh.
    rewrite length_app in Lh. simpl in Lh. lia. }
  split.
  - now apply keyed_connect.
  - intros h r s R. destruct (K h r s R) as [Lh _].
    rewrite (O h Lh). apply (P h r s R).
  - intros h r s R. destruct (K h r s R) as [Lh _].
    rewrite live_ws_of, (O h Lh), <- live_ws_of. eauto.
  - intros h1 h2 L1 L2 E.
    destruct (Ln _ L1) as [B1|B1], (Ln _ L2) as [B2|B2]; try congruence.
    + rewrite live_ws_of, (O _ B1), <- live_ws_of in L1.
      rewrite live_ws_of, (O _ B2), <- live_ws_of in L2.
      rewrite (O _ B1), (O _ B2) in E. auto.
    + exfalso. rewrite live_ws_of, (O _ B1), <- live_ws_of in L1.
      apply (F h1 L1). rewrite (O _ B1) in E. rewrite E. subst h2.
      unfold st', ws_of. simpl. rewrite app_nth2 by lia. now rewrite Nat.sub_diag.
    + exfalso. rewrite live_ws_of, (O _ B2), <- live_ws_of in L2.
      apply (F h2 L2). rewrite (O _ B2) in E. rewrite <- E. subst h1.
      unfold st', ws_of. simpl. rewrite app_nth2 by lia. now rewrite Nat.sub_diag.
Qed.

Lemma fields_set_readyState h c st h' :
  sessionId (ws_of (update_ws h (set_readyState c) st) h') = sessionId (ws_of st h') /\
  roomId (ws_of (update_ws h (set_readyState c) st) h') = roomId (ws_of st h').
Proof.
  destruct (Nat.eq_dec h h') as [<-|N].
  - destruct (Nat.lt_ge_cases h (length (sockets st))) as [L|L].
    + now rewrite ws_of_update_same by exact L.
    + unfold ws_of, update_ws. simpl.
      rewrite !nth_overflow; rewrite ?length_list_alter; auto.
  - now rewrite ws_of_update_other by exact N.
Qed.

Lemma live_set_readyState_other h c st h' :
  h <> h' -> live h' (update_ws h (set_readyState c) st) = live h' st.
Proof. intro N. now rewrite !live_ws_of, ws_of_update_other by exact N. Qed.

Lemma live_set_readyState_same h c st :
  h < length (sockets st) ->
  live h (update_ws h (set_readyState c) st) = negb (ReadyState_eqb c CLOSED).
Proof. intro L. now rewrite live_ws_of, ws_of_update_same by exact L. Qed.

Lemma Inv_closing h st :
  live h st = true -> Inv st -> Inv (update_ws h (set_readyState CLOSING) st).
Proof.
  intros L [K P A U]. pose proof (live_lt _ _ L) as Lt.
  set (st' := update_ws h (set_readyState CLOSING) st).
  assert (Lv : forall h', live h' st' = live h' st).
  { intro h'. unfold st'. destruct (Nat.eq_dec h h') as [<-|N].
    - rewrite live_set_readyState_same by exact Lt. now rewrite L.
    - now apply live_set_readyState_other. }
  split.
  - intros h' r s R. destruct (K h' r s R) as [Lh E]. unfold st'.
    rewrite length_update_ws. split; [exact Lh|].
    destruct (fields_set_readyState h CLOSING st h') as [-> _]. exact E.
  - intros h' r s R. unfold st'.
    destruct (fields_set_readyState h CLOSING st h') as [_ ->]. apply (P h' r s R).
  - intros h' r s R. rewrite Lv. apply (A h' r s R).
  - intros h1 h2 L1 L2 E. rewrite Lv in L1, L2. unfold st' in E.
    destruct (fields_set_readyState h CLOSING st h1) as [E1 _].
    destruct (fields_set_readyState h CLOSING st h2) as [E2 _].
    apply U; auto. congruence.
Qed.

Lemma Inv_close h st :
  live h st = true -> Inv st ->
  Inv (Cloud.cleanup h (update_ws h (set_readyState CLOSED) st)).
Proof.
  intros L [K P A U]. pose proof (live_lt _ _ L) as Lt.
  set (st' := update_ws h (set_readyState CLOSED) st).
  assert (K' : keyed st').
  { intros h' r s R. destruct (K h' r s R) as [Lh E]. unfold st'.
    rewrite length_update_ws. split; [exact Lh|].
    destruct (fields_set_readyState h CLOSED st h') as [-> _]. exact E. }
  assert (P' : placed st').
  { intros h' r s R. unfold st'.
    destruct (fields_set_readyState h CLOSED st h') as [_ ->]. apply (P h' r s R). }
  assert (U' : unique_ids st').
  { intros h1 h2 L1 L2 E. unfold st' in *.
    destruct (fields_set_readyState h CLOSED st h1) as [E1 _].
    destruct (fields_set_readyState h CLOSED st h2) as [E2 _].
    assert (N1 : h <> h1)
      by (intros <-; rewrite live_set_readyState_same in L1 by exact Lt;
          discriminate).
    assert (N2 : h <> h2)
      by (intros <-; rewrite live_set_readyState_same in L2 by exact Lt;
          discriminate).
    rewrite live_set_readyState_other in L1, L2 by assumption.
    apply U; auto. congruence. }
  unfold Cloud.cleanup.
  set (st2 := with_connections _ st').
  assert (C : core_eq st' st2) by now apply core_eq_same.
  eapply (Inv_core_eq (leaveRoom h st2)); [now apply core_eq_same|].
  pose proof (keyed_core_eq _ _ C K') as K2.
  pose proof (placed_core_eq _ _ C P') as P2.
  split.
  - now apply keyed_leaveRoom.
  - now apply placed_leaveRoom.
  - intros h' r s R.
    destruct (Nat.eq_dec h' h) as [->|N];
      [now apply unreferenced_leaveRoom in R|].
    apply refs_leaveRoom in R.
    destruct (core_leaveRoom h st2) as (_ & W). destruct (W h') as (_ & _ & E & _).
    rewrite (live_core _ _ _ E).
    change (live h' st' = true). unfold st'.
    rewrite live_set_readyState_other by congruence.
    apply (A h' r s). exact R.
  - apply unique_ids_leaveRoom. revert U'. apply unique_ids_core. auto.
Qed.

Lemma Inv_step st e : Inv st -> ok_event st e -> Inv (Cloud.step st e).
Proof.
  intros I O. destruct e; simpl in *.
  - unfold Cloud.onConnection.
    eapply Inv_core_eq; [apply core_eq_send|].
    set (w := new_socket _ _ _ _).
    set (st2 := with_connections _ _).
    assert (I2 : Inv st2) by (apply Inv_connect; [exact O|exact I]).
    destruct (truthy roomIdParam) eqn:T; [|exact I2].
    apply Inv_joinRoom; [|exact T|exact I2].
    rewrite live_ws_of. unfold st2, ws_of. simpl.
    rewrite app_nth2 by lia. now rewrite Nat.sub_diag.
  - destruct (live h st) eqn:L; [|exact I]. unfold Cloud.onMessage.
    destruct data; unfold sendError;
      try (eapply Inv_core_eq; [|exact I];
           eapply core_eq_trans; [|apply core_eq_send];
           now apply core_eq_same).
    apply Inv_handleMessage; [exact L|exact O|].
    eapply Inv_core_eq; [|exact I]. now apply core_eq_same.
  - destruct (live h st); [|exact I]. now apply Inv_cleanup.
  - destruct (live h st) eqn:L; [|exact I]. now apply Inv_closing.
  - destruct (live h st) eqn:L; [|exact I]. now apply Inv_close.
  - eapply Inv_core_eq; [|exact I]. now apply core_eq_same.
Qed.

Lemma Inv_run es : forall st, Inv st -> ok_trace st es -> Inv (Cloud.run st es).
Proof.
  induction es as [|e es IH]; intros st I O; simpl; auto.
  destruct O as [O1 O2]. apply IH; [|exact O2]. now apply Inv_step.
Qed.

Lemma Inv_init : Inv init.
Proof.
  split.
  - apply keyed_init.
  - intros h r s (room & p & G & _). discriminate.
  - intros h r s (room & p & G & _). discriminate.
  - intros h1 h2 L. unfold live, socket in L. simpl in L.
    destruct h1; discriminate.
Qed.

(** Session [s] is a participant of the room under code [r]. *)
Definition member (s : string) (r : option string) (st : Server) : bool :=
  map_has s (participant_set r st).

Lemma member_refs s r st :
  member s r st = true -> exists h, refs st h r s.
Proof.
  unfold member, participant_set. intro M. apply map_has_true in M.
  destruct M as [p G].
  destruct (map_get r (rooms st)) as [room|] eqn:E; [|discriminate].
  exists (p_ws p), room, p. repeat split; auto. now apply map_get_In.
Qed.

Lemma Inv_one_room st s r1 r2 :
  Inv st -> member s r1 st = true -> member s r2 st = true -> r1 = r2.
Proof.
  intros [K P A U] M1 M2.
  apply member_refs in M1, M2. destruct M1 as [h1 R1], M2 as [h2 R2].
  destruct (K _ _ _ R1) as [_ S1], (K _ _ _ R2) as [_ S2].
  destruct (P _ _ _ R1) as [E1 _], (P _ _ _ R2) as [E2 _].
  assert (h1 = h2) by (apply U; eauto; congruence).
  congruence.
Qed.

Lemma member_joinRoom h b now st :
  member (sessionId (ws_of st h)) b (Cloud.joinRoom h b now st) = true.
Proof.
  rewrite joinRoom_joined. unfold member, participant_set. simpl.
  rewrite map_get_set_same. unfold joined_room. simpl.
  destruct (sessionId_pre_leave h st) as [-> _].
  apply map_has_true. eexists. apply map_get_set_same.
Qed.

Lemma participant_set_joinRoom_other h b now st a :
  a <> b ->
  map_get a (rooms (Cloud.joinRoom h b now st)) = map_get a (rooms (pre_leave h st)).
Proof.
  intro N. rewrite joinRoom_joined. simpl.
  now rewrite map_get_set_other by congruence.
Qed.

Lemma length_zero_nil {A} (l : list A) : Nat.eqb (length l) 0 = true <-> l = [].
Proof. destruct l; simpl; split; congruence. Qed.

(** C4, as amended.  As long as every connection arrives with a session id
    that no connection still open or closing has, and every [join_room]
    names a non-empty room code: a session is a participant of at most one
    room after any sequence of events; and a join of room [b] by a
    connection whose room is [a] leaves the session a participant of [b]
    and of no other room, with the session taken out of [a] and [a] removed
    from the directory exactly when that empties it. *)
Theorem C4_one_room_per_session (es : list event) :
  ok_trace init es ->
  let st := Cloud.run init es in
  (forall s r1 r2, member s r1 st = true -> member s r2 st = true -> r1 = r2)
  /\ (forall h b now,
        live h st = true -> truthy b = true ->
        let s := sessionId (ws_of st h) in
        let a := roomId (ws_of st h) in
        let st' := Cloud.joinRoom h b now st in
        (forall r, member s r st' = true <-> r = b)
        /\ (truthy a = true -> a <> b ->
              participant_set a st' = map_delete s (participant_set a st) /\
              (map_has a (rooms st') = true <->
               map_delete s (participant_set a st) <> []))).
Proof.
  intros O st.
  assert (I : Inv st) by (apply Inv_run; [apply Inv_init|exact O]).
  split; [intros s r1 r2; now apply Inv_one_room|].
  intros h b now L T s a st'. split.
  - intro r. split.
    + intro M. apply (Inv_one_room st' s); auto.
      * now apply Inv_joinRoom.
      * apply member_joinRoom.
    + intros ->. apply member_joinRoom.
  - intros Ta N. unfold participant_set, map_has, st'.
    rewrite participant_set_joinRoom_other by exact N.
    unfold pre_leave. fold a. rewrite Ta.
    destruct (map_get a (rooms st)) as [room|] eqn:G.
    + rewrite (leaveRoom_leaves _ _ _ Ta G). simpl.
      unfold left_rooms, left_participants. fold a. fold s.
      destruct (Nat.eqb (map_size (map_delete s (participants room))) 0) eqn:Z.
      * rewrite map_get_delete_same. apply length_zero_nil in Z. rewrite Z.
        split; [reflexivity|]. split; congruence.
      * rewrite map_get_set_same. simpl. split; [reflexivity|].
        split; [|reflexivity]. intros _ Q. unfold map_size in Z.
        rewrite Q in Z. discriminate.
    + rewrite leaveRoom_noop by auto. rewrite G. simpl.
      split; [reflexivity|]. split; congruence.
Qed.

Definition C4_trace : list event :=
  [Connection (Some "a") (Some "mobile") None "i" "j" 1%Z;
   Connection (Some "b") (Some "vr") (Some "A") "i" "j" 2%Z;
   Message 0 (join_room "A") "k" 3%Z].

Lemma C4_one_room_per_session_witness :
  member "a" (Some "A") (Cloud.run init C4_trace) = true /\
  member "a" (Some "B")
    (Cloud.joinRoom 0 (Some "B") 4%Z (Cloud.run init C4_trace)) = true /\
  participant_set (Some "A")
    (Cloud.joinRoom 0 (Some "B") 4%Z (Cloud.run init C4_trace)) =
  map_delete "a" (participant_set (Some "A") (Cloud.run init C4_trace)).
Proof.
  assert (O : ok_trace init C4_trace).
  { simpl. repeat split; try reflexivity.
    - intros h L. destruct h; discriminate.
    - intros h L. destruct h as [|h]; [vm_compute; congruence|].
      destruct h; discriminate. }
  pose proof (C4_one_room_per_session C4_trace O) as C.
  cbv zeta in C. destruct C as [_ C].
  destruct (C 0 (Some "B") 4%Z eq_refl eq_refl) as [C1 C2].
  split; [reflexivity|]. split.
  - apply C1. reflexivity.
  - apply C2; [reflexivity|discriminate].
Defined.

(** C4 as stated fails: two connections that arrive with the same session
    id keep it, and after one joins room A and the other room B the session
    is a participant of both. *)
Lemma C4_counterexample :
  let st := Cloud.run init
              [Connection (Some "s") (Some "mobile") None "i" "j" 1%Z;
               Connection (Some "s") (Some "vr") None "i" "j" 2%Z;
               Message 0 (join_room "A") "k" 3%Z;
               Message 1 (join_room "B") "k" 4%Z] in
  member "s" (Some "A") st = true /\ member "s" (Some "B") st = true /\
  Some "A" <> Some "B".
Proof. vm_compute. repeat split; congruence. Qed.

(** The same happens to a single connection when the room it is in has the
    empty code: [joinRoom] tests [ws.roomId] for truthiness, takes the
    connection for one that is in no room, and leaves it in both. *)
Lemma empty_room_code_is_not_left :
  let st := Cloud.run init
              [Connection (Some "s") (Some "mobile") None "i" "j" 1%Z;
               Message 0 (join_room "") "k" 2%Z;
               Message 0 (join_room "B") "k" 3%Z] in
  member "s" (Some "") st = true /\ member "s" (Some "B") st = true.
Proof. vm_compute. split; reflexivity. Qed.

(** ** Joining the room one is alone in (C10) *)

Lemma map_delete_set {K V} `{Key K} (k : K) (v : V) (m : omap K V) :
  map_delete k (map_set k v m) = map_delete k m.
Proof.
  induction m as [|[k1 v1] m IH]; simpl.
  - now rewrite key_eqb_refl.
  - destruct (key_eqb k k1) eqn:E; simpl.
    + now rewrite key_eqb_refl.
    + now rewrite E, IH.
Qed.

Lemma map_set_get_same {K V} `{Key K} (k : K) (v : V) (m : omap K V) :
  map_get k m = Some v -> map_set k v m = m.
Proof.
  induction m as [|[k1 v1] m IH]; simpl; [discriminate|].
  destruct (key_eqb k k1) eqn:E.
  - apply key_eqb_eq in E. subst k1. now intros [= ->].
  - intro G. now rewrite IH.
Qed.

(** C10.  When a connection whose room is [R] (a non-empty code) is the
    only participant of [R] and joins [R] again, the leave inside
    [joinRoom] removes [R] from the directory and the join creates it anew:
    whatever the creation time of the old room was, the new room has the
    time of this join as [created], which is what [room_joined] reports,
    and its participant list starts over with the one entry of this join.
    Nobody but the joiner is written to. *)
Theorem C10_rejoin_recreates_room (st : Server) (h : handle) (room : Room)
    (p : Participant) (now : Z) :
  let ws := ws_of st h in
  let R := roomId ws in
  live h st = true ->
  truthy R = true ->
  map_get R (rooms st) = Some room ->
  participants room = [(sessionId ws, p)] ->
  let st' := Cloud.joinRoom h R now st in
  let reply := RoomJoined R [] now in
  map_has R (rooms (leaveRoom h st)) = false
  /\ map_get R (rooms st') =
       Some {| id := R; created := now;
               participants :=
                 [(sessionId ws,
                   {| p_ws := h; p_deviceType := deviceType ws; joinedAt := now |})] |}
  /\ out st' =
       out st ++
       [Stringify (ParticipantLeft (sessionId ws) (deviceType ws))] ++
       (if is_open h st then [Stringify reply; WsSend h (Json reply)] else []) ++
       [Stringify (ParticipantJoined (sessionId ws) (deviceType ws) now)].
Proof.
  intros ws R Lv T G P st' reply. pose proof (live_lt _ _ Lv) as L.
  assert (E1 : leaveRoom h st =
               update_ws h (set_roomId None)
                 (with_rooms (map_delete R (rooms st))
                    (emit [Stringify (ParticipantLeft (sessionId ws) (deviceType ws))]
                          st))).
  { rewrite (leaveRoom_leaves _ _ _ T G).
    unfold left_rooms, left_effects, left_participants, deliveries.
    fold ws. fold R. rewrite P. simpl. rewrite String.eqb_refl. simpl.
    rewrite map_get_set_same. simpl. now rewrite map_delete_set. }
  assert (W1 : ws_of (leaveRoom h st) h = set_roomId None ws).
  { rewrite E1. now rewrite ws_of_update_same by exact L. }
  assert (G1 : map_get R (rooms (leaveRoom h st)) = None).
  { rewrite E1. simpl. apply map_get_delete_same. }
  split; [now apply map_has_false|].
  unfold st'. rewrite joinRoom_joined. unfold pre_leave. fold ws. fold R. rewrite T.
  set (st1 := leaveRoom h st) in *.
  assert (J : joined_room h R now st1 =
              {| id := R; created := now;
                 participants :=
                   [(sessionId ws,
                     {| p_ws := h; p_deviceType := deviceType ws;
                        joinedAt := now |})] |}).
  { unfold joined_room. rewrite G1, W1. reflexivity. }
  assert (L1 : h < length (sockets st1))
    by (destruct (core_leaveRoom h st) as [EL _]; fold st1 in EL; lia).
  assert (WJ : ws_of (joined h R now st1) h = set_roomId R (set_roomId None ws)).
  { unfold joined. rewrite ws_of_update_same by (simpl; exact L1).
    change (ws_of (with_rooms _ st1) h) with (ws_of st1 h). now rewrite W1. }
  split.
  - simpl. now rewrite map_get_set_same, J.
  - simpl. unfold join_effects, room_joined_envelope, deliveries, participant_infos.
    assert (GJ : map_get R (rooms (joined h R now st1)) =
                 Some (joined_room h R now st1))
      by (simpl; apply map_get_set_same).
    rewrite GJ, J. cbn [participants map filter snd pi_sessionId created p_ws].
    rewrite WJ. rewrite W1. cbn [sessionId set_roomId deviceType].
    unfold eligible. cbn [fst snd]. rewrite !key_eqb_refl. cbn [negb andb map].
    rewrite String.eqb_refl. cbn [negb].
    assert (O : is_open h (joined h R now st1) = is_open h st)
      by (unfold is_open; now rewrite WJ).
    rewrite O. rewrite E1. simpl. rewrite <- !app_assoc. reflexivity.
Qed.

Lemma C10_rejoin_recreates_room_witness :
  let st := Cloud.run init
              [Connection (Some "a") (Some "mobile") (Some "R") "i" "j" 1%Z] in
  map_get (Some "R") (rooms st) =
    Some {| id := Some "R"; created := 1;
            participants :=
              [("a", {| p_ws := 0; p_deviceType := "mobile"; joinedAt := 1 |})] |}
  /\ map_get (Some "R") (rooms (Cloud.joinRoom 0 (Some "R") 7%Z st)) =
       Some {| id := Some "R"; created := 7;
               participants :=
                 [("a", {| p_ws := 0; p_deviceType := "mobile"; joinedAt := 7 |})] |}.
Proof.
  split; [reflexivity|].
  exact (proj1 (proj2
    (C10_rejoin_recreates_room
       (Cloud.run init
          [Connection (Some "a") (Some "mobile") (Some "R") "i" "j" 1%Z])
       0
       {| id := Some "R"; created := 1;
          participants :=
            [("a", {| p_ws := 0; p_deviceType := "mobile"; joinedAt := 1 |})] |}
       {| p_ws := 0; p_deviceType := "mobile"; joinedAt := 1 |}
       7%Z eq_refl eq_refl eq_refl eq_refl))).
Defined.

(** ** The rate limiter (C3) *)

(** The envelope [handlePoseData] of the deployment server broadcasts. *)
Definition pose_envelope (ws : WebSocket) (m : message) (now : Z) : envelope :=
  PoseData (sessionId ws) (deviceType ws) now (landmarks m) (metadata m) now
           (option_map (fun t => now - t)%Z (msg_timestamp m)).

(** What the broadcast of an admitted [pose_data] message, received from
    [h] at the time given with it, adds to the log. *)
Definition relay (h : handle) (st : Server) (e : message * Z) : list effect :=
  let ws := ws_of st h in
  if truthy (roomId ws)
  then deliveries (roomId ws) (pose_envelope ws (fst e) (snd e))
                  (Some (sessionId ws)) st
  else [].

(** The counter of the session after one more [pose_data] at [now]. *)
Definition next_limit (sid : string) (now : Z) (st : Server) : Limit :=
  let l0 := match map_get sid (poseDataLimits st) with
            | Some l => l
            | None => {| count := 0; resetTime := now + 1000 |}
            end in
  let l1 := if (now >? resetTime l0)%Z
            then {| count := 0; resetTime := now + 1000 |} else l0 in
  {| count := count l1 + 1; resetTime := resetTime l1 |}.

Lemma type_is_eq m t : type_is m t = true -> msg_type m = Some t.
Proof.
  unfold type_is. destruct (msg_type m); [|discriminate].
  intro E. apply String.eqb_eq in E. now subst.
Qed.

Lemma onMessage_pose_data h m now st :
  type_is m "pose_data" = true ->
  Cloud.onMessage h (JSONValue m) now st =
  let sid := sessionId (ws_of st h) in
  emit (if (count (next_limit sid now st) >? 30)%Z then [] else relay h st (m, now))
    (with_poseDataLimits
       (map_set sid (next_limit sid now st) (poseDataLimits st))
       (with_messageCount (messageCount st + 1) st)).
Proof.
  intro E. apply type_is_eq in E.
  unfold Cloud.onMessage, Cloud.handleMessage, type_is. rewrite E. simpl.
  unfold Cloud.handlePoseData, relay, next_limit. simpl.
  destruct (_ >? 30)%Z; [now rewrite emit_nil|].
  destruct (truthy _); [|now rewrite emit_nil].
  now rewrite broadcastToRoom_emit.
Qed.

Definition pose_events (h : handle) (ms : list (message * Z)) : list event :=
  map (fun e => Message h (JSONValue (fst e)) "" (snd e)) ms.

(** A window that is open, with [c] messages counted so far: the next
    messages are admitted until the counter has reached 30. *)
Lemma pose_burst_in_window h : forall ms st c T,
  live h st = true ->
  map_get (sessionId (ws_of st h)) (poseDataLimits st) =
    Some {| count := c; resetTime := T |} ->
  (0 <= c)%Z ->
  (forall e, In e ms -> type_is (fst e) "pose_data" = true /\ (snd e <= T)%Z) ->
  let st' := Cloud.run st (pose_events h ms) in
  out st' = out st ++ flat_map (relay h st) (firstn (Z.to_nat (30 - c)) ms)
  /\ poseDataLimits st' =
       map_set (sessionId (ws_of st h))
         {| count := c + Z.of_nat (length ms); resetTime := T |} (poseDataLimits st)
  /\ messageCount st' = (messageCount st + Z.of_nat (length ms))%Z
  /\ rooms st' = rooms st /\ sockets st' = sockets st
  /\ connections st' = connections st /\ deviceMetrics st' = deviceMetrics st.
Proof.
  induction ms as [|[m t] ms IH]; intros st c T L G C A; cbn zeta.
  - simpl. rewrite firstn_nil, app_nil_r, Z.add_0_r. repeat split; auto.
    + symmetry. now apply map_set_get_same.
    + lia.
  - destruct (A (m, t) (or_introl eq_refl)) as [Ty Le]. simpl in Ty, Le.
    change (Cloud.run st (pose_events h ((m, t) :: ms)))
      with (Cloud.run (Cloud.step st (Message h (JSONValue m) "" t))
                      (pose_events h ms)).
    cbn [Cloud.step]. rewrite L.
    rewrite (onMessage_pose_data _ _ _ _ Ty). cbn zeta.
    set (sid := sessionId (ws_of st h)) in *.
    assert (N : next_limit sid t st = {| count := c + 1; resetTime := T |}).
    { unfold next_limit. rewrite G. simpl.
      destruct (t >? T)%Z eqn:Q; [lia|reflexivity]. }
    rewrite N. cbn [count].
    set (st2 := emit _ _).
    assert (R2 : forall e, relay h st2 e = relay h st e) by reflexivity.
    specialize (IH st2 (c + 1)%Z T).
    destruct IH as (O & Lm & Mc & Rm & Sk & Cn & Dm).
    + exact L.
    + unfold st2. cbn [poseDataLimits emit with_poseDataLimits].
      change (ws_of _ h) with (ws_of st h). fold sid.
      apply map_get_set_same.
    + lia.
    + intros e I. apply A. now right.
    + rewrite O, Lm, Mc, Rm, Sk, Cn, Dm. unfold st2.
      cbn [out emit poseDataLimits with_poseDataLimits with_messageCount
           messageCount rooms sockets connections deviceMetrics].
      change (ws_of _ h) with (ws_of st h). fold sid.
      rewrite map_set_set. repeat split; auto.
      * rewrite <- app_assoc. f_equal.
        rewrite (flat_map_ext _ _ R2).
        destruct (c + 1 >? 30)%Z eqn:Q.
        -- replace (Z.to_nat (30 - c)) with 0 by lia.
           replace (Z.to_nat (30 - (c + 1))) with 0 by lia. reflexivity.
        -- replace (Z.to_nat (30 - c)) with (S (Z.to_nat (30 - (c + 1)))) by lia.
           reflexivity.
      * do 2 f_equal. cbn [length]. rewrite Nat2Z.inj_succ. lia.
      * cbn [length]. rewrite Nat2Z.inj_succ. lia.
Qed.

(** The session has no window open at [t0]: it has no counter, or the reset
    time of its counter has passed. *)
Definition window_opens (sid : string) (t0 : Z) (st : Server) : Prop :=
  match map_get sid (poseDataLimits st) with
  | None => True
  | Some l => (t0 > resetTime l)%Z
  end.

(** A burst.  Take a [pose_data] message that opens a window at [t0] and
    any number of further [pose_data] messages of the same connection,
    handled one after the other with nothing in between, up to the reset
    time [t0 + 1000] of that window.  The deployment server broadcasts the
    first 30 of them, each to the room of the sender without the sender, and
    adds nothing to its log for any of the others.  Only the counter of the
    session and the count of received messages record them. *)
Lemma pose_burst_first_30 (st : Server) (h : handle) (m0 : message)
    (t0 : Z) (ms : list (message * Z)) :
  let sid := sessionId (ws_of st h) in
  live h st = true ->
  window_opens sid t0 st ->
  type_is m0 "pose_data" = true ->
  (forall e, In e ms ->
     type_is (fst e) "pose_data" = true /\ (snd e <= t0 + 1000)%Z) ->
  let burst := (m0, t0) :: ms in
  let st' := Cloud.run st (pose_events h burst) in
  out st' = out st ++ flat_map (relay h st) (firstn 30 burst)
  /\ poseDataLimits st' =
       map_set sid {| count := Z.of_nat (length burst); resetTime := t0 + 1000 |}
               (poseDataLimits st)
  /\ messageCount st' = (messageCount st + Z.of_nat (length burst))%Z
  /\ rooms st' = rooms st /\ sockets st' = sockets st
  /\ connections st' = connections st.
Proof.
  intros sid L W Ty A burst st'. unfold st', burst.
  change (Cloud.run st (pose_events h ((m0, t0) :: ms)))
    with (Cloud.run (Cloud.step st (Message h (JSONValue m0) "" t0))
                    (pose_events h ms)).
  cbn [Cloud.step]. rewrite L. rewrite (onMessage_pose_data _ _ _ _ Ty).
  cbn zeta. fold sid.
  assert (N : next_limit sid t0 st = {| count := 1; resetTime := t0 + 1000 |}).
  { unfold next_limit, window_opens in *.
    destruct (map_get sid (poseDataLimits st)) as [l|]; cbn [resetTime].
    - destruct (t0 >? resetTime l)%Z eqn:Q; [reflexivity|lia].
    - destruct (t0 >? t0 + 1000)%Z eqn:Q; [lia|reflexivity]. }
  rewrite N. cbn [count]. change (1 >? 30)%Z with false. cbv iota.
  set (st2 := emit _ _).
  assert (R2 : forall e, relay h st2 e = relay h st e) by reflexivity.
  destruct (pose_burst_in_window h ms st2 1%Z (t0 + 1000)%Z)
    as (O & Lm & Mc & Rm & Sk & Cn & _).
  - exact L.
  - unfold st2. cbn [poseDataLimits emit with_poseDataLimits].
    change (ws_of _ h) with (ws_of st h). fold sid. apply map_get_set_same.
  - lia.
  - exact A.
  - rewrite O, Lm, Mc, Rm, Sk, Cn. unfold st2.
    cbn [out emit poseDataLimits with_poseDataLimits with_messageCount
         messageCount rooms sockets connections].
    change (ws_of _ h) with (ws_of st h). fold sid.
    rewrite map_set_set. repeat split; auto.
    + rewrite <- app_assoc. rewrite (flat_map_ext _ _ R2). reflexivity.
    + do 2 f_equal. cbn [length]. rewrite Nat2Z.inj_succ. lia.
    + cbn [length]. rewrite Nat2Z.inj_succ. lia.
Qed.

Definition C3_state : Server :=
  Cloud.run init
    [Connection (Some "a") (Some "mobile") (Some "R") "i" "j" 1%Z;
     Connection (Some "b") (Some "vr") (Some "R") "i" "j" 2%Z].

Definition C3_frame : message :=
  {| msg_type := Some "pose_data"; msg_roomId := None; msg_timestamp := Some 9%Z;
     landmarks := Some "[]"; metadata := None; msg_capabilities := None;
     msg_deviceInfo := None; targetSession := None |}.

(** The development server has no such limit: every [pose_data] message of
    a connection that is in a room is broadcast. *)
Lemma Local_handlePoseData_unlimited h m now st :
  truthy (roomId (ws_of st h)) = true ->
  exists e,
    out (Local.handlePoseData h m now st) =
    out st ++ deliveries (roomId (ws_of st h)) e (Some (sessionId (ws_of st h))) st.
Proof.
  intro T. unfold Local.handlePoseData. rewrite T.
  rewrite broadcastToRoom_emit. eexists. reflexivity.
Qed.

(** *** The window of a session, with other events in between (C3) *)

Lemma poseDataLimits_leaveRoom h st :
  poseDataLimits (leaveRoom h st) = poseDataLimits st.
Proof. leave_cases h st room T G; reflexivity. Qed.

Lemma poseDataLimits_joinRoom h r now st :
  poseDataLimits (Cloud.joinRoom h r now st) = poseDataLimits st.
Proof.
  rewrite joinRoom_joined. simpl. unfold pre_leave.
  destruct (truthy _); [apply poseDataLimits_leaveRoom|reflexivity].
Qed.

Lemma poseDataLimits_send h m st : poseDataLimits (send h m st) = poseDataLimits st.
Proof. now rewrite send_emit. Qed.

Lemma poseDataLimits_handleMessage_other h m now st :
  type_is m "pose_data" = false ->
  poseDataLimits (Cloud.handleMessage h m now st) = poseDataLimits st.
Proof.
  intro F. unfold Cloud.handleMessage, Cloud.sendRoomList, sendError, registerDevice.
  rewrite F.
  repeat match goal with |- context [if ?c then _ else _] => destruct c end;
    rewrite ?poseDataLimits_joinRoom, ?poseDataLimits_leaveRoom,
      ?poseDataLimits_send; try reflexivity.
  destruct (handleSyncRequest_shape h m now st) as (l & ->). reflexivity.
Qed.

Lemma map_get_filter_kept {K V} `{Key K} (f : K * V -> bool) (k : K) (v : V)
    (m : omap K V) :
  map_get k m = Some v -> f (k, v) = true -> map_get k (filter f m) = Some v.
Proof.
  intros G F. induction m as [|[k1 v1] m IH]; simpl in *; [discriminate|].
  destruct (key_eqb k k1) eqn:E.
  - apply key_eqb_eq in E. subst k1. injection G as ->. rewrite F. simpl.
    now rewrite key_eqb_refl.
  - destruct (f (k1, v1)); simpl; [rewrite E|]; auto.
Qed.

(** The event is a [pose_data] message the server takes from a connection
    that carries the session id [s]. *)
Definition pose_of (s : string) (st : Server) (e : event) : bool :=
  match e with
  | Message h (JSONValue m) _ _ =>
      live h st && type_is m "pose_data" && String.eqb (sessionId (ws_of st h)) s
  | _ => false
  end.

(** How many of them there are among the events [es], handled from [st]
    on. *)
Fixpoint poses (s : string) (st : Server) (es : list event) : nat :=
  match es with
  | [] => 0
  | e :: es' => (if pose_of s st e then 1 else 0) + poses s (Cloud.step st e) es'
  end.

(** An event that the window of [s] with reset time [T] outlasts: it is
    handled no later than [T], and it is not the error or the close of a
    connection that carries [s], whose [cleanup] deletes the counter. *)
Definition in_window (s : string) (T : Z) (st : Server) (e : event) : bool :=
  match e with
  | Connection _ _ _ _ _ now | Message _ _ _ now | Sweep now => (now <=? T)%Z
  | WsError h | WsClose h =>
      negb (live h st && String.eqb (sessionId (ws_of st h)) s)
  | WsClosing _ => true
  end.

Fixpoint window (s : string) (T : Z) (st : Server) (es : list event) : bool :=
  match es with
  | [] => true
  | e :: es' => in_window s T st e && window s T (Cloud.step st e) es'
  end.

Lemma counter_step s T c st e :
  map_get s (poseDataLimits st) = Some {| count := c; resetTime := T |} ->
  in_window s T st e = true ->
  map_get s (poseDataLimits (Cloud.step st e)) =
  Some {| count := c + Z.of_nat (if pose_of s st e then 1 else 0);
          resetTime := T |}.
Proof.
  intros G W.
  assert (Same : forall st', poseDataLimits st' = poseDataLimits st ->
            map_get s (poseDataLimits st') =
            Some {| count := c + Z.of_nat 0; resetTime := T |})
    by (intros st' E; rewrite E, G; simpl; now rewrite Z.add_0_r).
  assert (Gone : forall h x,
            poseDataLimits x = poseDataLimits st ->
            sessionId (ws_of x h) = sessionId (ws_of st h) ->
            negb (true && String.eqb (sessionId (ws_of st h)) s) = true ->
            map_get s (poseDataLimits (Cloud.cleanup h x)) =
            Some {| count := c + Z.of_nat 0; resetTime := T |}).
  { intros h x E S N. unfold Cloud.cleanup.
    cbn [poseDataLimits with_poseDataLimits]. rewrite poseDataLimits_leaveRoom.
    cbn [poseDataLimits with_connections]. rewrite E, S.
    rewrite map_get_delete_other; [rewrite G; simpl; now rewrite Z.add_0_r|].
    intro Q. rewrite Q, String.eqb_refl in N. discriminate. }
  destruct e; cbn [in_window pose_of Cloud.step] in *.
  - apply Same. unfold Cloud.onConnection. rewrite poseDataLimits_send.
    destruct (truthy roomIdParam); [now rewrite poseDataLimits_joinRoom|reflexivity].
  - apply Z.leb_le in W.
    destruct data as [| |m];
      try (apply Same; destruct (live h st); [|reflexivity];
           unfold Cloud.onMessage, sendError; now rewrite poseDataLimits_send).
    destruct (live h st) eqn:L; cbn [andb]; [|now apply Same].
    destruct (type_is m "pose_data") eqn:Ty; cbn [andb].
    + rewrite (onMessage_pose_data _ _ _ _ Ty). cbn zeta.
      cbn [poseDataLimits emit with_poseDataLimits].
      destruct (String.eqb (sessionId (ws_of st h)) s) eqn:Q.
      * apply String.eqb_eq in Q. rewrite Q, map_get_set_same.
        unfold next_limit. rewrite G. cbn [resetTime count].
        replace (now >? T)%Z with false by lia. reflexivity.
      * apply String.eqb_neq in Q. rewrite map_get_set_other by exact Q.
        rewrite G. simpl. now rewrite Z.add_0_r.
    + apply Same. unfold Cloud.onMessage.
      now rewrite poseDataLimits_handleMessage_other.
  - destruct (live h st) eqn:L; [|now apply Same]. now apply Gone.
  - destruct (live h st); now apply Same.
  - destruct (live h st) eqn:L; [|now apply Same].
    apply Gone; [reflexivity| |exact W].
    apply (fields_set_readyState h CLOSED st h).
  - apply Z.leb_le in W. cbn [Cloud.sweep poseDataLimits with_poseDataLimits].
    rewrite (map_get_filter_kept _ _ _ _ G); [simpl; now rewrite Z.add_0_r|].
    cbn [snd resetTime]. replace (now >? T + 60000)%Z with false by lia.
    reflexivity.
Qed.

(** In its window the counter of [s] counts the [pose_data] messages taken
    from the connections that carry [s], whatever else is handled. *)
Lemma counter_in_window s T es : forall c st,
  map_get s (poseDataLimits st) = Some {| count := c; resetTime := T |} ->
  window s T st es = true ->
  map_get s (poseDataLimits (Cloud.run st es)) =
  Some {| count := c + Z.of_nat (poses s st es); resetTime := T |}.
Proof.
  induction es as [|e es IH]; intros c st G W; cbn [window poses Cloud.run fold_left] in *.
  - rewrite G. simpl. now rewrite Z.add_0_r.
  - apply andb_true_iff in W. destruct W as [W1 W2].
    pose proof (counter_step _ _ _ _ _ G W1) as G1.
    change (fold_left Cloud.step es (Cloud.step st e))
      with (Cloud.run (Cloud.step st e) es).
    rewrite (IH _ _ G1 W2). do 2 f_equal.
    rewrite Nat2Z.inj_add. symmetry. apply Z.add_assoc.
Qed.

(** C3, as amended.  On the deployment server, let a [pose_data] message
    of a connection that carries the session id [s] open a window at [t0]:
    [s] has no counter then, or its reset time has passed.  That message is
    broadcast, and the counter of [s] is 1 with reset time [t0 + 1000].
    Let any events [es] follow that are handled no later than the reset
    time, none of them the error or the close of a connection that carries
    [s].  Then a further [pose_data] message that comes from a connection
    carrying [s] no later than the reset time is the [k]-th of the window,
    [k] counting the [pose_data] messages taken from such connections since
    the window opened: it is broadcast to the room of its sender, without
    the sender, when [k <= 30], and adds nothing to the log (no send to
    anybody, no error) when [k > 30]; it changes the counter of [s] and the
    count of received messages, and nothing else.  The development server
    counts nothing: it broadcasts every [pose_data] message of a connection
    that is in a room. *)
Theorem C3_first_30_per_window (st : Server) (h0 : handle) (m0 : message)
    (rid0 : string) (t0 : Z) (es : list event) (h : handle) (m : message)
    (rid : string) (now : Z) :
  let s := sessionId (ws_of st h0) in
  let T := (t0 + 1000)%Z in
  let st0 := Cloud.step st (Message h0 (JSONValue m0) rid0 t0) in
  let st1 := Cloud.run st0 es in
  let k := (2 + Z.of_nat (poses s st0 es))%Z in
  live h0 st = true ->
  window_opens s t0 st ->
  type_is m0 "pose_data" = true ->
  window s T st0 es = true ->
  live h st1 = true ->
  sessionId (ws_of st1 h) = s ->
  type_is m "pose_data" = true ->
  (now <= T)%Z ->
  out st0 = out st ++ relay h0 st (m0, t0)
  /\ map_get s (poseDataLimits st0) = Some {| count := 1; resetTime := T |}
  /\ Cloud.step st1 (Message h (JSONValue m) rid now) =
       emit (if (k >? 30)%Z then [] else relay h st1 (m, now))
         (with_poseDataLimits
            (map_set s {| count := k; resetTime := T |} (poseDataLimits st1))
            (with_messageCount (messageCount st1 + 1) st1))
  /\ (forall st' h' m' now',
        truthy (roomId (ws_of st' h')) = true ->
        exists e,
          out (Local.handlePoseData h' m' now' st') =
          out st' ++
          deliveries (roomId (ws_of st' h')) e (Some (sessionId (ws_of st' h'))) st').
Proof.
  intros s T st0 st1 k L0 W0 Ty0 W L S Ty Le.
  assert (N : next_limit s t0 st = {| count := 1; resetTime := T |}).
  { unfold next_limit, window_opens, T in *.
    destruct (map_get s (poseDataLimits st)) as [l|]; cbn [resetTime].
    - destruct (t0 >? resetTime l)%Z eqn:Q; [reflexivity|lia].
    - destruct (t0 >? t0 + 1000)%Z eqn:Q; [lia|reflexivity]. }
  assert (E0 : st0 =
               emit (relay h0 st (m0, t0))
                 (with_poseDataLimits
                    (map_set s {| count := 1; resetTime := T |} (poseDataLimits st))
                    (with_messageCount (messageCount st + 1) st))).
  { unfold st0. cbn [Cloud.step]. rewrite L0.
    rewrite (onMessage_pose_data _ _ _ _ Ty0). cbn zeta. fold s. now rewrite N. }
  assert (G0 : map_get s (poseDataLimits st0) = Some {| count := 1; resetTime := T |}).
  { rewrite E0. cbn [poseDataLimits emit with_poseDataLimits].
    apply map_get_set_same. }
  split; [now rewrite E0|]. split; [exact G0|].
  split; [|intros st' h' m' now'; apply Local_handlePoseData_unlimited].
  pose proof (counter_in_window s T es 1%Z st0 G0 W) as G1. fold st1 in G1.
  cbn [Cloud.step]. rewrite L.
  rewrite (onMessage_pose_data _ _ _ _ Ty). cbn zeta. rewrite S.
  assert (N1 : next_limit s now st1 = {| count := k; resetTime := T |}).
  { unfold next_limit. rewrite G1. cbn [resetTime count].
    replace (now >? T)%Z with false by lia. cbn [resetTime count].
    replace (1 + Z.of_nat (poses s st0 es) + 1)%Z with k by (unfold k; lia).
    reflexivity. }
  now rewrite N1.
Qed.

(** Twenty-nine further messages of the connection that opened the
    window, then a new connection and a sweep. *)
Definition C3_others : list event :=
  pose_events 0 (repeat (C3_frame, 10%Z) 29) ++
  [Connection (Some "c") (Some "desktop") (Some "R") "i" "j" 11%Z; Sweep 12%Z].

Lemma C3_first_30_per_window_witness :
  let s := sessionId (ws_of C3_state 0) in
  let T := (10 + 1000)%Z in
  let st0 := Cloud.step C3_state (Message 0 (JSONValue C3_frame) "" 10%Z) in
  let st1 := Cloud.run st0 C3_others in
  let k := (2 + Z.of_nat (poses s st0 C3_others))%Z in
  (k = 31)%Z
  /\ Cloud.step st1 (Message 0 (JSONValue C3_frame) "" 20%Z) =
     emit (if (k >? 30)%Z then [] else relay 0 st1 (C3_frame, 20%Z))
       (with_poseDataLimits
          (map_set s {| count := k; resetTime := T |} (poseDataLimits st1))
          (with_messageCount (messageCount st1 + 1) st1)).
Proof.
  intros s T st0 st1 k.
  assert (W : window s T st0 C3_others = true) by (vm_compute; reflexivity).
  assert (L : live 0 st1 = true) by (vm_compute; reflexivity).
  assert (S : sessionId (ws_of st1 0) = s) by (vm_compute; reflexivity).
  assert (Le : (20 <= T)%Z) by (unfold T; lia).
  split; [vm_compute; reflexivity|].
  exact (proj1 (proj2 (proj2
    (C3_first_30_per_window C3_state 0 C3_frame "" 10%Z C3_others
       0 C3_frame "" 20%Z eq_refl I eq_refl W L S eq_refl Le)))).
Defined.

(** The broadcasts of pose data in a piece of the log. *)
Definition is_pose_send (e : effect) : bool :=
  match e with
  | WsSend _ (Json (PoseData _ _ _ _ _ _ _))
  | WsSend _ (Json (PoseDataEnhanced _ _ _ _)) => true
  | _ => false
  end.

Definition pose_sends (l : list effect) : nat := length (filter is_pose_send l).

(** Two connections in room R, and a third that came with the session id
    of the first. *)
Definition C3_twin : Server :=
  Cloud.run init
    [Connection (Some "a") (Some "mobile") (Some "R") "i" "j" 1%Z;
     Connection (Some "b") (Some "vr") (Some "R") "i" "j" 2%Z;
     Connection (Some "a") (Some "mobile") None "i" "j" 3%Z].

(** C3 as stated fails, on either server.  On the deployment server the
    close of a connection deletes the counter of its session id, so when
    the third connection closes between two runs of 30 messages of the
    first, all 60 messages, received in one millisecond, are broadcast to
    the second.  The development server has no counter: of 31 messages
    received in one millisecond it broadcasts 31. *)
Lemma C3_counterexample :
  pose_sends (out C3_twin) = 0
  /\ pose_sends
       (out (Cloud.run C3_twin
               (pose_events 0 (repeat (C3_frame, 10%Z) 30) ++ [WsClose 2] ++
                pose_events 0 (repeat (C3_frame, 10%Z) 30)))) = 60
  /\ pose_sends
       (out (Local.run init
               ([Connection (Some "a") (Some "mobile") (Some "R") "i" "j" 1%Z;
                 Connection (Some "b") (Some "vr") (Some "R") "i" "j" 2%Z] ++
                pose_events 0 (repeat (C3_frame, 10%Z) 31)))) = 31.
Proof. vm_compute. repeat split; reflexivity. Qed.

(** ** Pairing detection of the development server (C2) *)

(** The participants of the room under [r] as [joinRoom] lists them. *)
Definition room_infos (r : option string) (st : Server) : list ParticipantInfo :=
  match map_get r (rooms st) with
  | Some room => participant_infos st room
  | None => []
  end.

(** [hasPhone && hasVR] *)
Definition has_pair (ps : list ParticipantInfo) : bool :=
  Local.some_deviceType "mobile" ps && Local.some_deviceType "vr" ps.

(** How many [pairing_success] envelopes a piece of the log serializes. *)
Definition is_pairing (e : effect) : bool :=
  match e with
  | Stringify (PairingSuccess _) => true
  | _ => false
  end.

Definition pairing_count (l : list effect) : nat := length (filter is_pairing l).

Lemma pairing_count_app l1 l2 :
  pairing_count (l1 ++ l2) = pairing_count l1 + pairing_count l2.
Proof. unfold pairing_count. now rewrite filter_app, length_app. Qed.

Lemma pairing_count_sends {A} (f : A -> handle) (w : wire) (l : list A) :
  pairing_count (map (fun e => WsSend (f e) w) l) = 0.
Proof. induction l; simpl; auto. Qed.

Lemma pairing_count_deliveries r m ex st :
  pairing_count (deliveries r m ex st) =
  if map_has r (rooms st) then pairing_count [Stringify m] else 0.
Proof.
  unfold deliveries, map_has. destruct (map_get r (rooms st)); [|reflexivity].
  match goal with
  | |- pairing_count (_ :: ?l) = _ =>
      change (pairing_count ([Stringify m] ++ l) = pairing_count [Stringify m])
  end.
  rewrite pairing_count_app, pairing_count_sends. apply Nat.add_0_r.
Qed.

Lemma pairing_count_send h m st :
  pairing_count (if is_open h st then [Stringify m; WsSend h (Json m)] else []) =
  if is_open h st then pairing_count [Stringify m] else 0.
Proof. destruct (is_open h st); reflexivity. Qed.

Lemma leaveRoom_out h st :
  exists l, out (leaveRoom h st) = out st ++ l /\ pairing_count l = 0.
Proof.
  leave_cases h st room T G;
    [|exists []; rewrite app_nil_r; auto..].
  eexists. split; [reflexivity|].
  unfold left_effects. rewrite pairing_count_deliveries.
  destruct (map_has _ _); reflexivity.
Qed.

Lemma pre_leave_out h st :
  exists l, out (pre_leave h st) = out st ++ l /\ pairing_count l = 0.
Proof.
  unfold pre_leave. destruct (truthy _); [apply leaveRoom_out|].
  exists []. now rewrite app_nil_r.
Qed.

Lemma Cloud_joinRoom_out h r now st :
  exists l, out (Cloud.joinRoom h r now st) = out st ++ l /\ pairing_count l = 0.
Proof.
  rewrite joinRoom_joined. destruct (pre_leave_out h st) as (l & E & Z).
  exists (l ++ join_effects h r now (pre_leave h st)). split.
  - simpl. rewrite E. now rewrite app_assoc.
  - rewrite pairing_count_app, Z. unfold join_effects.
    rewrite pairing_count_app, pairing_count_send, pairing_count_deliveries.
    destruct (is_open _ _), (map_has _ _); reflexivity.
Qed.

(** The pairing check at the end of the development server's [joinRoom]. *)
Definition pairing_check (r : option string) (st6 : Server) : Server :=
  if has_pair (room_infos r st6)
  then broadcastToRoom r (PairingSuccess (map pi_deviceType (room_infos r st6)))
                       None st6
  else st6.

(** The development server's [joinRoom] is the deployment server's followed
    by the pairing check. *)
Lemma Local_joinRoom_Cloud h r now st :
  Local.joinRoom h r now st = pairing_check r (Cloud.joinRoom h r now st).
Proof.
  unfold Local.joinRoom, Cloud.joinRoom, pairing_check.
  match goal with
  | |- context [match map_get r (rooms ?s2) with _ => _ end] =>
      set (st2 := s2); destruct (map_get r (rooms st2)) as [room|] eqn:G
  end.
  - unfold room_infos, has_pair.
    rewrite rooms_broadcastToRoom, rooms_send.
    cbn [rooms update_ws with_rooms with_sockets]. rewrite map_get_set_same.
    rewrite send_emit.
    rewrite (broadcastToRoom_emit r (ParticipantJoined _ _ _)).
    reflexivity.
  - unfold room_infos. rewrite G. reflexivity.
Qed.

Lemma pairing_check_emit r st6 :
  pairing_check r st6 =
  emit (if has_pair (room_infos r st6)
        then Stringify (PairingSuccess (map pi_deviceType (room_infos r st6))) ::
             map (fun h => WsSend h
                    (Json (PairingSuccess (map pi_deviceType (room_infos r st6)))))
                 (recipients r None st6)
        else []) st6.
Proof.
  unfold pairing_check. destruct (has_pair (room_infos r st6)) eqn:P;
    [|now rewrite emit_nil].
  rewrite broadcastToRoom_emit, deliveries_recipients.
  unfold map_has. unfold room_infos in P.
  destruct (map_get r (rooms st6)); [reflexivity|discriminate].
Qed.

(** The log grows, and by no [pairing_success]. *)
Definition quiet (st st' : Server) : Prop :=
  exists l, out st' = out st ++ l /\ pairing_count l = 0.

Lemma quiet_out st st' : out st' = out st -> quiet st st'.
Proof. intro E. exists []. now rewrite app_nil_r. Qed.

Lemma quiet_trans a b c : quiet a b -> quiet b c -> quiet a c.
Proof.
  intros (l1 & E1 & Z1) (l2 & E2 & Z2). exists (l1 ++ l2). split.
  - now rewrite E2, E1, app_assoc.
  - rewrite pairing_count_app. lia.
Qed.

Lemma quiet_send h m st : is_pairing (Stringify m) = false -> quiet st (send h m st).
Proof.
  intro N. rewrite send_emit. eexists. split; [reflexivity|].
  rewrite pairing_count_send. unfold pairing_count. cbn [filter]. rewrite N.
  destruct (is_open h st); reflexivity.
Qed.

Lemma quiet_broadcastToRoom r m ex st :
  is_pairing (Stringify m) = false -> quiet st (broadcastToRoom r m ex st).
Proof.
  intro N. rewrite broadcastToRoom_emit. eexists. split; [reflexivity|].
  rewrite pairing_count_deliveries. unfold pairing_count. cbn [filter]. rewrite N.
  destruct (map_has r (rooms st)); reflexivity.
Qed.

Lemma quiet_handleMessage h m now st : quiet st (Cloud.handleMessage h m now st).
Proof.
  unfold Cloud.handleMessage, Cloud.sendRoomList, sendError, registerDevice,
    Cloud.handlePoseData, Cloud.handleSyncRequest.
  repeat match goal with
         | |- context [if ?c then _ else _] => destruct c
         | |- context [match ?c with Some _ => _ | None => _ end] => destruct c
         end;
    try apply Cloud_joinRoom_out; try apply leaveRoom_out;
    try (apply quiet_out; reflexivity);
    try (apply quiet_send; reflexivity);
    try (eapply quiet_trans; [|apply quiet_broadcastToRoom; reflexivity];
         apply quiet_out; reflexivity);
    try (eapply quiet_trans; [|apply quiet_send; reflexivity];
         apply quiet_out; reflexivity).
Qed.

Lemma quiet_step st e : quiet st (Cloud.step st e).
Proof.
  destruct e; simpl.
  - unfold Cloud.onConnection.
    eapply quiet_trans; [|apply quiet_send; reflexivity].
    destruct (truthy roomIdParam); [|apply quiet_out; reflexivity].
    eapply quiet_trans; [|apply Cloud_joinRoom_out]. apply quiet_out. reflexivity.
  - destruct (live h st); [|apply quiet_out; reflexivity].
    unfold Cloud.onMessage, sendError.
    destruct data;
      (eapply quiet_trans;
       [|first [apply quiet_handleMessage|apply quiet_send; reflexivity]]);
      apply quiet_out; reflexivity.
  - destruct (live h st); [|apply quiet_out; reflexivity].
    unfold Cloud.cleanup.
    eapply quiet_trans; [|apply quiet_out; reflexivity].
    eapply quiet_trans; [|apply leaveRoom_out]. apply quiet_out. reflexivity.
  - destruct (live h st); apply quiet_out; reflexivity.
  - destruct (live h st); [|apply quiet_out; reflexivity].
    unfold Cloud.cleanup.
    eapply quiet_trans; [|apply quiet_out; reflexivity].
    eapply quiet_trans; [|apply leaveRoom_out]. apply quiet_out. reflexivity.
  - apply quiet_out. reflexivity.
Qed.

Lemma quiet_run es : forall st, quiet st (Cloud.run st es).
Proof.
  induction es as [|e es IH]; intro st; simpl.
  - apply quiet_out. reflexivity.
  - eapply quiet_trans; [apply quiet_step|apply IH].
Qed.

(** C2, as amended.  At the end of every join the development server
    broadcasts [pairing_success], once and to every open connection of the
    room, exactly when the participants the room then has include a
    ['mobile'] and a ['vr'] device, whatever the room held before the join;
    nothing else the join adds to the log is a [pairing_success].  A leave
    never emits one, and the deployment server never emits any. *)
Theorem C2_pairing_after_every_join (st : Server) (h : handle)
    (r : option string) (now : Z) :
  let st' := Local.joinRoom h r now st in
  let pairing := PairingSuccess (map pi_deviceType (room_infos r st')) in
  (exists l,
     out st' = out st ++ l ++
       (if has_pair (room_infos r st')
        then Stringify pairing ::
             map (fun h => WsSend h (Json pairing)) (recipients r None st')
        else [])
     /\ pairing_count l = 0)
  /\ (exists l, out (leaveRoom h st) = out st ++ l /\ pairing_count l = 0)
  /\ (forall es, pairing_count (out (Cloud.run init es)) = 0).
Proof.
  cbv zeta. split; [|split; [apply leaveRoom_out|]];
    [|intro es; destruct (quiet_run es init) as (l & -> & Z); exact Z].
  rewrite Local_joinRoom_Cloud, pairing_check_emit.
  destruct (Cloud_joinRoom_out h r now st) as (l & E & Z).
  exists l. split; [|exact Z].
  cbn [out emit]. rewrite E. now rewrite app_assoc.
Qed.

Definition C2_paired : list event :=
  [Connection (Some "A") (Some "mobile") None "i" "j" 1%Z;
   Message 0 create_room "AB12CD" 2%Z;
   Connection (Some "B") (Some "vr") None "i" "j" 3%Z;
   Message 1 (join_room "AB12CD") "k" 4%Z].

Definition C2_third : list event :=
  [Connection (Some "C") (Some "mobile") None "i" "j" 5%Z;
   Message 2 (join_room "AB12CD") "k" 6%Z].

(** C2 as stated fails: with a phone and a headset paired in room AB12CD,
    the join of a second phone makes the development server broadcast
    [pairing_success] a second time. *)
Lemma C2_counterexample :
  has_pair (room_infos (Some "AB12CD") (Local.run init C2_paired)) = true /\
  pairing_count (out (Local.run init C2_paired)) = 1 /\
  pairing_count (out (Local.run init (C2_paired ++ C2_third))) = 2 /\
  In (WsSend 0 (Json (PairingSuccess ["mobile"; "vr"; "mobile"])))
     (out (Local.run init (C2_paired ++ C2_third))).
Proof. vm_compute. repeat split; auto 30. Qed.

(** ** Protocol errors (C6) *)

(** A frame the router has no handler for: it is not JSON, it is [null], or
    its [type] is none of those the [switch] names. *)
Definition unroutable (data : frame) : Prop :=
  match data with
  | NotJSON | JSONNull => True
  | JSONValue m =>
      match msg_type m with
      | None => True
      | Some t => ~ In t Cloud.recognized
      end
  end.

(** The [message] of the [error] envelope the frame is answered with. *)
Definition error_text (data : frame) : string :=
  match data with
  | NotJSON | JSONNull => "Invalid message format"
  | JSONValue m => "Unknown message type: " ++ show_type (msg_type m)
  end.

Lemma is_open_live h st : is_open h st = true -> live h st = true.
Proof.
  unfold is_open. rewrite live_ws_of.
  destruct (readyState (ws_of st h)); simpl; congruence.
Qed.

Lemma type_is_unrecognized m t :
  match msg_type m with None => True | Some t' => ~ In t' Cloud.recognized end ->
  In t Cloud.recognized -> type_is m t = false.
Proof.
  unfold type_is. destruct (msg_type m) as [t'|]; [|reflexivity].
  intros N I. destruct (String.eqb t' t) eqn:E; [|reflexivity].
  apply String.eqb_eq in E. subst. contradiction.
Qed.

(** C6, as amended.  A frame that is not JSON, or whose [type] the router
    does not know, arriving on an open connection: the deployment server
    counts it in [messageCount], serializes one [error] envelope and writes
    it to that connection, and changes nothing else: the sockets, the rooms,
    the registry and the rate limits are what they were, and the connection
    is as open as before. *)
Theorem C6_protocol_error_reply (st : Server) (h : handle) (data : frame)
    (rid : string) (now : Z) :
  is_open h st = true ->
  unroutable data ->
  let reply := Error (error_text data) now in
  let st' := Cloud.step st (Message h data rid now) in
  st' = emit [Stringify reply; WsSend h (Json reply)]
             (with_messageCount (messageCount st + 1) st)
  /\ sockets st' = sockets st /\ rooms st' = rooms st
  /\ connections st' = connections st /\ poseDataLimits st' = poseDataLimits st
  /\ is_open h st' = true /\ live h st' = true.
Proof.
  intros O U reply st'. pose proof (is_open_live _ _ O) as L.
  assert (E : st' = emit [Stringify reply; WsSend h (Json reply)]
                         (with_messageCount (messageCount st + 1) st)).
  { unfold st', reply. cbn [Cloud.step]. rewrite L. unfold Cloud.onMessage.
    destruct data as [| |m]; cbn [error_text]; unfold sendError.
    - rewrite send_emit. now rewrite (O : is_open h (with_messageCount _ st) = true).
    - rewrite send_emit. now rewrite (O : is_open h (with_messageCount _ st) = true).
    - unfold Cloud.handleMessage.
      rewrite !(type_is_unrecognized m _ U) by (simpl; tauto).
      unfold sendError. rewrite send_emit.
      now rewrite (O : is_open h (with_messageCount _ st) = true). }
  rewrite E. repeat split; auto.
Qed.

Definition C6_state : Server :=
  Cloud.run init [Connection (Some "a") (Some "mobile") None "i" "j" 1%Z].

Lemma C6_protocol_error_reply_witness :
  Cloud.step C6_state (Message 0 NotJSON "k" 2%Z) =
  emit [Stringify (Error "Invalid message format" 2);
        WsSend 0 (Json (Error "Invalid message format" 2))]
       (with_messageCount (messageCount C6_state + 1) C6_state).
Proof.
  exact (proj1 (C6_protocol_error_reply C6_state 0 NotJSON "k" 2%Z
                  eq_refl I)).
Defined.

(** C6 as stated fails: the bad frame changes the state beyond the reply,
    for it is counted in [messageCount], which the metrics endpoint
    reports. *)
Lemma C6_counterexample :
  messageCount C6_state = 0%Z /\
  messageCount (Cloud.step C6_state (Message 0 NotJSON "k" 2%Z)) = 1%Z.
Proof. vm_compute. split; reflexivity. Qed.


(** ** Registration (C7) *)

Lemma connections_leaveRoom h st :
  connections (leaveRoom h st) = connections st.
Proof.
  leave_cases h st room T G; reflexivity.
Qed.

Lemma connections_joinRoom h r now st :
  connections (Cloud.joinRoom h r now st) = connections st.
Proof.
  rewrite joinRoom_joined. simpl. unfold pre_leave.
  destruct (truthy _); [apply connections_leaveRoom|reflexivity].
Qed.

Lemma core_joinRoom h0 r now st h :
  length (sockets (Cloud.joinRoom h0 r now st)) = length (sockets st) /\
  sessionId (ws_of (Cloud.joinRoom h0 r now st) h) = sessionId (ws_of st h) /\
  readyState (ws_of (Cloud.joinRoom h0 r now st) h) = readyState (ws_of st h).
Proof.
  rewrite joinRoom_joined.
  destruct (core_pre_leave h0 st) as (E1 & W1).
  destruct (core_joined h0 r now (pre_leave h0 st)) as (E2 & W2).
  destruct (W1 h) as (S1 & _ & R1 & _), (W2 h) as (S2 & _ & R2 & _).
  change (ws_of (emit ?l ?s) h) with (ws_of s h).
  change (sockets (emit ?l ?s)) with (sockets s).
  repeat split; congruence.
Qed.

(** C7, as amended.  The connection handler gives a new connection the
    [sessionId] of its URL when that is present and not empty, and what
    [generateId()] returns otherwise; it does not look whether another
    connection has that id.  [connections] then maps the id to the new
    connection, and every earlier connection keeps its id and its ready
    state. *)
Theorem C7_registration_keeps_requested_id (st : Server)
    (sessionIdParam deviceTypeParam roomIdParam : option string)
    (id1 id2 : string) (now : Z) :
  let st' := Cloud.onConnection sessionIdParam deviceTypeParam roomIdParam
                                id1 id2 now st in
  let h := length (sockets st) in
  sessionId (ws_of st' h) = or_else sessionIdParam id1
  /\ live h st' = true
  /\ map_get (or_else sessionIdParam id1) (connections st') = Some h
  /\ (forall h', h' < h ->
        sessionId (ws_of st' h') = sessionId (ws_of st h') /\
        live h' st' = live h' st).
Proof.
  cbv zeta. unfold Cloud.onConnection.
  set (sid := or_else sessionIdParam id1).
  set (w := new_socket _ _ _ _).
  set (st2 := with_connections _ _).
  assert (W2 : ws_of st2 (length (sockets st)) = w)
    by (unfold st2, ws_of; simpl; rewrite app_nth2 by lia; now rewrite Nat.sub_diag).
  assert (O2 : forall h', h' < length (sockets st) -> ws_of st2 h' = ws_of st h')
    by (intros h' Lh; unfold st2, ws_of; simpl; now rewrite app_nth1).
  assert (C2 : map_get sid (connections st2) = Some (length (sockets st)))
    by (unfold st2; simpl; apply map_get_set_same).
  set (st3 := if truthy roomIdParam then _ else _).
  assert (K : connections st3 = connections st2 /\
              forall h', sessionId (ws_of st3 h') = sessionId (ws_of st2 h') /\
                         readyState (ws_of st3 h') = readyState (ws_of st2 h')).
  { unfold st3. destruct (truthy roomIdParam); [|auto].
    split; [apply connections_joinRoom|].
    intro h'. apply (core_joinRoom (length (sockets st)) roomIdParam now st2 h'). }
  destruct K as [KC KW]. rewrite send_emit.
  change (ws_of (emit ?l ?s) ?x) with (ws_of s x).
  change (connections (emit ?l ?s)) with (connections s).
  assert (LV : forall x l, live x (emit l st3) = live x st3) by reflexivity.
  split; [|split; [|split]].
  - destruct (KW (length (sockets st))) as [-> _]. now rewrite W2.
  - rewrite LV, live_ws_of. destruct (KW (length (sockets st))) as [_ ->].
    now rewrite W2.
  - now rewrite KC.
  - intros h' Lh. destruct (KW h') as [S R]. rewrite S, (O2 h' Lh).
    split; [reflexivity|]. rewrite LV, !live_ws_of, R, (O2 h' Lh). reflexivity.
Qed.

(** C7 as stated fails: a second connection that asks for the session id
    of one that is still open gets that id, not the generated one, and the
    two open connections share it. *)
Lemma C7_counterexample :
  sessionId (ws_of (Cloud.run init
               [Connection (Some "s") (Some "mobile") None "g1" "c1" 1%Z;
                Connection (Some "s") (Some "vr") None "g2" "c2" 2%Z]) 0) = "s"
  /\ sessionId (ws_of (Cloud.run init
               [Connection (Some "s") (Some "mobile") None "g1" "c1" 1%Z;
                Connection (Some "s") (Some "vr") None "g2" "c2" 2%Z]) 1) = "s"
  /\ is_open 0 (Cloud.run init
               [Connection (Some "s") (Some "mobile") None "g1" "c1" 1%Z;
                Connection (Some "s") (Some "vr") None "g2" "c2" 2%Z]) = true
  /\ is_open 1 (Cloud.run init
               [Connection (Some "s") (Some "mobile") None "g1" "c1" 1%Z;
                Connection (Some "s") (Some "vr") None "g2" "c2" 2%Z]) = true.
Proof. vm_compute. repeat split; reflexivity. Qed.

(** ** Sync requests (C8) *)






(** ** The reconnection controller (C9) *)

(** [handleDisconnection] by itself does what the backoff asks for: below
    the maximum it schedules one retry after [reconnectDelay * 2 ^ attempts],
    which is the base delay for the first; at the maximum it schedules none
    and shows "Connection Failed"; and [onopen] puts the counter back to 0. *)
Lemma handleDisconnection_backoff (m : WebSocketManager.Manager) :
  let m' := WebSocketManager.handleDisconnection m in
  (WebSocketManager.reconnectAttempts m < WebSocketManager.maxReconnectAttempts m ->
     WebSocketManager.timers m' =
       WebSocketManager.timers m ++
       [WebSocketManager.reconnectDelay m *
        2 ^ Z.of_nat (WebSocketManager.reconnectAttempts m)]%Z /\
     WebSocketManager.connectionStatus m' = WebSocketManager.StatusDisconnected)
  /\ (WebSocketManager.maxReconnectAttempts m <= WebSocketManager.reconnectAttempts m ->
        WebSocketManager.timers m' = WebSocketManager.timers m /\
        WebSocketManager.connectionStatus m' =
          WebSocketManager.StatusConnectionFailed)
  /\ WebSocketManager.reconnectAttempts (WebSocketManager.onopen m) = 0.
Proof.
  cbv zeta. unfold WebSocketManager.handleDisconnection. simpl.
  split; [|split]; [intro L|intro L|].
  - apply Nat.ltb_lt in L. rewrite L. simpl. auto.
  - apply Nat.ltb_ge in L. rewrite L. simpl. auto.
  - unfold WebSocketManager.onopen, WebSocketManager.sendMessage. simpl.
    destruct (WebSocketManager.ws m); reflexivity.
Qed.

(** What holds of the manager whatever its one socket does: the attempts
    made, the retries pending and the disconnections the socket can still
    report are two at most, the sockets opened are still [o], and the
    status is not "Connection Failed". *)
Definition budget (s : WebSocketManager.Socket) : nat :=
  match s with
  | WebSocketManager.Connecting | WebSocketManager.Opened => 2
  | WebSocketManager.Errored => 1
  | WebSocketManager.NoSocket | WebSocketManager.Closed => 0
  end.

Record stalls (o : list (string * option string))
    (m : WebSocketManager.Manager) : Prop := {
  stalls_max : WebSocketManager.maxReconnectAttempts m = 5;
  stalls_budget :
    WebSocketManager.reconnectAttempts m + length (WebSocketManager.timers m) +
    budget (WebSocketManager.ws m) <= 2;
  stalls_opened : WebSocketManager.opened m = o;
  stalls_status :
    WebSocketManager.connectionStatus m <> WebSocketManager.StatusConnectionFailed
}.

Lemma length_remove_nth {A} (i : nat) (l : list A) :
  i < length l -> S (length (WebSocketManager.remove_nth i l)) = length l.
Proof.
  revert i. induction l as [|x l IH]; intros [|i]; simpl; intro L; try lia.
  rewrite IH; lia.
Qed.

Lemma stalls_handleDisconnection o m s :
  WebSocketManager.maxReconnectAttempts m = 5 ->
  WebSocketManager.reconnectAttempts m + length (WebSocketManager.timers m) +
    S (budget s) <= 2 ->
  WebSocketManager.opened m = o ->
  stalls o (WebSocketManager.handleDisconnection (WebSocketManager.set_ws s m)).
Proof.
  intros M B O. unfold WebSocketManager.handleDisconnection. simpl.
  rewrite M.
  destruct (Nat.ltb (WebSocketManager.reconnectAttempts m) 5) eqn:L.
  - split; simpl; auto; try discriminate. rewrite length_app. simpl. lia.
  - apply Nat.ltb_ge in L. lia.
Qed.

(** A message leaves the attempts, the timers and the sockets as they
    are, and does not show "Connection Failed". *)
Lemma stalls_onmessage o data m :
  stalls o m -> stalls o (WebSocketManager.onmessage data m).
Proof.
  intros [M B O S].
  destruct data as [| |d]; [split; assumption..|].
  unfold WebSocketManager.onmessage, WebSocketManager.handleMessage,
    WebSocketManager.handleSyncRequest, WebSocketManager.sendMessage.
  repeat match goal with
         | |- context [if ?c then _ else _] => destruct c
         end;
    try (split; assumption).
  - destruct (WebSocketManager.pairedDevice d); split; simpl; auto; discriminate.
  - destruct (WebSocketManager.ws m) eqn:W; split; simpl; auto; congruence.
Qed.

Lemma stalls_step o m e : stalls o m -> stalls o (WebSocketManager.step m e).
Proof.
  intro I. pose proof I as [M B O S].
  destruct e; unfold WebSocketManager.step.
  - destruct (WebSocketManager.ws m) eqn:W; try exact I.
    simpl in B. unfold WebSocketManager.onopen, WebSocketManager.sendMessage.
    simpl. split; simpl; auto; try lia; try discriminate.
  - destruct (WebSocketManager.ws m) eqn:W; try exact I;
      simpl in B; unfold WebSocketManager.onerror;
      apply (stalls_handleDisconnection o
               (WebSocketManager.console_error "WebSocket error:" m));
      simpl; auto; lia.
  - destruct (WebSocketManager.ws m) eqn:W; try exact I;
      simpl in B; apply stalls_handleDisconnection; simpl; auto; lia.
  - assert (T : stalls o
                  (if Nat.ltb i (length (WebSocketManager.timers m))
                   then WebSocketManager.retry
                          (WebSocketManager.set_timers
                             (WebSocketManager.remove_nth i (WebSocketManager.timers m))
                             m)
                   else m)).
    { destruct (Nat.ltb i (length (WebSocketManager.timers m))) eqn:L;
        [|exact I].
      apply Nat.ltb_lt in L. pose proof (length_remove_nth _ _ L) as R.
      unfold WebSocketManager.retry, WebSocketManager.connect. simpl.
      split; simpl; auto; try lia; try discriminate. }
    destruct (WebSocketManager.ws m); exact T.
  - destruct (WebSocketManager.ws m) eqn:W; try exact I.
    now apply stalls_onmessage.
Qed.

(** C9: what the code does.  Let [connect(service, roomId)] have found
    the service and opened its socket, as [connect('local')] of the
    application does.  Whatever that socket does and whenever the timers
    run out, the manager never shows "Connection Failed", never makes more
    than two attempts, and never opens another socket: the retry calls
    [connect()] with no argument, whose default service [ngrok] is not
    among [cloudServices]. *)
Theorem C9_reconnect_stalls (url : string) (room : option string)
    (es : list WebSocketManager.Event) :
  let m0 := WebSocketManager.new_WebSocket url room WebSocketManager.new_manager in
  let m := WebSocketManager.run m0 es in
  WebSocketManager.connectionStatus m <> WebSocketManager.StatusConnectionFailed
  /\ WebSocketManager.reconnectAttempts m <= 2
  /\ WebSocketManager.opened m = [(url, room)].
Proof.
  cbv zeta.
  set (m0 := WebSocketManager.new_WebSocket url room WebSocketManager.new_manager).
  assert (I : stalls [(url, room)] m0) by (split; simpl; auto; discriminate).
  assert (G : forall m, stalls [(url, room)] m ->
                        stalls [(url, room)] (WebSocketManager.run m es)).
  { induction es as [|e es IH]; intros m Im; simpl; [exact Im|].
    apply IH. now apply stalls_step. }
  destruct (G _ I) as [M B O S]. split; [exact S|]. split; [lia|exact O].
Qed.

Lemma started_opens_local :
  WebSocketManager.started =
  WebSocketManager.new_WebSocket "ws://192.168.86.208:8080/ws" None
    WebSocketManager.new_manager.
Proof. reflexivity. Qed.

(** The socket opens and then closes: the one retry is scheduled after the
    base delay, and when it has run the manager shows "Reconnecting (1/5)"
    with no socket to wait for and no timer pending. *)
Lemma reconnect_after_close :
  WebSocketManager.timers
    (WebSocketManager.run WebSocketManager.started
       [WebSocketManager.Open; WebSocketManager.Close]) = [1000%Z]
  /\ WebSocketManager.connectionStatus
       (WebSocketManager.run WebSocketManager.started
          [WebSocketManager.Open; WebSocketManager.Close;
           WebSocketManager.Timeout 0]) = WebSocketManager.StatusReconnecting 1 5
  /\ WebSocketManager.timers
       (WebSocketManager.run WebSocketManager.started
          [WebSocketManager.Open; WebSocketManager.Close;
           WebSocketManager.Timeout 0]) = []
  /\ WebSocketManager.ws
       (WebSocketManager.run WebSocketManager.started
          [WebSocketManager.Open; WebSocketManager.Close;
           WebSocketManager.Timeout 0]) = WebSocketManager.Closed
  /\ WebSocketManager.console
       (WebSocketManager.run WebSocketManager.started
          [WebSocketManager.Open; WebSocketManager.Close;
           WebSocketManager.Timeout 0]) = ["Invalid cloud service: ngrok"].
Proof. vm_compute. repeat split; reflexivity. Qed.

(** * Further properties of the servers *)

(** ** The fields of a connection the handlers never assign *)

Lemma map_list_alter {A B} (g : A -> B) (f : A -> A) n l :
  (forall x, g (f x) = g x) -> map g (list_alter f n l) = map g l.
Proof.
  intro F. revert n. induction l as [|x l IH]; intros [|n]; simpl; auto.
  - now rewrite F.
  - now rewrite IH.
Qed.

(** A reading of a [ws] object that does not depend on its [roomId], its
    [capabilities] or its [deviceInfo]: the fields the message handlers
    assign. *)
Definition stable {B} (g : WebSocket -> B) : Prop :=
  (forall v w, g (set_roomId v w) = g w) /\
  (forall c d w, g (set_device c d w) = g w).

Lemma stable_sessionId : stable sessionId.
Proof. split; reflexivity. Qed.

Lemma stable_deviceType : stable deviceType.
Proof. split; reflexivity. Qed.

Lemma stable_readyState : stable readyState.
Proof. split; reflexivity. Qed.

Lemma fields_leaveRoom {B} (g : WebSocket -> B) h st :
  stable g -> map g (sockets (leaveRoom h st)) = map g (sockets st).
Proof.
  intros [R _]. leave_cases h st room T G; try reflexivity.
  simpl. apply map_list_alter. intro w. apply R.
Qed.

Lemma fields_pre_leave {B} (g : WebSocket -> B) h st :
  stable g -> map g (sockets (pre_leave h st)) = map g (sockets st).
Proof.
  intro S. unfold pre_leave. destruct (truthy _); [now apply fields_leaveRoom|auto].
Qed.

Lemma fields_joinRoom {B} (g : WebSocket -> B) h r now st :
  stable g -> map g (sockets (Cloud.joinRoom h r now st)) = map g (sockets st).
Proof.
  intro S. rewrite joinRoom_joined. simpl.
  rewrite map_list_alter by (intro w; apply S). now apply fields_pre_leave.
Qed.

Lemma fields_registerDevice {B} (g : WebSocket -> B) h m st :
  stable g -> map g (sockets (registerDevice h m st)) = map g (sockets st).
Proof.
  intros [_ D]. unfold registerDevice. rewrite send_emit. simpl.
  apply map_list_alter. intro w. apply D.
Qed.

Lemma sockets_handlePoseData h m now st :
  sockets (Cloud.handlePoseData h m now st) = sockets st.
Proof. destruct (handlePoseData_shape h m now st) as (l & lims & ->). reflexivity. Qed.

Lemma sockets_handleSyncRequest h m now st :
  sockets (Cloud.handleSyncRequest h m now st) = sockets st.
Proof. destruct (handleSyncRequest_shape h m now st) as (l & ->). reflexivity. Qed.

Lemma sockets_send h m st : sockets (send h m st) = sockets st.
Proof. now rewrite send_emit. Qed.

Lemma fields_handleMessage {B} (g : WebSocket -> B) h m now st :
  stable g -> map g (sockets (Cloud.handleMessage h m now st)) = map g (sockets st).
Proof.
  intro S. unfold Cloud.handleMessage, Cloud.sendRoomList, sendError.
  repeat match goal with |- context [if ?c then _ else _] => destruct c end;
    auto using fields_joinRoom, fields_leaveRoom, fields_registerDevice;
    now rewrite ?sockets_handlePoseData, ?sockets_handleSyncRequest, ?sockets_send.
Qed.

Lemma fields_onMessage {B} (g : WebSocket -> B) h data now st :
  stable g -> map g (sockets (Cloud.onMessage h data now st)) = map g (sockets st).
Proof.
  intro S. unfold Cloud.onMessage, sendError.
  destruct data; rewrite ?sockets_send; try reflexivity.
  now rewrite fields_handleMessage.
Qed.

Lemma fields_cleanup {B} (g : WebSocket -> B) h st :
  stable g -> map g (sockets (Cloud.cleanup h st)) = map g (sockets st).
Proof.
  intro S. unfold Cloud.cleanup. simpl. now rewrite fields_leaveRoom.
Qed.

Lemma fields_onConnection {B} (g : WebSocket -> B) s d r id1 id2 now st :
  stable g ->
  map g (sockets (Cloud.onConnection s d r id1 id2 now st)) =
  map g (sockets st) ++
  [g (new_socket (or_else s id1) (or_else d "unknown") r now)].
Proof.
  intro S. unfold Cloud.onConnection. rewrite sockets_send.
  destruct (truthy r); [rewrite fields_joinRoom by exact S|];
    simpl; now rewrite map_app.
Qed.

(** A reading through a handle, from the readings of the whole store. *)
Lemma field_of_map {B} (g : WebSocket -> B) st st' h :
  map g (sockets st') = map g (sockets st) -> g (ws_of st' h) = g (ws_of st h).
Proof.
  intro E. unfold ws_of. rewrite <- !map_nth with (f := g). now rewrite E.
Qed.

Lemma length_of_map {B} (g : WebSocket -> B) st st' :
  map g (sockets st') = map g (sockets st) ->
  length (sockets st') = length (sockets st).
Proof. intro E. apply (f_equal (@length B)) in E. now rewrite !length_map in E. Qed.

(** What identifies a connection: the values the connection handler gave
    to [ws.sessionId], [ws.deviceType] and [ws.connectedAt]. *)
Definition identity (w : WebSocket) : string * string * Z :=
  (sessionId w, deviceType w, connectedAt w).

Lemma stable_identity : stable identity.
Proof. split; reflexivity. Qed.

Lemma identity_step st e :
  exists l, map identity (sockets (Cloud.step st e)) =
            map identity (sockets st) ++ l.
Proof.
  destruct e; simpl.
  - eexists. apply fields_onConnection. apply stable_identity.
  - exists []. rewrite app_nil_r. destruct (live h st); [|reflexivity].
    apply fields_onMessage, stable_identity.
  - exists []. rewrite app_nil_r. destruct (live h st); [|reflexivity].
    apply fields_cleanup, stable_identity.
  - exists []. rewrite app_nil_r. destruct (live h st); [|reflexivity].
    simpl. now apply map_list_alter.
  - exists []. rewrite app_nil_r. destruct (live h st); [|reflexivity].
    rewrite fields_cleanup by apply stable_identity.
    simpl. now apply map_list_alter.
  - exists []. now rewrite app_nil_r.
Qed.

Lemma identity_run es : forall st,
  exists l, map identity (sockets (Cloud.run st es)) =
            map identity (sockets st) ++ l.
Proof.
  induction es as [|e es IH]; intro st; simpl.
  - exists []. now rewrite app_nil_r.
  - destruct (IH (Cloud.step st e)) as (l2 & E2).
    destruct (identity_step st e) as (l1 & E1).
    exists (l1 ++ l2). now rewrite E2, E1, app_assoc.
Qed.

(** X1.  Whatever the deployment server handles after a connection has
    arrived, the connection stays in the store and keeps the session id, the
    device type and the connection time the connection handler gave it: no
    message, [device_register] included, assigns them. *)
Theorem connection_identity_is_fixed (st : Server) (es : list event) (h : handle) :
  h < length (sockets st) ->
  let st' := Cloud.run st es in
  h < length (sockets st')
  /\ sessionId (ws_of st' h) = sessionId (ws_of st h)
  /\ deviceType (ws_of st' h) = deviceType (ws_of st h)
  /\ connectedAt (ws_of st' h) = connectedAt (ws_of st h).
Proof.
  intros L st'. destruct (identity_run es st) as (l & E). fold st' in E.
  assert (Ln : h < length (sockets st')).
  { apply (f_equal (@length _)) in E.
    rewrite length_app, !length_map in E. lia. }
  split; [exact Ln|].
  assert (I : identity (ws_of st' h) = identity (ws_of st h)).
  { unfold ws_of. rewrite <- !map_nth with (f := identity).
    rewrite E. apply app_nth1. now rewrite length_map. }
  unfold identity in I. injection I as -> -> ->. auto.
Qed.

Lemma connection_identity_is_fixed_witness :
  let st := Cloud.run init [Connection (Some "a") (Some "mobile") None "i" "j" 1%Z] in
  let st' := Cloud.run st
               [Message 0 (JSONValue
                  {| msg_type := Some "device_register"; msg_roomId := None;
                     msg_timestamp := None; landmarks := None; metadata := None;
                     msg_capabilities := Some "{}"; msg_deviceInfo := None;
                     targetSession := None |}) "k" 2%Z;
                Message 0 (join_room "R") "k" 3%Z; WsClose 0] in
  0 < length (sockets st')
  /\ sessionId (ws_of st' 0) = sessionId (ws_of st 0)
  /\ deviceType (ws_of st' 0) = deviceType (ws_of st 0)
  /\ connectedAt (ws_of st' 0) = connectedAt (ws_of st 0).
Proof.
  cbv zeta.
  apply (connection_identity_is_fixed
           (Cloud.run init [Connection (Some "a") (Some "mobile") None "i" "j" 1%Z])).
  simpl. lia.
Defined.

(** ** The registry of connections *)

Lemma connections_send h m st : connections (send h m st) = connections st.
Proof. now rewrite send_emit. Qed.

Lemma connections_handleMessage h m now st :
  connections (Cloud.handleMessage h m now st) = connections st.
Proof.
  unfold Cloud.handleMessage, Cloud.sendRoomList, sendError, registerDevice.
  repeat match goal with |- context [if ?c then _ else _] => destruct c end;
    rewrite ?connections_joinRoom, ?connections_leaveRoom, ?connections_send;
    try reflexivity.
  - destruct (handlePoseData_shape h m now st) as (l & lims & ->). reflexivity.
  - destruct (handleSyncRequest_shape h m now st) as (l & ->). reflexivity.
Qed.

Lemma connections_onMessage h data now st :
  connections (Cloud.onMessage h data now st) = connections st.
Proof.
  unfold Cloud.onMessage, sendError.
  destruct data; rewrite ?connections_send, ?connections_handleMessage; reflexivity.
Qed.

Lemma connections_cleanup h st :
  connections (Cloud.cleanup h st) =
  map_delete (sessionId (ws_of st h)) (connections st).
Proof. unfold Cloud.cleanup. simpl. now rewrite connections_leaveRoom. Qed.

Lemma map_get_delete_Some {K V} `{Key K} (k k' : K) (v : V) (m : omap K V) :
  map_get k' (map_delete k m) = Some v -> k <> k' /\ map_get k' m = Some v.
Proof.
  intro G. destruct (key_eq_dec k k') as [<-|N].
  - now rewrite map_get_delete_same in G.
  - now rewrite map_get_delete_other in G by exact N.
Qed.

(** Every entry of [connections] is under the session id of the connection
    it holds, and that connection has not been closed. *)
Definition registered (st : Server) : Prop :=
  forall s h, map_get s (connections st) = Some h ->
    h < length (sockets st) /\ sessionId (ws_of st h) = s /\ live h st = true.

Lemma registered_frame st st' :
  map sessionId (sockets st') = map sessionId (sockets st) ->
  map readyState (sockets st') = map readyState (sockets st) ->
  (forall s h, map_get s (connections st') = Some h ->
               map_get s (connections st) = Some h) ->
  registered st -> registered st'.
Proof.
  intros S R C I s h G. destruct (I s h (C s h G)) as (L & E & V).
  rewrite (length_of_map _ _ _ S), (field_of_map _ _ _ h S).
  rewrite live_ws_of, (field_of_map _ _ _ h R), <- live_ws_of. auto.
Qed.

Lemma registered_onConnection s d r id1 id2 now st :
  registered st -> registered (Cloud.onConnection s d r id1 id2 now st).
Proof.
  intro I. unfold Cloud.onConnection.
  set (sid := or_else s id1).
  set (w := new_socket _ _ _ _).
  set (st2 := with_connections _ _).
  assert (I2 : registered st2).
  { intros s' h G. unfold st2 in G. simpl in G.
    destruct (key_eq_dec sid s') as [<-|N].
    - rewrite map_get_set_same in G. injection G as <-.
      split; [simpl; rewrite length_app; simpl; lia|].
      change (ws_of st2 (length (sockets st))) with
        (ws_of (with_sockets (sockets st ++ [w]) st) (length (sockets st))).
      rewrite live_ws_of.
      change (ws_of st2 (length (sockets st))) with
        (ws_of (with_sockets (sockets st ++ [w]) st) (length (sockets st))).
      rewrite ws_of_connect_new. auto.
    - rewrite map_get_set_other in G by exact N.
      destruct (I s' h G) as (L & E & V).
      split; [simpl; rewrite length_app; simpl; lia|].
      rewrite live_ws_of.
      change (ws_of st2 h) with (ws_of (with_sockets (sockets st ++ [w]) st) h).
      rewrite ws_of_connect by exact L. rewrite <- live_ws_of. auto. }
  eapply registered_frame; [| | |exact I2].
  - rewrite sockets_send.
    destruct (truthy r); [apply fields_joinRoom, stable_sessionId|reflexivity].
  - rewrite sockets_send.
    destruct (truthy r); [apply fields_joinRoom, stable_readyState|reflexivity].
  - intros s' h. rewrite connections_send.
    destruct (truthy r); [now rewrite connections_joinRoom|auto].
Qed.

Lemma registered_cleanup h st : registered st -> registered (Cloud.cleanup h st).
Proof.
  apply registered_frame.
  - apply fields_cleanup, stable_sessionId.
  - apply fields_cleanup, stable_readyState.
  - intros s h'. rewrite connections_cleanup. intro G.
    now apply map_get_delete_Some in G.
Qed.

Lemma registered_step st e : registered st -> registered (Cloud.step st e).
Proof.
  intro I. destruct e; simpl.
  - now apply registered_onConnection.
  - destruct (live h st); [|exact I]. revert I. apply registered_frame.
    + apply fields_onMessage, stable_sessionId.
    + apply fields_onMessage, stable_readyState.
    + intros s h'. now rewrite connections_onMessage.
  - destruct (live h st); [|exact I]. now apply registered_cleanup.
  - destruct (live h st) eqn:V; [|exact I].
    intros s h' G. destruct (I s h' G) as (L & E & V').
    rewrite length_update_ws.
    destruct (fields_set_readyState h CLOSING st h') as [-> _].
    split; [exact L|]. split; [exact E|].
    destruct (Nat.eq_dec h h') as [<-|N].
    + now rewrite live_set_readyState_same by exact L.
    + now rewrite live_set_readyState_other by exact N.
  - destruct (live h st) eqn:V; [|exact I].
    set (st1 := update_ws h (set_readyState CLOSED) st).
    intros s h' G. rewrite connections_cleanup in G.
    apply map_get_delete_Some in G. destruct G as [N G].
    change (connections st1) with (connections st) in G.
    destruct (I s h' G) as (L & E & V').
    assert (S1 : forall x, sessionId (ws_of st1 x) = sessionId (ws_of st x))
      by (intro x; apply (fields_set_readyState h CLOSED st x)).
    rewrite S1 in N.
    assert (D : h <> h') by (intros <-; congruence).
    rewrite (length_of_map sessionId st1)
      by (apply fields_cleanup, stable_sessionId).
    rewrite (field_of_map sessionId st1)
      by (apply fields_cleanup, stable_sessionId).
    rewrite live_ws_of, (field_of_map readyState st1)
      by (apply fields_cleanup, stable_readyState).
    rewrite <- live_ws_of. unfold st1.
    rewrite length_update_ws, S1, live_set_readyState_other by exact D. auto.
  - exact I.
Qed.

(** X2.  In every state the deployment server reaches, an entry of the
    registry [connections] under session id [s] holds a connection that is in
    the store, that carries [s] as its session id, and that has not been
    closed: closing a connection takes its registration with it, so a
    [sync_request] is never forwarded by way of a stale entry. *)
Theorem registry_holds_current_connections (es : list event) (s : string)
    (h : handle) :
  let st := Cloud.run init es in
  map_get s (connections st) = Some h ->
  h < length (sockets st) /\ sessionId (ws_of st h) = s /\ live h st = true.
Proof.
  intro st.
  assert (I : forall es st0, registered st0 -> registered (Cloud.run st0 es)).
  { clear. induction es as [|e es IH]; intros st0 I0; simpl; [exact I0|].
    apply IH. now apply registered_step. }
  apply (I es init). intros s' h' G. discriminate.
Qed.

Lemma registry_holds_current_connections_witness :
  let st := Cloud.run init
              [Connection (Some "a") (Some "mobile") None "i" "j" 1%Z;
               Connection (Some "b") (Some "vr") None "i" "j" 2%Z;
               WsClose 0] in
  map_get "b" (connections st) = Some 1 /\
  1 < length (sockets st) /\ sessionId (ws_of st 1) = "b" /\ live 1 st = true.
Proof.
  cbv zeta. split; [reflexivity|].
  apply (registry_holds_current_connections
           [Connection (Some "a") (Some "mobile") None "i" "j" 1%Z;
            Connection (Some "b") (Some "vr") None "i" "j" 2%Z;
            WsClose 0] "b" 1).
  reflexivity.
Defined.

(** ** Participant entries and the connections they hold *)

(** The part of the room invariant that does not need session ids to be
    unique. *)
Record Tidy (st : Server) : Prop := {
  tidy_keyed : keyed st;
  tidy_placed : placed st;
  tidy_alive : alive st
}.

Lemma Tidy_core_eq st st' : core_eq st st' -> Tidy st -> Tidy st'.
Proof.
  intros C [K P A]. split;
    eauto using keyed_core_eq, placed_core_eq, alive_core_eq.
Qed.

Lemma Tidy_leaveRoom h0 st : Tidy st -> Tidy (leaveRoom h0 st).
Proof.
  intros [K P A]. split;
    auto using keyed_leaveRoom, placed_leaveRoom, alive_leaveRoom.
Qed.

Lemma Tidy_pre_leave h0 st : Tidy st -> Tidy (pre_leave h0 st).
Proof. unfold pre_leave. destruct (truthy _); auto using Tidy_leaveRoom. Qed.

Lemma Tidy_joinRoom h0 r0 now st :
  live h0 st = true -> truthy r0 = true -> Tidy st ->
  Tidy (Cloud.joinRoom h0 r0 now st).
Proof.
  intros L T I. pose proof (live_lt _ _ L) as Lt.
  assert (K' : keyed (Cloud.joinRoom h0 r0 now st))
    by (apply keyed_joinRoom; [exact Lt|apply I]).
  revert K'. rewrite joinRoom_joined. intro K'.
  assert (N : forall r s, ~ refs (pre_leave h0 st) h0 r s)
    by (intros r s; apply unreferenced_pre_leave; apply I).
  destruct (core_pre_leave h0 st) as (E1 & W1).
  apply Tidy_pre_leave with (h0 := h0) in I.
  set (st1 := pre_leave h0 st) in *.
  destruct (core_joined h0 r0 now st1) as (E & W).
  eapply Tidy_core_eq; [apply core_eq_emit|].
  destruct I as [K P A]. split.
  - eapply keyed_core_eq; [|exact K'].
    split; [reflexivity|]. split; [reflexivity|]. auto.
  - intros h r s R. apply refs_joined in R. destruct R as [R|(-> & -> & ->)].
    + destruct (Nat.eq_dec h h0) as [->|D]; [now apply N in R|].
      destruct (W h) as (_ & _ & _ & ->); [|exact D]. eauto.
    + split; [|exact T]. apply roomId_joined. lia.
  - intros h r s R. destruct (W h) as (_ & _ & Er & _).
    rewrite (live_core _ _ _ Er).
    apply refs_joined in R. destruct R as [R|(-> & -> & ->)]; [eauto|].
    destruct (W1 h0) as (_ & _ & Er1 & _). now rewrite (live_core _ _ _ Er1).
Qed.

Lemma Tidy_handleMessage h m now st :
  live h st = true ->
  (type_is m "join_room" = true -> truthy (msg_roomId m) = true) ->
  Tidy st -> Tidy (Cloud.handleMessage h m now st).
Proof.
  intros L O I. unfold Cloud.handleMessage, Cloud.sendRoomList, sendError.
  destruct (type_is m "join_room"); [now apply Tidy_joinRoom; auto|].
  repeat match goal with |- context [if ?c then _ else _] => destruct c end;
    auto using Tidy_leaveRoom;
    (eapply Tidy_core_eq; [|exact I]); auto with relay.
Qed.

Lemma Tidy_cleanup h st : Tidy st -> Tidy (Cloud.cleanup h st).
Proof.
  intro I. unfold Cloud.cleanup.
  eapply (Tidy_core_eq (leaveRoom h _)); [now apply core_eq_same|].
  apply Tidy_leaveRoom.
  eapply Tidy_core_eq; [|exact I]. now apply core_eq_same.
Qed.

Lemma Tidy_connect st w c :
  Tidy st -> Tidy (with_connections c (with_sockets (sockets st ++ [w]) st)).
Proof.
  intros [K P A].
  set (st' := with_connections c (with_sockets (sockets st ++ [w]) st)).
  assert (O : forall h, h < length (sockets st) -> ws_of st' h = ws_of st h)
    by (intros h Lh; unfold st', ws_of; simpl; now rewrite app_nth1).
  split.
  - now apply keyed_connect.
  - intros h r s R. destruct (K h r s R) as [Lh _].
    rewrite (O h Lh). apply (P h r s R).
  - intros h r s R. destruct (K h r s R) as [Lh _].
    rewrite live_ws_of, (O h Lh), <- live_ws_of. eauto.
Qed.

Lemma Tidy_set_readyState h c st :
  (forall h' r s, refs st h' r s -> live h' st = true ->
                  live h' (update_ws h (set_readyState c) st) = true) ->
  Tidy st -> Tidy (update_ws h (set_readyState c) st).
Proof.
  intros Lv [K P A]. split.
  - intros h' r s R. destruct (K h' r s R) as [Lh E].
    rewrite length_update_ws. split; [exact Lh|].
    destruct (fields_set_readyState h c st h') as [-> _]. exact E.
  - intros h' r s R.
    destruct (fields_set_readyState h c st h') as [_ ->]. apply (P h' r s R).
  - intros h' r s R. apply (Lv h' r s R). apply (A h' r s R).
Qed.

Lemma Tidy_closing h st :
  live h st = true -> Tidy st -> Tidy (update_ws h (set_readyState CLOSING) st).
Proof.
  intros L I. pose proof (live_lt _ _ L) as Lt.
  apply Tidy_set_readyState; [|exact I].
  intros h' r s _ V. destruct (Nat.eq_dec h h') as [<-|N].
  - now rewrite live_set_readyState_same by exact Lt.
  - now rewrite live_set_readyState_other by exact N.
Qed.

Lemma Tidy_close h st :
  live h st = true -> Tidy st ->
  Tidy (Cloud.cleanup h (update_ws h (set_readyState CLOSED) st)).
Proof.
  intros L [K P A]. pose proof (live_lt _ _ L) as Lt.
  set (st' := update_ws h (set_readyState CLOSED) st).
  assert (K' : keyed st').
  { intros h' r s R. destruct (K h' r s R) as [Lh E]. unfold st'.
    rewrite length_update_ws. split; [exact Lh|].
    destruct (fields_set_readyState h CLOSED st h') as [-> _]. exact E. }
  assert (P' : placed st').
  { intros h' r s R. unfold st'.
    destruct (fields_set_readyState h CLOSED st h') as [_ ->]. apply (P h' r s R). }
  unfold Cloud.cleanup.
  set (st2 := with_connections _ st').
  assert (C : core_eq st' st2) by now apply core_eq_same.
  eapply (Tidy_core_eq (leaveRoom h st2)); [now apply core_eq_same|].
  pose proof (keyed_core_eq _ _ C K') as K2.
  pose proof (placed_core_eq _ _ C P') as P2.
  split.
  - now apply keyed_leaveRoom.
  - now apply placed_leaveRoom.
  - intros h' r s R.
    destruct (Nat.eq_dec h' h) as [->|N];
      [now apply unreferenced_leaveRoom in R|].
    apply refs_leaveRoom in R.
    destruct (core_leaveRoom h st2) as (_ & W). destruct (W h') as (_ & _ & E & _).
    rewrite (live_core _ _ _ E).
    change (live h' st' = true). unfold st'.
    rewrite live_set_readyState_other by congruence.
    apply (A h' r s). exact R.
Qed.

(** A [join_room] names a room: its [roomId] is a string that is not
    empty.  Every other event passes. *)
Definition names_room (e : event) : bool :=
  match e with
  | Message _ (JSONValue m) _ _ =>
      implb (type_is m "join_room") (truthy (msg_roomId m))
  | _ => true
  end.

Lemma Tidy_step st e : names_room e = true -> Tidy st -> Tidy (Cloud.step st e).
Proof.
  intros O I. destruct e; simpl in *.
  - unfold Cloud.onConnection.
    eapply Tidy_core_eq; [apply core_eq_send|].
    set (w := new_socket _ _ _ _).
    set (st2 := with_connections _ _).
    assert (I2 : Tidy st2) by now apply Tidy_connect.
    destruct (truthy roomIdParam) eqn:T; [|exact I2].
    apply Tidy_joinRoom; [|exact T|exact I2].
    rewrite live_ws_of. unfold st2, ws_of. simpl.
    rewrite app_nth2 by lia. now rewrite Nat.sub_diag.
  - destruct (live h st) eqn:L; [|exact I]. unfold Cloud.onMessage.
    destruct data; unfold sendError;
      try (eapply Tidy_core_eq; [|exact I];
           eapply core_eq_trans; [|apply core_eq_send];
           now apply core_eq_same).
    apply Tidy_handleMessage; [exact L| |].
    + intro J. rewrite J in O. exact O.
    + eapply Tidy_core_eq; [|exact I]. now apply core_eq_same.
  - destruct (live h st); [|exact I]. now apply Tidy_cleanup.
  - destruct (live h st) eqn:L; [|exact I]. now apply Tidy_closing.
  - destruct (live h st) eqn:L; [|exact I]. now apply Tidy_close.
  - eapply Tidy_core_eq; [|exact I]. now apply core_eq_same.
Qed.

Lemma Tidy_run es : forall st,
  forallb names_room es = true -> Tidy st -> Tidy (Cloud.run st es).
Proof.
  induction es as [|e es IH]; intros st O I; simpl in *; auto.
  apply andb_true_iff in O. destruct O as [O1 O2].
  apply IH; [exact O2|]. now apply Tidy_step.
Qed.

Lemma Tidy_init : Tidy init.
Proof.
  split; [apply keyed_init| |]; intros h r s (room & p & G & _); discriminate.
Qed.

Lemma In_participant_set_refs st r s p :
  In (s, p) (participant_set r st) -> refs st (p_ws p) r s.
Proof.
  unfold participant_set.
  destruct (map_get r (rooms st)) as [room|] eqn:G; [|contradiction].
  intro I. exists room, p. auto.
Qed.

(** X3.  As long as every [join_room] names a room, no participant entry of
    the deployment server outlives its connection or its membership: in
    every state reached, the connection an entry of room [r] under key [s]
    holds is in the store, is not closed, carries [s] as its session id and
    has [r] as its [roomId].  Session ids need not be unique for this. *)
Theorem participants_are_current (es : list event) :
  forallb names_room es = true ->
  let st := Cloud.run init es in
  forall r s p, In (s, p) (participant_set r st) ->
    p_ws p < length (sockets st)
    /\ live (p_ws p) st = true
    /\ sessionId (ws_of st (p_ws p)) = s
    /\ roomId (ws_of st (p_ws p)) = r
    /\ truthy r = true.
Proof.
  intros O st r s p I.
  destruct (Tidy_run es init O Tidy_init) as [K P A]. fold st in K, P, A.
  apply In_participant_set_refs in I.
  destruct (K _ _ _ I) as [L S], (P _ _ _ I) as [R T].
  pose proof (A _ _ _ I). auto.
Qed.

Definition current_trace : list event :=
  [Connection (Some "s") (Some "mobile") (Some "A") "i" "j" 1%Z;
   Connection (Some "s") (Some "vr") None "i" "j" 2%Z;
   Message 1 (join_room "A") "k" 3%Z;
   Message 0 (join_room "B") "k" 4%Z;
   WsClose 1].

Lemma participants_are_current_witness :
  let st := Cloud.run init current_trace in
  participant_set (Some "B") st =
    [("s", {| p_ws := 0; p_deviceType := "mobile"; joinedAt := 4 |})]
  /\ 0 < length (sockets st)
  /\ live 0 st = true
  /\ sessionId (ws_of st 0) = "s"
  /\ roomId (ws_of st 0) = Some "B"
  /\ truthy (Some "B") = true.
Proof.
  cbv zeta. split; [reflexivity|].
  apply (participants_are_current current_trace eq_refl (Some "B") "s"
           {| p_ws := 0; p_deviceType := "mobile"; joinedAt := 4 |}).
  vm_compute. auto.
Defined.

(** The condition on [join_room] is needed: a join of the empty code is not
    undone by the next join, and the entry it made is still there when the
    connection has closed. *)
Lemma stale_entry_after_empty_code :
  let st := Cloud.run init
              [Connection (Some "s") (Some "mobile") None "i" "j" 1%Z;
               Message 0 (join_room "") "k" 2%Z;
               Message 0 (join_room "B") "k" 3%Z;
               WsClose 0] in
  participant_set (Some "") st =
    [("s", {| p_ws := 0; p_deviceType := "mobile"; joinedAt := 2 |})]
  /\ live 0 st = false.
Proof. vm_compute. split; reflexivity. Qed.

(** ** What the close of a connection removes *)

Lemma member_leaveRoom_own h st :
  truthy (roomId (ws_of st h)) = true ->
  member (sessionId (ws_of st h)) (roomId (ws_of st h)) (leaveRoom h st) = false.
Proof.
  intro T.
  destruct (member _ _ (leaveRoom h st)) eqn:M; [|reflexivity].
  apply member_refs in M. destruct M as [h' R].
  now apply refs_leaveRoom_own in R.
Qed.

(** X4.  [cleanup] works by session id, not by connection.  When a
    connection closes, the deployment server is left with no registry entry
    and no rate counter under the session id of that connection and, if the
    connection had a room, with no participant of that room under that id,
    whichever connection those entries held; every other connection is as it
    was.  So a connection that came with the same id and is still open loses
    its registration and its place in the room to the close of the other. *)
Theorem close_clears_session_id (st : Server) (h : handle) :
  live h st = true ->
  let st' := Cloud.step st (WsClose h) in
  let s := sessionId (ws_of st h) in
  let r := roomId (ws_of st h) in
  map_get s (connections st') = None
  /\ map_get s (poseDataLimits st') = None
  /\ (truthy r = true -> member s r st' = false)
  /\ live h st' = false
  /\ (forall h', h' <> h -> ws_of st' h' = ws_of st h').
Proof.
  intros L st' s r. pose proof (live_lt _ _ L) as Lt.
  unfold st'. cbn [Cloud.step]. rewrite L.
  set (st1 := update_ws h (set_readyState CLOSED) st).
  assert (S1 : sessionId (ws_of st1 h) = s)
    by apply (fields_set_readyState h CLOSED st h).
  assert (R1 : roomId (ws_of st1 h) = r)
    by apply (fields_set_readyState h CLOSED st h).
  split; [|split; [|split; [|split]]].
  - rewrite connections_cleanup, S1. apply map_get_delete_same.
  - unfold Cloud.cleanup. cbn [poseDataLimits with_poseDataLimits].
    rewrite S1. apply map_get_delete_same.
  - intro T. unfold Cloud.cleanup. rewrite S1.
    set (st2 := with_connections _ st1).
    change (member s r (leaveRoom h st2) = false).
    rewrite <- S1, <- R1.
    change (ws_of st1 h) with (ws_of st2 h).
    apply member_leaveRoom_own.
    change (ws_of st2 h) with (ws_of st1 h). now rewrite R1.
  - rewrite live_ws_of.
    rewrite (field_of_map readyState st1)
      by (apply fields_cleanup, stable_readyState).
    unfold st1. now rewrite ws_of_update_same by exact Lt.
  - intros h' N. unfold Cloud.cleanup.
    set (st2 := with_connections _ st1).
    change (ws_of (leaveRoom h st2) h' = ws_of st h').
    destruct (core_leaveRoom h st2) as (_ & W).
    destruct (W h') as (_ & _ & _ & ->); [|exact N].
    change (ws_of st2 h') with (ws_of st1 h'). unfold st1.
    now rewrite ws_of_update_other by congruence.
Qed.

(** A peer that reconnects with the session id it had, into the room it was
    in, before the server has seen its first connection close. *)
Definition reconnected : Server :=
  Cloud.run init
    [Connection (Some "s") (Some "mobile") (Some "R") "i" "j" 1%Z;
     Connection (Some "s") (Some "mobile") (Some "R") "i" "j" 2%Z].

Lemma close_clears_session_id_witness :
  let st' := Cloud.step reconnected (WsClose 0) in
  (member "s" (Some "R") reconnected = true
   /\ map_get "s" (connections reconnected) = Some 1
   /\ is_open 1 st' = true
   /\ map_has (Some "R") (rooms st') = false)
  /\ map_get "s" (connections st') = None
  /\ map_get "s" (poseDataLimits st') = None
  /\ member "s" (Some "R") st' = false
  /\ live 0 st' = false
  /\ ws_of st' 1 = ws_of reconnected 1.
Proof.
  cbv zeta. split; [vm_compute; auto|].
  destruct (close_clears_session_id reconnected 0 eq_refl) as (A & B & C & D & E).
  split; [exact A|]. split; [exact B|]. split; [exact (C eq_refl)|].
  split; [exact D|]. apply E. discriminate.
Defined.







(** ** Who is told of a leave and of a join *)

Lemma map_delete_filter {V} (k : string) (m : omap string V) :
  map_delete k m = filter (fun e => negb (String.eqb (fst e) k)) m.
Proof.
  induction m as [|[k1 v1] m IH]; simpl; [reflexivity|].
  rewrite (String.eqb_sym k1 k).
  destruct (String.eqb k k1); simpl; now rewrite IH.
Qed.

Lemma filter_map_set_excluded {V} (f : string * V -> bool) (k : string) (v : V)
    (m : omap string V) :
  (forall v', f (k, v') = false) -> filter f (map_set k v m) = filter f m.
Proof.
  intro F. induction m as [|[k1 v1] m IH]; simpl.
  - now rewrite F.
  - destruct (String.eqb k k1) eqn:E; simpl.
    + apply String.eqb_eq in E. subst k1. now rewrite !F.
    + now rewrite IH.
Qed.

Lemma filter_twice {A} (f g : A -> bool) (l : list A) :
  filter f (filter g l) = filter (fun x => g x && f x) l.
Proof.
  induction l as [|x l IH]; simpl; [reflexivity|].
  destruct (g x); simpl; now rewrite IH.
Qed.

Lemma eligible_excluded st (s : string) (p : Participant) :
  eligible st (Some s) (s, p) = false.
Proof. unfold eligible. cbn [fst snd key_eqb option_string_Key option_string_eqb].
  now rewrite String.eqb_refl. Qed.

(** What a leave adds to the log: one [participant_left], written to the
    open connections of the entries under other session ids. *)
Lemma leaveRoom_notes h st room :
  truthy (roomId (ws_of st h)) = true ->
  map_get (roomId (ws_of st h)) (rooms st) = Some room ->
  out (leaveRoom h st) =
    out st ++
    Stringify (ParticipantLeft (sessionId (ws_of st h)) (deviceType (ws_of st h))) ::
    map (fun h' => WsSend h' (Json (ParticipantLeft (sessionId (ws_of st h))
                                                    (deviceType (ws_of st h)))))
        (recipients (roomId (ws_of st h)) (Some (sessionId (ws_of st h))) st).
Proof.
  intros T G.
  rewrite (leaveRoom_leaves _ _ _ T G). cbn [out update_ws with_sockets with_rooms emit].
  f_equal. unfold left_effects, deliveries, left_participants.
  cbn [rooms with_rooms]. rewrite map_get_set_same.
  cbn [participants with_participants]. f_equal.
  unfold recipients, participant_set. rewrite G.
  rewrite map_delete_filter, filter_twice, map_map. reflexivity.
Qed.

(** X6.  In every state the deployment server reaches, the leave of a
    connection that is in a room serializes one [participant_left] and
    writes it to the open connection of every entry the room has under
    another session id: to all who remain, and never to the connection that
    leaves. *)
Theorem leave_notifies_the_others (es : list event) (h : handle) :
  let st := Cloud.run init es in
  let ws := ws_of st h in
  let note := ParticipantLeft (sessionId ws) (deviceType ws) in
  truthy (roomId ws) = true ->
  map_has (roomId ws) (rooms st) = true ->
  out (leaveRoom h st) =
    out st ++ Stringify note ::
    map (fun h' => WsSend h' (Json note))
        (recipients (roomId ws) (Some (sessionId ws)) st)
  /\ ~ In h (recipients (roomId ws) (Some (sessionId ws)) st).
Proof.
  intros st ws note T M.
  assert (K : keyed st) by (apply keyed_run, keyed_init).
  apply map_has_true in M. destruct M as [room G]. fold ws in T, G. split.
  - exact (leaveRoom_notes h st room T G).
  - intro I. unfold recipients in I. apply in_map_iff in I.
    destruct I as ([s p] & E & I). cbn [snd] in E.
    apply filter_In in I. destruct I as [I F].
    assert (S : sessionId (ws_of st h) = s).
    { apply (K h (roomId ws) s). subst h. now apply In_participant_set_refs. }
    fold ws in S. subst s. now rewrite eligible_excluded in F.
Qed.

Lemma leave_notifies_the_others_witness :
  let st := Cloud.run init
              [Connection (Some "a") (Some "mobile") (Some "R") "i" "j" 1%Z;
               Connection (Some "b") (Some "vr") (Some "R") "i" "j" 2%Z;
               Connection (Some "c") (Some "desktop") (Some "R") "i" "j" 3%Z;
               WsClosing 2] in
  out (leaveRoom 0 st) =
    out st ++ [Stringify (ParticipantLeft "a" "mobile");
               WsSend 1 (Json (ParticipantLeft "a" "mobile"))]
  /\ ~ In 0 (recipients (Some "R") (Some "a") st).
Proof.
  cbv zeta.
  exact (leave_notifies_the_others
           [Connection (Some "a") (Some "mobile") (Some "R") "i" "j" 1%Z;
            Connection (Some "b") (Some "vr") (Some "R") "i" "j" 2%Z;
            Connection (Some "c") (Some "desktop") (Some "R") "i" "j" 3%Z;
            WsClosing 2] 0 eq_refl eq_refl).
Defined.

(** How [joinRoom] lists a participant entry in [room_joined]. *)
Definition info (st : Server) (e : string * Participant) : ParticipantInfo :=
  {| pi_sessionId := sessionId (ws_of st (p_ws (snd e)));
     pi_deviceType := deviceType (ws_of st (p_ws (snd e)));
     pi_joinedAt := joinedAt (snd e) |}.

(** X7.  A connection that is in no room joins a room the directory has, in
    a state the deployment server has reached.  The room keeps its creation
    time and its entries, in their order, and gets the entry of the joiner
    under the joiner's session id (last, or in the place of an entry already
    under that id).  The joiner is sent [room_joined] with the entries under
    other ids and the creation time of the room, and every open connection
    of those entries is sent [participant_joined]. *)
Theorem join_existing_room (es : list event) (h : handle) (r : option string)
    (now : Z) (room : Room) :
  let st := Cloud.run init es in
  let ws := ws_of st h in
  live h st = true ->
  truthy (roomId ws) = false ->
  map_get r (rooms st) = Some room ->
  let st' := Cloud.joinRoom h r now st in
  let reply := RoomJoined r
                 (map (info st) (map_delete (sessionId ws) (participants room)))
                 (created room) in
  let note := ParticipantJoined (sessionId ws) (deviceType ws) now in
  map_get r (rooms st') =
    Some {| id := id room; created := created room;
            participants :=
              map_set (sessionId ws)
                {| p_ws := h; p_deviceType := deviceType ws; joinedAt := now |}
                (participants room) |}
  /\ roomId (ws_of st' h) = r
  /\ out st' =
       out st ++
       (if is_open h st then [Stringify reply; WsSend h (Json reply)] else []) ++
       Stringify note ::
       map (fun h' => WsSend h' (Json note)) (recipients r (Some (sessionId ws)) st).
Proof.
  intros st ws Lv T G st' reply note. pose proof (live_lt _ _ Lv) as L.
  assert (K : keyed st) by (apply keyed_run, keyed_init).
  unfold st'. rewrite joinRoom_joined.
  assert (P : pre_leave h st = st) by (unfold pre_leave; fold ws; now rewrite T).
  rewrite P.
  destruct (core_joined h r now st) as (_ & W).
  assert (O : forall x, is_open x (joined h r now st) = is_open x st).
  { intro x. unfold is_open. destruct (W x) as (_ & _ & -> & _). reflexivity. }
  assert (J : joined_room h r now st =
              with_participants
                (map_set (sessionId ws)
                   {| p_ws := h; p_deviceType := deviceType ws; joinedAt := now |}
                   (participants room)) room)
    by (unfold joined_room; now rewrite G).
  assert (GJ : map_get r (rooms (joined h r now st)) = Some (joined_room h r now st))
    by (simpl; apply map_get_set_same).
  split; [|split].
  - cbn [rooms emit]. now rewrite GJ, J.
  - change (ws_of (emit ?l ?s) h) with (ws_of s h). now apply roomId_joined.
  - cbn [out emit]. change (out (joined h r now st)) with (out st). f_equal.
    unfold join_effects. rewrite O. f_equal.
    + assert (E : room_joined_envelope h r now st = reply); [|now rewrite E].
      unfold room_joined_envelope, reply. rewrite J.
      cbn [created with_participants]. f_equal.
      unfold participant_infos. cbn [participants with_participants].
      fold ws. rewrite filter_map_swap.
      cbn [pi_sessionId].
      rewrite (filter_ext_in _ (fun e => negb (String.eqb (fst e) (sessionId ws)))).
      * rewrite <- map_delete_filter, map_delete_set.
        apply map_ext_in. intros [s p] I. apply In_map_delete in I.
        destruct I as [I _]. unfold info. cbn [snd].
        destruct (W (p_ws p)) as (-> & -> & _). reflexivity.
      * intros [s p] I. cbn [fst snd]. apply In_map_set in I.
        destruct (W (p_ws p)) as (-> & _).
        destruct I as [E|I].
        -- injection E as -> ->. reflexivity.
        -- fold ws. f_equal. f_equal. apply (K (p_ws p) r s). exists room, p. auto.
    + unfold deliveries. rewrite GJ, J. cbn [participants with_participants].
      fold ws. fold note. f_equal.
      unfold recipients, participant_set. rewrite G, map_map.
      rewrite filter_map_set_excluded by (intro v'; apply eligible_excluded).
      f_equal. apply filter_ext. intros [s p]. unfold eligible. cbn [fst snd].
      now rewrite O.
Qed.

Lemma join_existing_room_witness :
  let st := Cloud.run init
              [Connection (Some "a") (Some "mobile") (Some "R") "i" "j" 1%Z;
               Connection (Some "b") (Some "vr") None "i" "j" 5%Z] in
  map_get (Some "R") (rooms (Cloud.joinRoom 1 (Some "R") 9%Z st)) =
    Some {| id := Some "R"; created := 1;
            participants :=
              [("a", {| p_ws := 0; p_deviceType := "mobile"; joinedAt := 1 |});
               ("b", {| p_ws := 1; p_deviceType := "vr"; joinedAt := 9 |})] |}.
Proof.
  cbv zeta.
  exact (proj1 (join_existing_room
           [Connection (Some "a") (Some "mobile") (Some "R") "i" "j" 1%Z;
            Connection (Some "b") (Some "vr") None "i" "j" 5%Z]
           1 (Some "R") 9%Z
           {| id := Some "R"; created := 1;
              participants :=
                [("a", {| p_ws := 0; p_deviceType := "mobile"; joinedAt := 1 |})] |}
           eq_refl eq_refl eq_refl)).
Defined.

(** ** The leave inside the join of a new connection *)

Lemma recipients_connect st w c r ex :
  keyed st ->
  recipients r ex (with_connections c (with_sockets (sockets st ++ [w]) st)) =
  recipients r ex st.
Proof.
  intro K. unfold recipients.
  change (participant_set r (with_connections c (with_sockets (sockets st ++ [w]) st)))
    with (participant_set r st).
  f_equal. apply filter_ext_in. intros [s p] I.
  apply In_participant_set_refs in I. destruct (K _ _ _ I) as [L _].
  unfold eligible, is_open. cbn [fst snd].
  change (ws_of (with_connections c (with_sockets (sockets st ++ [w]) st)) (p_ws p))
    with (ws_of (with_sockets (sockets st ++ [w]) st) (p_ws p)).
  now rewrite ws_of_connect by exact L.
Qed.

(** X8.  The connection handler assigns [ws.roomId] before it calls
    [joinRoom], and [joinRoom] starts by leaving the room [ws.roomId]
    names.  So when a connection arrives with a [roomId] the directory
    already has, the first thing the deployment server does is to announce
    that the newcomer has left: one [participant_left] for its session id,
    written to every open participant of the room under another id, before
    anything else is sent. *)
Theorem auto_join_announces_a_leave (es : list event)
    (s d r : option string) (id1 id2 : string) (now : Z) :
  let st := Cloud.run init es in
  let note := ParticipantLeft (or_else s id1) (or_else d "unknown") in
  truthy r = true ->
  map_has r (rooms st) = true ->
  exists rest,
    out (Cloud.step st (Connection s d r id1 id2 now)) =
    out st ++ Stringify note ::
    map (fun h' => WsSend h' (Json note)) (recipients r (Some (or_else s id1)) st)
    ++ rest.
Proof.
  intros st note T M.
  assert (K : keyed st) by (apply keyed_run, keyed_init).
  apply map_has_true in M. destruct M as [room G].
  cbn [Cloud.step]. unfold Cloud.onConnection. rewrite T.
  set (w := new_socket _ _ _ _).
  set (st2 := with_connections _ _).
  assert (W2 : ws_of st2 (length (sockets st)) = w)
    by apply (ws_of_connect_new st w).
  assert (P : pre_leave (length (sockets st)) st2 =
              leaveRoom (length (sockets st)) st2).
  { unfold pre_leave. rewrite W2. cbn [roomId w new_socket]. now rewrite T. }
  rewrite send_emit, joinRoom_joined, P. cbn [out emit].
  change (out (joined ?a ?b ?c ?x)) with (out x).
  assert (T2 : truthy (roomId (ws_of st2 (length (sockets st)))) = true)
    by now rewrite W2.
  assert (G2 : map_get (roomId (ws_of st2 (length (sockets st)))) (rooms st2) =
               Some room) by now rewrite W2.
  rewrite (leaveRoom_notes _ _ _ T2 G2). rewrite W2.
  cbn [roomId sessionId deviceType w new_socket].
  unfold st2 at 2 3. rewrite recipients_connect by exact K.
  change (out st2) with (out st). fold note.
  eexists. rewrite <- !app_assoc. reflexivity.
Qed.

Lemma auto_join_announces_a_leave_witness :
  let st := Cloud.run init
              [Connection (Some "a") (Some "mobile") (Some "R") "i" "j" 1%Z] in
  exists rest,
    out (Cloud.step st (Connection (Some "b") (Some "vr") (Some "R") "i" "j" 2%Z)) =
    out st ++ [Stringify (ParticipantLeft "b" "vr");
               WsSend 0 (Json (ParticipantLeft "b" "vr"))] ++ rest.
Proof.
  cbv zeta.
  exact (auto_join_announces_a_leave
           [Connection (Some "a") (Some "mobile") (Some "R") "i" "j" 1%Z]
           (Some "b") (Some "vr") (Some "R") "i" "j" 2%Z eq_refl eq_refl).
Defined.

(** ** The periodic sweep of the rate counters *)

Lemma In_keys_map_set {K V} `{Key K} (k k' : K) (v : V) (m : omap K V) :
  In k' (map fst (map_set k v m)) -> k' = k \/ In k' (map fst m).
Proof.
  intro I. apply in_map_iff in I. destruct I as ([k0 v0] & <- & I).
  apply In_map_set in I. destruct I as [E|I].
  - injection E as -> ->. now left.
  - right. apply in_map_iff. exists (k0, v0). auto.
Qed.

Lemma NoDup_keys_map_set {K V} `{Key K} (k : K) (v : V) (m : omap K V) :
  NoDup (map fst m) -> NoDup (map fst (map_set k v m)).
Proof.
  induction m as [|[k1 v1] m IH]; simpl; intro N.
  - constructor; [intros []|constructor].
  - inversion N as [|? ? N1 N2]; subst.
    destruct (key_eqb k k1) eqn:E; simpl.
    + apply key_eqb_eq in E. subst k1. now constructor.
    + constructor; [|auto]. intro I. apply In_keys_map_set in I.
      destruct I as [->|I]; [|contradiction].
      now rewrite key_eqb_refl in E.
Qed.

Lemma NoDup_keys_filter {K V} (f : K * V -> bool) (m : list (K * V)) :
  NoDup (map fst m) -> NoDup (map fst (filter f m)).
Proof.
  induction m as [|[k1 v1] m IH]; simpl; intro N; [constructor|].
  inversion N as [|? ? N1 N2]; subst.
  destruct (f (k1, v1)); simpl; [|auto].
  constructor; [|auto]. intro I. apply N1.
  apply in_map_iff in I. destruct I as (e & E & I).
  apply filter_In in I. apply in_map_iff. exists e. tauto.
Qed.

Lemma NoDup_keys_map_delete {K V} `{Key K} (k : K) (m : omap K V) :
  NoDup (map fst m) -> NoDup (map fst (map_delete k m)).
Proof.
  induction m as [|[k1 v1] m IH]; simpl; intro N; [constructor|].
  inversion N as [|? ? N1 N2]; subst.
  destruct (key_eqb k k1); simpl; [auto|].
  constructor; [|auto]. intro I. apply N1.
  apply in_map_iff in I. destruct I as ([k0 v0] & E & I). simpl in E. subst k0.
  apply In_map_delete in I. apply in_map_iff. exists (k1, v0). tauto.
Qed.

Lemma map_get_unique {K V} `{Key K} (k : K) (v : V) (m : omap K V) :
  NoDup (map fst m) -> In (k, v) m -> map_get k m = Some v.
Proof.
  induction m as [|[k1 v1] m IH]; simpl; intros N I; [contradiction|].
  inversion N as [|? ? N1 N2]; subst.
  destruct I as [E|I].
  - injection E as -> ->. now rewrite key_eqb_refl.
  - destruct (key_eqb k k1) eqn:E; [|auto].
    apply key_eqb_eq in E. subst k1. exfalso. apply N1.
    apply in_map_iff. exists (k, v). auto.
Qed.

(** A lookup after a [filter], in a map that has every key once. *)
Lemma map_get_filter {V} (f : string * V -> bool) (k : string) (m : omap string V) :
  NoDup (map fst m) ->
  map_get k (filter f m) =
  match map_get k m with
  | Some v => if f (k, v) then Some v else None
  | None => None
  end.
Proof.
  induction m as [|[k1 v1] m IH]; simpl; intro N; [reflexivity|].
  inversion N as [|? ? N1 N2]; subst.
  destruct (String.eqb k k1) eqn:E.
  - apply String.eqb_eq in E. subst k1.
    destruct (f (k, v1)); simpl; [now rewrite String.eqb_refl|].
    destruct (map_get k (filter f m)) as [v|] eqn:G; [|reflexivity].
    exfalso. apply N1. apply map_get_In, filter_In in G.
    apply in_map_iff. exists (k, v). tauto.
  - destruct (f (k1, v1)); simpl; [rewrite E|]; auto.
Qed.

Lemma poseDataLimits_handleMessage h m now st :
  poseDataLimits (Cloud.handleMessage h m now st) = poseDataLimits st \/
  exists k l, poseDataLimits (Cloud.handleMessage h m now st) =
              map_set k l (poseDataLimits st).
Proof.
  unfold Cloud.handleMessage, Cloud.sendRoomList, sendError, registerDevice.
  repeat match goal with |- context [if ?c then _ else _] => destruct c end;
    rewrite ?poseDataLimits_joinRoom, ?poseDataLimits_leaveRoom,
      ?poseDataLimits_send; auto.
  - right. unfold Cloud.handlePoseData.
    repeat match goal with |- context [if ?c then _ else _] => destruct c end;
      rewrite ?broadcastToRoom_emit; eexists; eexists; reflexivity.
  - left. destruct (handleSyncRequest_shape h m now st) as (l & ->). reflexivity.
Qed.

(** [poseDataLimits] has every session id once. *)
Definition counted_once (st : Server) : Prop := NoDup (map fst (poseDataLimits st)).

Lemma counted_once_step st e : counted_once st -> counted_once (Cloud.step st e).
Proof.
  unfold counted_once. intro N. destruct e; simpl.
  - unfold Cloud.onConnection. rewrite poseDataLimits_send.
    destruct (truthy roomIdParam); [rewrite poseDataLimits_joinRoom|]; exact N.
  - destruct (live h st); [|exact N]. unfold Cloud.onMessage, sendError.
    destruct data; rewrite ?poseDataLimits_send; try exact N.
    destruct (poseDataLimits_handleMessage h m now
                (with_messageCount (messageCount st + 1) st)) as [->|(k & l & ->)];
      [exact N|now apply NoDup_keys_map_set].
  - destruct (live h st); [|exact N]. unfold Cloud.cleanup. simpl.
    rewrite poseDataLimits_leaveRoom. now apply NoDup_keys_map_delete.
  - destruct (live h st); exact N.
  - destruct (live h st); [|exact N]. unfold Cloud.cleanup. simpl.
    rewrite poseDataLimits_leaveRoom. now apply NoDup_keys_map_delete.
  - now apply NoDup_keys_filter.
Qed.

Lemma counted_once_run es : forall st,
  counted_once st -> counted_once (Cloud.run st es).
Proof.
  induction es as [|e es IH]; intros st N; simpl; auto.
  apply IH. now apply counted_once_step.
Qed.

Lemma next_limit_sweep sid now t st :
  counted_once st -> (now <= t)%Z ->
  next_limit sid t (Cloud.sweep now st) = next_limit sid t st.
Proof.
  intros N Le. unfold next_limit, Cloud.sweep.
  cbn [poseDataLimits with_poseDataLimits].
  rewrite (map_get_filter _ _ _ N).
  destruct (map_get sid (poseDataLimits st)) as [l|]; [|reflexivity].
  cbn [snd]. destruct (now >? resetTime l + 60000)%Z eqn:Q; [|reflexivity].
  cbn [negb resetTime].
  replace (t >? t + 1000)%Z with false by lia.
  replace (t >? resetTime l)%Z with true by lia. reflexivity.
Qed.

(** X9.  The periodic sweep of [poseDataLimits] only collects garbage.  In
    every state the deployment server reaches, the sweep keeps the counters
    whose reset time is not more than a minute past, each as it was, and
    drops the others; and a [pose_data] message that arrives after the sweep
    is treated as it would have been without the sweep: the same broadcast
    or the same silence, and the same counter for the session afterwards. *)
Theorem sweep_keeps_the_limiter (es : list event) (h : handle) (m : message)
    (now t : Z) :
  let st := Cloud.run init es in
  let swept := Cloud.sweep now st in
  (now <= t)%Z ->
  type_is m "pose_data" = true ->
  (forall k l, map_get k (poseDataLimits swept) = Some l <->
               map_get k (poseDataLimits st) = Some l /\
               (now <= resetTime l + 60000)%Z)
  /\ out (Cloud.onMessage h (JSONValue m) t swept) =
     out (Cloud.onMessage h (JSONValue m) t st)
  /\ map_get (sessionId (ws_of st h))
       (poseDataLimits (Cloud.onMessage h (JSONValue m) t swept)) =
     map_get (sessionId (ws_of st h))
       (poseDataLimits (Cloud.onMessage h (JSONValue m) t st))
  /\ rooms swept = rooms st /\ sockets swept = sockets st
  /\ connections swept = connections st /\ out swept = out st.
Proof.
  intros st swept Le Ty.
  assert (N : counted_once st) by (apply counted_once_run; constructor).
  split; [|split; [|split; [|repeat split]]].
  - intros k l. unfold swept, Cloud.sweep. cbn [poseDataLimits with_poseDataLimits].
    rewrite (map_get_filter _ _ _ N).
    destruct (map_get k (poseDataLimits st)) as [l'|]; [|split; [|intros []]; discriminate].
    cbn [snd]. destruct (now >? resetTime l' + 60000)%Z eqn:Q; cbn [negb]; split.
    + discriminate.
    + intros [[= ->] B]. lia.
    + intros [= ->]. split; [reflexivity|lia].
    + intros [E _]. exact E.
  - rewrite !(onMessage_pose_data _ _ _ _ Ty). cbn zeta. cbn [out emit].
    change (ws_of swept h) with (ws_of st h).
    rewrite (next_limit_sweep _ _ _ _ N Le). reflexivity.
  - rewrite !(onMessage_pose_data _ _ _ _ Ty). cbn zeta.
    cbn [poseDataLimits emit with_poseDataLimits].
    change (ws_of swept h) with (ws_of st h).
    rewrite !map_get_set_same. now rewrite (next_limit_sweep _ _ _ _ N Le).
Qed.

Definition pose_frame : message :=
  {| msg_type := Some "pose_data"; msg_roomId := None; msg_timestamp := Some 9%Z;
     landmarks := Some "[]"; metadata := None; msg_capabilities := None;
     msg_deviceInfo := None; targetSession := None |}.

Definition swept_trace : list event :=
  [Connection (Some "a") (Some "mobile") (Some "R") "i" "j" 1%Z;
   Connection (Some "b") (Some "vr") (Some "R") "i" "j" 2%Z;
   Message 0 (JSONValue pose_frame) "k" 10%Z].

Lemma sweep_keeps_the_limiter_witness :
  map_get "a" (poseDataLimits (Cloud.run init swept_trace)) =
    Some {| count := 1; resetTime := 1010 |}
  /\ poseDataLimits (Cloud.sweep 70000 (Cloud.run init swept_trace)) = []
  /\ out (Cloud.onMessage 0 (JSONValue pose_frame) 70001
            (Cloud.sweep 70000 (Cloud.run init swept_trace))) =
     out (Cloud.onMessage 0 (JSONValue pose_frame) 70001 (Cloud.run init swept_trace)).
Proof.
  split; [reflexivity|]. split; [reflexivity|].
  refine (proj1 (proj2 (sweep_keeps_the_limiter swept_trace 0 pose_frame
                          70000 70001 _ eq_refl))).
  lia.
Defined.

(** ** The connection counters of the development server *)

Definition not_closed (w : WebSocket) : bool :=
  negb (ReadyState_eqb (readyState w) CLOSED).

(** The connections of the store that have not been closed. *)
Definition open_connections (st : Server) : list WebSocket :=
  filter not_closed (sockets st).

Lemma not_closed_of_map st st' :
  map readyState (sockets st') = map readyState (sockets st) ->
  length (open_connections st') = length (open_connections st).
Proof.
  unfold open_connections. generalize (sockets st) (sockets st').
  induction l as [|w l IH]; intros [|w' l'] E; try discriminate; [reflexivity|].
  simpl in E. injection E as E1 E2. simpl.
  assert (N : not_closed w' = not_closed w) by (unfold not_closed; now rewrite E1).
  rewrite N. destruct (not_closed w); simpl; rewrite (IH l' E2); reflexivity.
Qed.

Lemma open_connections_alter c h l w :
  nth_error l h = Some w -> not_closed w = true ->
  length (filter not_closed (list_alter (set_readyState c) h l)) +
  (if ReadyState_eqb c CLOSED then 1 else 0) =
  length (filter not_closed l).
Proof.
  revert h. induction l as [|x l IH]; intros [|h] E N; simpl in *; try discriminate.
  - injection E as ->. rewrite N. unfold not_closed at 1. simpl.
    destruct (ReadyState_eqb c CLOSED); simpl; lia.
  - specialize (IH h E N). destruct (not_closed x); simpl; lia.
Qed.

Lemma deviceMetrics_leaveRoom h st :
  deviceMetrics (leaveRoom h st) = deviceMetrics st.
Proof. leave_cases h st room T G; reflexivity. Qed.

Lemma deviceMetrics_Local_joinRoom h r now st :
  deviceMetrics (Local.joinRoom h r now st) = deviceMetrics st.
Proof.
  rewrite Local_joinRoom_Cloud, pairing_check_emit, joinRoom_joined. simpl.
  unfold pre_leave. destruct (truthy _); [apply deviceMetrics_leaveRoom|reflexivity].
Qed.

Lemma fields_Local_joinRoom {B} (g : WebSocket -> B) h r now st :
  stable g -> map g (sockets (Local.joinRoom h r now st)) = map g (sockets st).
Proof.
  intro S. rewrite Local_joinRoom_Cloud, pairing_check_emit.
  change (sockets (emit ?l ?s)) with (sockets s). now apply fields_joinRoom.
Qed.

(** The two counters of [deviceMetrics] that count connections. *)
Definition connection_counters (st : Server) : Z * Z :=
  (totalConnections (deviceMetrics st), currentConnections (deviceMetrics st)).

Lemma Local_onMessage_counters h data rid now st :
  map readyState (sockets (Local.onMessage h data rid now st)) =
    map readyState (sockets st)
  /\ connection_counters (Local.onMessage h data rid now st) =
     connection_counters st.
Proof.
  unfold connection_counters, Local.onMessage.
  destruct data as [| |m]; unfold sendError;
    rewrite ?send_emit; try (split; reflexivity).
  unfold Local.handleMessage, Local.sendStats, sendError, Local.handlePoseData.
  repeat match goal with |- context [if ?c then _ else _] => destruct c end;
    rewrite ?send_emit, ?broadcastToRoom_emit;
    cbn [sockets deviceMetrics emit with_deviceMetrics];
    rewrite ?deviceMetrics_Local_joinRoom, ?deviceMetrics_leaveRoom;
    rewrite ?fields_Local_joinRoom, ?fields_leaveRoom by apply stable_readyState;
    split; reflexivity.
Qed.

Definition counters_exact (st : Server) : Prop :=
  totalConnections (deviceMetrics st) = Z.of_nat (length (sockets st)) /\
  currentConnections (deviceMetrics st) = Z.of_nat (length (open_connections st)).

Lemma counters_exact_frame st st' :
  map readyState (sockets st') = map readyState (sockets st) ->
  connection_counters st' = connection_counters st ->
  counters_exact st -> counters_exact st'.
Proof.
  intros R C [T U]. unfold connection_counters in C. injection C as C1 C2.
  unfold counters_exact.
  rewrite C1, C2, (not_closed_of_map _ _ R), (length_of_map _ _ _ R). auto.
Qed.

Lemma counters_exact_step st e : counters_exact st -> counters_exact (Local.step st e).
Proof.
  intro I. destruct e; simpl.
  - unfold Local.onConnection. set (w := new_socket _ _ _ _).
    set (st2 := with_deviceMetrics _ _).
    assert (I2 : counters_exact st2).
    { destruct I as [T U]. unfold counters_exact, open_connections, st2.
      cbn [deviceMetrics with_deviceMetrics with_connections with_sockets sockets
           Local.bump_totalConnections totalConnections currentConnections].
      rewrite filter_app, !length_app. cbn [filter w new_socket not_closed readyState
        ReadyState_eqb negb length].
      unfold open_connections in U. rewrite T, U. split; lia. }
    revert I2. apply counters_exact_frame.
    + rewrite sockets_send.
      destruct (truthy roomIdParam);
        [apply fields_Local_joinRoom, stable_readyState|reflexivity].
    + unfold connection_counters. rewrite send_emit. cbn [deviceMetrics emit].
      destruct (truthy roomIdParam);
        [now rewrite deviceMetrics_Local_joinRoom|reflexivity].
  - destruct (live h st); [|exact I]. revert I. apply counters_exact_frame.
    + apply Local_onMessage_counters.
    + apply Local_onMessage_counters.
  - destruct (live h st); [|exact I]. revert I. apply counters_exact_frame.
    + unfold Local.cleanup. now rewrite fields_leaveRoom by apply stable_readyState.
    + unfold connection_counters, Local.cleanup.
      now rewrite deviceMetrics_leaveRoom.
  - destruct (live h st) eqn:L; [|exact I].
    destruct I as [T U]. unfold counters_exact, open_connections.
    cbn [update_ws with_sockets sockets deviceMetrics].
    rewrite length_list_alter. split; [exact T|]. rewrite U.
    unfold live, socket in L.
    destruct (nth_error (sockets st) h) as [w|] eqn:E; [|discriminate].
    pose proof (open_connections_alter CLOSING h _ w E L) as C.
    simpl in C. unfold open_connections. lia.
  - destruct (live h st) eqn:L; [|exact I].
    set (st1 := with_deviceMetrics _ _).
    assert (I1 : counters_exact st1).
    { destruct I as [T U]. unfold counters_exact, open_connections, st1.
      cbn [update_ws with_sockets with_deviceMetrics sockets deviceMetrics
           Local.drop_currentConnections totalConnections currentConnections].
      rewrite length_list_alter. split; [exact T|]. rewrite U.
      unfold live, socket in L.
      destruct (nth_error (sockets st) h) as [w|] eqn:E; [|discriminate].
      pose proof (open_connections_alter CLOSED h _ w E L) as C.
      simpl in C. unfold open_connections. lia. }
    revert I1. apply counters_exact_frame.
    + unfold Local.cleanup. now rewrite fields_leaveRoom by apply stable_readyState.
    + unfold connection_counters, Local.cleanup.
      now rewrite deviceMetrics_leaveRoom.
  - exact I.
Qed.

(** X10.  The connection counters of the development server are exact.
    After any sequence of events, [deviceMetrics.totalConnections] is the
    number of connections that have arrived and
    [deviceMetrics.currentConnections] the number of those that have not
    closed; so the second is never negative and never more than the first.
    An [error] alone does not count as a close. *)
Theorem Local_counters_are_exact (es : list event) :
  let st := Local.run init es in
  totalConnections (deviceMetrics st) = Z.of_nat (length (sockets st))
  /\ currentConnections (deviceMetrics st) =
     Z.of_nat (length (open_connections st))
  /\ (0 <= currentConnections (deviceMetrics st)
        <= totalConnections (deviceMetrics st))%Z.
Proof.
  intro st.
  assert (I : counters_exact st).
  { unfold st. generalize init (conj eq_refl eq_refl : counters_exact init).
    induction es as [|e es IH]; intros st0 I0; simpl; [exact I0|].
    apply IH. now apply counters_exact_step. }
  destruct I as [T U]. split; [exact T|]. split; [exact U|].
  rewrite T, U. unfold open_connections.
  pose proof (filter_length_le not_closed (sockets st)). lia.
Qed.

(** ** The room list *)

Lemma In_participant_set_leaveRoom h0 st r s p :
  In (s, p) (participant_set r (leaveRoom h0 st)) -> In (s, p) (participant_set r st).
Proof.
  leave_cases h0 st room T G; [|solve [auto]..].
  unfold participant_set. cbn [rooms update_ws with_sockets with_rooms].
  unfold left_rooms.
  destruct (key_eq_dec (roomId (ws_of st h0)) r) as [<-|N].
  - rewrite G. destruct (Nat.eqb _ 0).
    + now rewrite map_get_delete_same.
    + rewrite map_get_set_same. cbn [participants with_participants].
      intro I. now apply In_map_delete in I.
  - destruct (Nat.eqb _ 0);
      now rewrite ?map_get_delete_other, map_get_set_other by assumption.
Qed.

Lemma In_participant_set_joined h0 r0 now st1 r s p :
  In (s, p) (participant_set r (joined h0 r0 now st1)) ->
  In (s, p) (participant_set r st1) \/
  (r = r0 /\
   p = {| p_ws := h0; p_deviceType := deviceType (ws_of st1 h0); joinedAt := now |}).
Proof.
  unfold participant_set. cbn [rooms joined update_ws with_sockets with_rooms].
  destruct (key_eq_dec r0 r) as [<-|N].
  - rewrite map_get_set_same. unfold joined_room.
    cbn [participants with_participants]. intro I.
    apply In_map_set in I. destruct I as [E|I].
    + injection E as -> ->. auto.
    + left. destruct (map_get r0 (rooms st1)); [exact I|contradiction].
  - rewrite map_get_set_other by assumption. auto.
Qed.

(** The device type an entry records is that of the connection it holds. *)
Definition typed (st : Server) : Prop :=
  forall r s p, In (s, p) (participant_set r st) ->
    p_deviceType p = deviceType (ws_of st (p_ws p)).

Lemma typed_frame st st' :
  rooms st' = rooms st ->
  map deviceType (sockets st') = map deviceType (sockets st) ->
  typed st -> typed st'.
Proof.
  intros R D I r s p. unfold participant_set. rewrite R. intro E.
  rewrite (field_of_map _ _ _ _ D). exact (I r s p E).
Qed.

Lemma typed_leaveRoom h st : typed st -> typed (leaveRoom h st).
Proof.
  intros I r s p E. apply In_participant_set_leaveRoom in E.
  rewrite (field_of_map deviceType st) by (apply fields_leaveRoom, stable_deviceType).
  exact (I r s p E).
Qed.

Lemma typed_joinRoom h r0 now st : typed st -> typed (Cloud.joinRoom h r0 now st).
Proof.
  intro I. rewrite joinRoom_joined.
  assert (I1 : typed (pre_leave h st))
    by (unfold pre_leave; destruct (truthy _); auto using typed_leaveRoom).
  destruct (core_joined h r0 now (pre_leave h st)) as (_ & W).
  intros r s p E.
  change (participant_set r (emit ?l ?x)) with (participant_set r x) in E.
  change (ws_of (emit ?l ?x) ?y) with (ws_of x y).
  destruct (W (p_ws p)) as (_ & -> & _).
  apply In_participant_set_joined in E. destruct E as [E|[_ ->]].
  - exact (I1 r s p E).
  - reflexivity.
Qed.

Lemma typed_handleMessage h m now st :
  typed st -> typed (Cloud.handleMessage h m now st).
Proof.
  intro I. unfold Cloud.handleMessage, Cloud.sendRoomList, sendError.
  repeat match goal with |- context [if ?c then _ else _] => destruct c end;
    auto using typed_joinRoom, typed_leaveRoom;
    (eapply typed_frame; [| |exact I]);
    rewrite ?rooms_handlePoseData, ?rooms_registerDevice, ?rooms_send,
      ?rooms_handleSyncRequest, ?sockets_handlePoseData,
      ?sockets_handleSyncRequest, ?sockets_send,
      ?fields_registerDevice by apply stable_deviceType; reflexivity.
Qed.

Lemma typed_cleanup h st : typed st -> typed (Cloud.cleanup h st).
Proof.
  intro I. unfold Cloud.cleanup.
  eapply (typed_frame (leaveRoom h _)); [reflexivity|reflexivity|].
  apply typed_leaveRoom. revert I. now apply typed_frame.
Qed.

Lemma typed_step st e : keyed st -> typed st -> typed (Cloud.step st e).
Proof.
  intros K I. destruct e; simpl.
  - unfold Cloud.onConnection.
    set (w := new_socket _ _ _ _).
    set (st2 := with_connections _ _).
    assert (I2 : typed st2).
    { intros r s p E.
      change (participant_set r st2) with (participant_set r st) in E.
      destruct (K _ _ _ (In_participant_set_refs _ _ _ _ E)) as [L _].
      change (ws_of st2 (p_ws p)) with
        (ws_of (with_sockets (sockets st ++ [w]) st) (p_ws p)).
      rewrite ws_of_connect by exact L. exact (I r s p E). }
    eapply typed_frame; [apply rooms_send|now rewrite sockets_send|].
    destruct (truthy roomIdParam); [now apply typed_joinRoom|exact I2].
  - destruct (live h st); [|exact I]. unfold Cloud.onMessage, sendError.
    destruct data;
      try (revert I; apply typed_frame;
           [now rewrite rooms_send|now rewrite sockets_send]).
    apply typed_handleMessage. revert I. now apply typed_frame.
  - destruct (live h st); [|exact I]. now apply typed_cleanup.
  - destruct (live h st); [|exact I]. revert I. apply typed_frame; [reflexivity|].
    simpl. now apply map_list_alter.
  - destruct (live h st); [|exact I]. apply typed_cleanup.
    revert I. apply typed_frame; [reflexivity|].
    simpl. now apply map_list_alter.
  - exact I.
Qed.

Lemma typed_run es : forall st, keyed st -> typed st -> typed (Cloud.run st es).
Proof.
  induction es as [|e es IH]; intros st K I; simpl; auto.
  apply IH; [now apply keyed_step|now apply typed_step].
Qed.

(** The directory has every room code once. *)
Definition listed_once (st : Server) : Prop := NoDup (map fst (rooms st)).

Lemma listed_once_leaveRoom h st : listed_once st -> listed_once (leaveRoom h st).
Proof.
  unfold listed_once. intro N.
  leave_cases h st room T G; [|exact N..].
  cbn [rooms update_ws with_sockets with_rooms]. unfold left_rooms.
  destruct (Nat.eqb _ 0);
    [apply NoDup_keys_map_delete|]; now apply NoDup_keys_map_set.
Qed.

Lemma listed_once_joinRoom h r now st :
  listed_once st -> listed_once (Cloud.joinRoom h r now st).
Proof.
  unfold listed_once. intro N. rewrite joinRoom_joined.
  cbn [rooms emit joined update_ws with_sockets with_rooms].
  apply NoDup_keys_map_set. unfold pre_leave.
  destruct (truthy _); [now apply listed_once_leaveRoom|exact N].
Qed.

Lemma listed_once_handleMessage h m now st :
  listed_once st -> listed_once (Cloud.handleMessage h m now st).
Proof.
  intro I. unfold Cloud.handleMessage, Cloud.sendRoomList, sendError.
  repeat match goal with |- context [if ?c then _ else _] => destruct c end;
    auto using listed_once_joinRoom, listed_once_leaveRoom;
    unfold listed_once;
    now rewrite ?rooms_handlePoseData, ?rooms_registerDevice, ?rooms_send,
      ?rooms_handleSyncRequest.
Qed.

Lemma listed_once_step st e : listed_once st -> listed_once (Cloud.step st e).
Proof.
  intro I. destruct e; simpl.
  - unfold Cloud.onConnection, listed_once. rewrite rooms_send.
    destruct (truthy roomIdParam); [now apply listed_once_joinRoom|exact I].
  - destruct (live h st); [|exact I]. unfold Cloud.onMessage, sendError.
    destruct data; try (unfold listed_once; now rewrite rooms_send).
    now apply listed_once_handleMessage.
  - destruct (live h st); [|exact I]. unfold Cloud.cleanup.
    change (listed_once (leaveRoom h
              (with_connections
                 (map_delete (sessionId (ws_of st h)) (connections st)) st))).
    now apply listed_once_leaveRoom.
  - destruct (live h st); exact I.
  - destruct (live h st); [|exact I]. unfold Cloud.cleanup.
    match goal with
    | |- listed_once (with_poseDataLimits _ (leaveRoom ?x ?y)) =>
        change (listed_once (leaveRoom x y))
    end.
    now apply listed_once_leaveRoom.
  - exact I.
Qed.

Lemma listed_once_run es : forall st, listed_once st -> listed_once (Cloud.run st es).
Proof.
  induction es as [|e es IH]; intros st I; simpl; auto.
  apply IH. now apply listed_once_step.
Qed.

(** X11.  The answer to [room_list], in any state the deployment server
    reaches, for a requester whose connection is open: one [room_list]
    envelope, written to the requester alone, that lists every room of the
    directory once, under its code and with its creation time; no room it
    lists is empty; and the devices of a room are the device types of the
    connections its participant entries hold, as many as it has
    participants. *)
Theorem room_list_is_accurate (es : list event) (h : handle) (m : message)
    (now : Z) :
  let st := Cloud.run init es in
  let listing := map room_summary (rooms st) in
  type_is m "room_list" = true ->
  is_open h st = true ->
  Cloud.handleMessage h m now st =
    emit [Stringify (RoomList listing); WsSend h (Json (RoomList listing))] st
  /\ NoDup (map rs_id listing)
  /\ (forall r room, map_get r (rooms st) = Some room ->
        In (room_summary (r, room)) listing)
  /\ (forall e, In e listing ->
        exists room,
          map_get (rs_id e) (rooms st) = Some room
          /\ rs_created e = created room
          /\ rs_participants e = length (participants room)
          /\ 0 < rs_participants e
          /\ rs_devices e =
             map (fun x => deviceType (ws_of st (p_ws (snd x)))) (participants room)).
Proof.
  intros st listing Ty O.
  assert (K : keyed st) by (apply keyed_run, keyed_init).
  assert (T : typed st)
    by (apply typed_run; [apply keyed_init|intros r s p []]).
  assert (N : listed_once st) by (apply listed_once_run; constructor).
  assert (E : rooms_nonempty st) by (apply rooms_nonempty_run, rooms_nonempty_init).
  split; [|split; [|split]].
  - apply type_is_eq in Ty. unfold Cloud.handleMessage, type_is. rewrite Ty.
    cbn. unfold Cloud.sendRoomList. rewrite send_emit, O. reflexivity.
  - unfold listing. rewrite map_map. exact N.
  - intros r room G. unfold listing. apply in_map. now apply map_get_In.
  - intros e I. unfold listing in I. apply in_map_iff in I.
    destruct I as ([r room] & <- & I).
    pose proof (map_get_unique _ _ _ N I) as G.
    exists room. cbn [room_summary rs_id rs_created rs_participants rs_devices fst snd].
    split; [exact G|]. split; [reflexivity|]. split; [reflexivity|]. split.
    + unfold map_size. pose proof (E r room G).
      destruct (participants room); [congruence|simpl; lia].
    + apply map_ext_in. intros [s p] Ip. cbn [snd].
      apply (T r s p). unfold participant_set. now rewrite G.
Qed.

Lemma room_list_is_accurate_witness :
  let st := Cloud.run init
              [Connection (Some "a") (Some "mobile") (Some "R") "i" "j" 1%Z;
               Connection (Some "b") (Some "vr") (Some "R") "i" "j" 2%Z;
               Connection (Some "c") (Some "desktop") (Some "Q") "i" "j" 3%Z;
               WsClose 2] in
  let listing := [{| rs_id := Some "R"; rs_created := 1; rs_participants := 2;
                     rs_devices := ["mobile"; "vr"] |}] in
  Cloud.handleMessage 0
    {| msg_type := Some "room_list"; msg_roomId := None; msg_timestamp := None;
       landmarks := None; metadata := None; msg_capabilities := None;
       msg_deviceInfo := None; targetSession := None |} 4%Z st =
  emit [Stringify (RoomList listing); WsSend 0 (Json (RoomList listing))] st.
Proof.
  cbv zeta.
  exact (proj1 (room_list_is_accurate
           [Connection (Some "a") (Some "mobile") (Some "R") "i" "j" 1%Z;
            Connection (Some "b") (Some "vr") (Some "R") "i" "j" 2%Z;
            Connection (Some "c") (Some "desktop") (Some "Q") "i" "j" 3%Z;
            WsClose 2] 0
           {| msg_type := Some "room_list"; msg_roomId := None; msg_timestamp := None;
              landmarks := None; metadata := None; msg_capabilities := None;
              msg_deviceInfo := None; targetSession := None |} 4%Z
           eq_refl eq_refl)).
Defined.

(** ** The two servers keep the same rooms *)

(** The events of the development server as the deployment server can take
    them: [create_room], which the deployment server does not know, is the
    [join_room] of the code [generateRoomId()] returned. *)
Definition as_join (e : event) : event :=
  match e with
  | Message h (JSONValue m) rid now =>
      if type_is m "create_room" then Message h (join_room rid) rid now else e
  | _ => e
  end.

(** A [ws] object without what [registerDevice] stores in it. *)
Definition unregistered (w : WebSocket) : WebSocket := set_device None None w.

(** Two states with the same rooms and the same registry, whose [ws]
    objects differ at most in what [registerDevice] stores. *)
Definition alike (a b : Server) : Prop :=
  map unregistered (sockets a) = map unregistered (sockets b)
  /\ rooms a = rooms b /\ connections a = connections b.

Lemma map_list_alter_comm {A B} (g : A -> B) (f : A -> A) (f' : B -> B) n l :
  (forall x, g (f x) = f' (g x)) ->
  map g (list_alter f n l) = list_alter f' n (map g l).
Proof.
  intro F. revert n. induction l as [|x l IH]; intros [|n]; simpl; auto.
  - now rewrite F.
  - now rewrite IH.
Qed.

Lemma alike_ws a b h :
  alike a b ->
  sessionId (ws_of a h) = sessionId (ws_of b h)
  /\ deviceType (ws_of a h) = deviceType (ws_of b h)
  /\ roomId (ws_of a h) = roomId (ws_of b h)
  /\ readyState (ws_of a h) = readyState (ws_of b h).
Proof.
  intros (S & _). pose proof (field_of_map unregistered b a h S) as E.
  repeat split;
    [exact (f_equal sessionId E)|exact (f_equal deviceType E)
    |exact (f_equal roomId E)|exact (f_equal readyState E)].
Qed.

Lemma alike_live a b h : alike a b -> live h a = live h b.
Proof.
  intro A. rewrite !live_ws_of.
  destruct (alike_ws a b h A) as (_ & _ & _ & ->). reflexivity.
Qed.

Lemma alike_length a b : alike a b -> length (sockets a) = length (sockets b).
Proof. intros (S & _). exact (length_of_map unregistered b a S). Qed.

(** A handler that leaves the sockets, the rooms and the registry alone. *)
Definition untouched (st st' : Server) : Prop :=
  sockets st' = sockets st /\ rooms st' = rooms st /\ connections st' = connections st.

Lemma alike_untouched a a' b b' :
  untouched a a' -> untouched b b' -> alike a b -> alike a' b'.
Proof.
  intros (S1 & R1 & C1) (S2 & R2 & C2) (S & R & C). unfold alike.
  rewrite S1, R1, C1, S2, R2, C2. auto.
Qed.

Lemma untouched_refl st : untouched st st.
Proof. repeat split. Qed.

Lemma untouched_emit l st : untouched st (emit l st).
Proof. repeat split. Qed.

Lemma untouched_send h m st : untouched st (send h m st).
Proof. rewrite send_emit. apply untouched_emit. Qed.

Lemma untouched_trans a b c : untouched a b -> untouched b c -> untouched a c.
Proof.
  intros (S1 & R1 & C1) (S2 & R2 & C2). unfold untouched.
  rewrite S2, R2, C2. auto.
Qed.

Lemma alike_set_roomId v h a b :
  alike a b ->
  map unregistered (list_alter (set_roomId v) h (sockets a)) =
  map unregistered (list_alter (set_roomId v) h (sockets b)).
Proof.
  intros (S & _).
  rewrite !(map_list_alter_comm unregistered (set_roomId v) (set_roomId v))
    by reflexivity.
  now rewrite S.
Qed.

Lemma alike_leaveRoom h a b : alike a b -> alike (leaveRoom h a) (leaveRoom h b).
Proof.
  intro A. destruct (alike_ws a b h A) as (Es & _ & Er & _).
  pose proof A as (S & R & C).
  leave_cases h a room T G.
  - assert (T' : truthy (roomId (ws_of b h)) = true) by now rewrite <- Er.
    assert (G' : map_get (roomId (ws_of b h)) (rooms b) = Some room)
      by now rewrite <- Er, <- R.
    rewrite (leaveRoom_leaves h b room T' G'). split; [|split].
    + cbn [sockets update_ws with_sockets with_rooms emit].
      now apply alike_set_roomId.
    + cbn [rooms update_ws with_sockets with_rooms emit].
      unfold left_rooms, left_participants. now rewrite Er, Es, R.
    + exact C.
  - rewrite (leaveRoom_noop h b); [exact A|].
    right. now rewrite <- Er, <- R.
  - rewrite (leaveRoom_noop h b); [exact A|].
    left. now rewrite <- Er.
Qed.

Lemma alike_pre_leave h a b : alike a b -> alike (pre_leave h a) (pre_leave h b).
Proof.
  intro A. unfold pre_leave.
  destruct (alike_ws a b h A) as (_ & _ & -> & _).
  destruct (truthy _); [now apply alike_leaveRoom|exact A].
Qed.

Lemma alike_joinRoom h r now a b :
  alike a b -> alike (Cloud.joinRoom h r now a) (Cloud.joinRoom h r now b).
Proof.
  intro A. rewrite !joinRoom_joined.
  apply alike_pre_leave with (h := h) in A.
  set (a1 := pre_leave h a) in *. set (b1 := pre_leave h b) in *.
  destruct (alike_ws a1 b1 h A) as (Es & Ed & _ & _).
  pose proof A as (S & R & C).
  split; [|split].
  - cbn [sockets emit joined update_ws with_sockets with_rooms].
    now apply alike_set_roomId.
  - cbn [rooms emit joined update_ws with_sockets with_rooms].
    unfold joined_room. now rewrite Es, Ed, R.
  - exact C.
Qed.

Lemma untouched_Local_joinRoom h r now st :
  untouched (Cloud.joinRoom h r now st) (Local.joinRoom h r now st).
Proof. rewrite Local_joinRoom_Cloud, pairing_check_emit. apply untouched_emit. Qed.

Lemma alike_Local_joinRoom h r now a b :
  alike a b -> alike (Local.joinRoom h r now a) (Cloud.joinRoom h r now b).
Proof.
  intro A. eapply alike_untouched;
    [apply untouched_Local_joinRoom|apply untouched_refl|].
  now apply alike_joinRoom.
Qed.

Lemma untouched_Cloud_handlePoseData h m now st :
  untouched st (Cloud.handlePoseData h m now st).
Proof.
  destruct (handlePoseData_shape h m now st) as (l & lims & ->). repeat split.
Qed.

Lemma untouched_Cloud_handleSyncRequest h m now st :
  untouched st (Cloud.handleSyncRequest h m now st).
Proof. destruct (handleSyncRequest_shape h m now st) as (l & ->). repeat split. Qed.

Lemma untouched_Local_handlePoseData h m now st :
  untouched st (Local.handlePoseData h m now st).
Proof.
  unfold Local.handlePoseData. destruct (truthy _); [|repeat split].
  rewrite broadcastToRoom_emit. repeat split.
Qed.

(** What [registerDevice] stores does not show. *)
Lemma alike_registerDevice h m a b : alike a b -> alike a (registerDevice h m b).
Proof.
  intros (S & R & C). unfold registerDevice. rewrite send_emit.
  split; [|split; [exact R|exact C]].
  cbn [sockets emit update_ws with_sockets]. rewrite S. symmetry.
  now apply map_list_alter.
Qed.

Lemma type_is_other m t t' :
  type_is m t = true -> t <> t' -> type_is m t' = false.
Proof.
  intros E N. apply type_is_eq in E. unfold type_is. rewrite E.
  apply String.eqb_neq. exact N.
Qed.

Lemma alike_onMessage h m rid now a b :
  alike a b ->
  type_is m "create_room" = false ->
  alike (Local.onMessage h (JSONValue m) rid now a)
        (Cloud.onMessage h (JSONValue m) now b).
Proof.
  intros A Cr. unfold Local.onMessage, Cloud.onMessage.
  set (a1 := with_deviceMetrics _ a). set (b1 := with_messageCount _ b).
  assert (A1 : alike a1 b1) by exact A.
  clearbody a1 b1.
  unfold Local.handleMessage, Cloud.handleMessage. rewrite Cr.
  unfold Local.sendStats, Cloud.sendRoomList, sendError.
  repeat match goal with |- context [if ?c then _ else _] => destruct c end;
    auto using alike_Local_joinRoom, alike_leaveRoom;
    try solve [eapply alike_untouched; [| |exact A1];
               auto using untouched_send, untouched_Local_handlePoseData,
                 untouched_Cloud_handlePoseData,
                 untouched_Cloud_handleSyncRequest].
  eapply alike_untouched; [apply untouched_send|apply untouched_refl|].
  now apply alike_registerDevice.
Qed.

Lemma alike_create_room h m rid now a b :
  alike a b ->
  type_is m "create_room" = true ->
  alike (Local.step a (Message h (JSONValue m) rid now))
        (Cloud.step b (Message h (join_room rid) rid now)).
Proof.
  intros A Cr. cbn [Local.step Cloud.step]. rewrite (alike_live a b h A).
  destruct (live h b); [|exact A].
  unfold Local.onMessage, Local.handleMessage.
  rewrite (type_is_other m "create_room" "join_room" Cr) by discriminate.
  rewrite Cr.
  change (Cloud.onMessage h (join_room rid) now b)
    with (Cloud.joinRoom h (Some rid) now (with_messageCount (messageCount b + 1) b)).
  eapply alike_untouched; [apply untouched_send|apply untouched_refl|].
  apply alike_Local_joinRoom. exact A.
Qed.

Lemma alike_cleanup h a b : alike a b -> alike (Local.cleanup h a) (Cloud.cleanup h b).
Proof.
  intro A. destruct (alike_ws a b h A) as (Es & _).
  pose proof A as (S & R & C).
  unfold Local.cleanup, Cloud.cleanup.
  eapply alike_untouched;
    [apply untouched_refl| |apply alike_leaveRoom with (h := h)].
  - repeat split.
  - split; [exact S|]. split; [exact R|].
    cbn [connections with_connections]. now rewrite Es, C.
Qed.

Lemma alike_set_readyState c h a b :
  alike a b ->
  alike (update_ws h (set_readyState c) a) (update_ws h (set_readyState c) b).
Proof.
  intros (S & R & C). split; [|split; [exact R|exact C]].
  cbn [sockets update_ws with_sockets].
  rewrite !(map_list_alter_comm unregistered (set_readyState c) (set_readyState c))
    by reflexivity.
  now rewrite S.
Qed.

Lemma alike_step a b e :
  alike a b -> alike (Local.step a e) (Cloud.step b (as_join e)).
Proof.
  intro A. pose proof (alike_live a b) as Lv. specialize (Lv).
  destruct e; cbn [as_join].
  - cbn [Local.step Cloud.step]. unfold Local.onConnection, Cloud.onConnection.
    eapply alike_untouched; [apply untouched_send|apply untouched_send|].
    rewrite (alike_length a b A).
    set (x := with_deviceMetrics _ _).
    set (y := with_connections _ (with_sockets (sockets b ++ _) b)).
    assert (A2 : alike x y).
    { destruct A as (S & R & C). split; [|split; [exact R|]].
      - cbn [sockets x y with_deviceMetrics with_connections with_sockets].
        rewrite !map_app. now rewrite S.
      - cbn [connections x y with_deviceMetrics with_connections with_sockets].
        now rewrite C. }
    clearbody x y. destruct (truthy roomIdParam); [|exact A2].
    now apply alike_Local_joinRoom.
  - destruct data as [| |m].
    + cbn [Local.step Cloud.step]. rewrite (Lv h A). destruct (live h b); [|exact A].
      unfold Local.onMessage, Cloud.onMessage, sendError.
      eapply alike_untouched; [apply untouched_send|apply untouched_send|exact A].
    + cbn [Local.step Cloud.step]. rewrite (Lv h A). destruct (live h b); [|exact A].
      unfold Local.onMessage, Cloud.onMessage, sendError.
      eapply alike_untouched; [apply untouched_send|apply untouched_send|exact A].
    + destruct (type_is m "create_room") eqn:Cr.
      * now apply alike_create_room.
      * cbn [Local.step Cloud.step]. rewrite (Lv h A).
        destruct (live h b); [|exact A]. now apply alike_onMessage.
  - cbn [Local.step Cloud.step]. rewrite (Lv h A). destruct (live h b); [|exact A].
    now apply alike_cleanup.
  - cbn [Local.step Cloud.step]. rewrite (Lv h A). destruct (live h b); [|exact A].
    now apply alike_set_readyState.
  - cbn [Local.step Cloud.step]. rewrite (Lv h A). destruct (live h b); [|exact A].
    apply alike_cleanup.
    eapply alike_untouched; [|apply untouched_refl|apply alike_set_readyState, A].
    repeat split.
  - exact A.
Qed.

(** The development server stores nothing in a [ws] object beyond what the
    connection handler and the room logic assign. *)
Definition plain (st : Server) : Prop :=
  map unregistered (sockets st) = sockets st.

Lemma plain_untouched st st' : untouched st st' -> plain st -> plain st'.
Proof. intros (S & _) P. unfold plain. now rewrite S. Qed.

Lemma plain_set_roomId v h st :
  plain st -> map unregistered (list_alter (set_roomId v) h (sockets st)) =
              list_alter (set_roomId v) h (sockets st).
Proof.
  intro P.
  rewrite (map_list_alter_comm unregistered (set_roomId v) (set_roomId v))
    by reflexivity.
  now rewrite P.
Qed.

Lemma plain_leaveRoom h st : plain st -> plain (leaveRoom h st).
Proof.
  intro P. leave_cases h st room T G; [|exact P..].
  unfold plain. cbn [sockets update_ws with_sockets with_rooms emit].
  now apply plain_set_roomId.
Qed.

Lemma plain_Local_joinRoom h r now st : plain st -> plain (Local.joinRoom h r now st).
Proof.
  intro P. apply (plain_untouched _ _ (untouched_Local_joinRoom h r now st)).
  rewrite joinRoom_joined. unfold plain.
  cbn [sockets emit joined update_ws with_sockets with_rooms].
  apply plain_set_roomId. unfold pre_leave.
  destruct (truthy _); [now apply plain_leaveRoom|exact P].
Qed.

Lemma plain_onMessage h data rid now st :
  plain st -> plain (Local.onMessage h data rid now st).
Proof.
  intro P. unfold Local.onMessage.
  set (st1 := with_deviceMetrics _ st).
  assert (P1 : plain st1) by exact P. clearbody st1.
  destruct data as [| |m]; unfold sendError;
    try (apply (plain_untouched _ _ (untouched_send _ _ _)); exact P1).
  unfold Local.handleMessage, Local.sendStats, sendError.
  repeat match goal with |- context [if ?c then _ else _] => destruct c end;
    auto using plain_Local_joinRoom, plain_leaveRoom;
    try solve [eapply plain_untouched; [|exact P1];
               auto using untouched_send, untouched_Local_handlePoseData].
  apply (plain_untouched _ _ (untouched_send _ _ _)).
  now apply plain_Local_joinRoom.
Qed.

Lemma plain_step st e : plain st -> plain (Local.step st e).
Proof.
  intro P. destruct e; cbn [Local.step].
  - unfold Local.onConnection.
    apply (plain_untouched _ _ (untouched_send _ _ _)).
    set (x := with_deviceMetrics _ _).
    assert (P2 : plain x).
    { unfold plain, x.
      cbn [sockets with_deviceMetrics with_connections with_sockets].
      rewrite map_app. now rewrite P. }
    clearbody x. destruct (truthy roomIdParam); [|exact P2].
    now apply plain_Local_joinRoom.
  - destruct (live h st); [|exact P]. now apply plain_onMessage.
  - destruct (live h st); [|exact P]. unfold Local.cleanup.
    now apply plain_leaveRoom.
  - destruct (live h st); [|exact P]. unfold plain.
    cbn [sockets update_ws with_sockets].
    rewrite (map_list_alter_comm unregistered (set_readyState CLOSING)
               (set_readyState CLOSING)) by reflexivity.
    now rewrite P.
  - destruct (live h st); [|exact P]. unfold Local.cleanup.
    apply plain_leaveRoom. unfold plain.
    cbn [sockets update_ws with_sockets with_deviceMetrics with_connections].
    rewrite (map_list_alter_comm unregistered (set_readyState CLOSED)
               (set_readyState CLOSED)) by reflexivity.
    now rewrite P.
  - exact P.
Qed.

(** X12.  The development server and the deployment server keep the same
    rooms.  Given the same events, with each [create_room] read by the
    deployment server as the [join_room] of the code that was minted, the
    two servers have, after any number of events, the same directory of
    rooms with the same participant entries and the same registry, and the
    same connections with the same session id, device type, room, time of
    connection and ready state.  The [ws] objects differ in one thing:
    what [device_register] stores is kept by the deployment server only,
    for the development server calls a [registerDevice] it does not
    define. *)
Theorem servers_keep_the_same_rooms (es : list event) :
  let dev := Local.run init es in
  let dep := Cloud.run init (map as_join es) in
  rooms dev = rooms dep
  /\ connections dev = connections dep
  /\ sockets dev = map unregistered (sockets dep).
Proof.
  cbv zeta.
  assert (G : forall a b, alike a b -> plain a ->
                alike (Local.run a es) (Cloud.run b (map as_join es)) /\
                plain (Local.run a es)).
  { induction es as [|e es IH]; intros a b A P; simpl; [auto|].
    apply IH; [now apply alike_step|now apply plain_step]. }
  destruct (G init init) as ((S & R & C) & P); [repeat split|reflexivity|].
  split; [exact R|]. split; [exact C|]. now rewrite <- P.
Qed.

(** A [device_register] is where the two part: the deployment server
    stores the capabilities and confirms, the development server answers
    that the format is invalid and stores nothing. *)
Lemma device_register_on_both :
  let register :=
    Message 0 (JSONValue
      {| msg_type := Some "device_register"; msg_roomId := None;
         msg_timestamp := None; landmarks := None; metadata := None;
         msg_capabilities := Some "{}"; msg_deviceInfo := None;
         targetSession := None |}) "k" 2%Z in
  let es := [Connection (Some "a") (Some "mobile") None "i" "j" 1%Z; register] in
  capabilities (ws_of (Cloud.run init es) 0) = Some "{}"
  /\ capabilities (ws_of (Local.run init es) 0) = None
  /\ In (WsSend 0 (Json (DeviceRegistered "a" (Some "{}")))) (out (Cloud.run init es))
  /\ In (WsSend 0 (Json (Error "Invalid message format" 2))) (out (Local.run init es)).
Proof. vm_compute. repeat split; auto 10. Qed.

(** ** Whose membership an event can change *)

(** The session an event acts for: the session id of the connection that
    arrives, sends, fails or closes.  The sweep acts for none. *)
Definition actor (st : Server) (e : event) : option string :=
  match e with
  | Connection s _ _ id1 _ _ => Some (or_else s id1)
  | Message h _ _ _ | WsError h | WsClosing h | WsClose h =>
      Some (sessionId (ws_of st h))
  | Sweep _ => None
  end.

(** The entry of session [s] in the room under code [r], if it has one. *)
Definition entry_of (s : string) (r : option string) (st : Server) :
    option Participant :=
  map_get s (participant_set r st).

Lemma entry_of_frame s r st st' : rooms st' = rooms st -> entry_of s r st' = entry_of s r st.
Proof. intro E. unfold entry_of, participant_set. now rewrite E. Qed.

Lemma entry_of_leaveRoom h st s r :
  s <> sessionId (ws_of st h) ->
  entry_of s r (leaveRoom h st) = entry_of s r st.
Proof.
  intro N. leave_cases h st room T G; try reflexivity.
  unfold entry_of, participant_set. cbn [rooms update_ws with_sockets with_rooms].
  unfold left_rooms, left_participants.
  destruct (key_eq_dec (roomId (ws_of st h)) r) as [<-|D].
  - rewrite G.
    assert (E : map_get s (map_delete (sessionId (ws_of st h)) (participants room)) =
                map_get s (participants room))
      by (apply map_get_delete_other; congruence).
    destruct (Nat.eqb _ 0) eqn:Z.
    + rewrite map_get_delete_same. apply length_zero_nil in Z.
      rewrite Z in E. exact E.
    + rewrite map_get_set_same. exact E.
  - destruct (Nat.eqb _ 0);
      now rewrite ?map_get_delete_other, map_get_set_other by assumption.
Qed.

Lemma entry_of_joinRoom h r0 now st s r :
  s <> sessionId (ws_of st h) ->
  entry_of s r (Cloud.joinRoom h r0 now st) = entry_of s r st.
Proof.
  intro N. rewrite joinRoom_joined.
  assert (P : entry_of s r (pre_leave h st) = entry_of s r st)
    by (unfold pre_leave; destruct (truthy _);
        [now apply entry_of_leaveRoom|reflexivity]).
  rewrite <- P. destruct (sessionId_pre_leave h st) as [S _].
  rewrite <- S in N. set (st1 := pre_leave h st) in *.
  unfold entry_of, participant_set.
  cbn [rooms emit joined update_ws with_sockets with_rooms].
  destruct (key_eq_dec r0 r) as [<-|D].
  - rewrite map_get_set_same. unfold joined_room.
    cbn [participants with_participants].
    rewrite map_get_set_other by congruence.
    destruct (map_get r0 (rooms st1)); reflexivity.
  - now rewrite map_get_set_other by assumption.
Qed.

Lemma entry_of_handleMessage h m now st s r :
  s <> sessionId (ws_of st h) ->
  entry_of s r (Cloud.handleMessage h m now st) = entry_of s r st.
Proof.
  intro N. unfold Cloud.handleMessage, Cloud.sendRoomList, sendError.
  repeat match goal with |- context [if ?c then _ else _] => destruct c end;
    auto using entry_of_joinRoom, entry_of_leaveRoom;
    apply entry_of_frame;
    now rewrite ?rooms_handlePoseData, ?rooms_registerDevice, ?rooms_send,
      ?rooms_handleSyncRequest.
Qed.

(** X13.  An event changes the room membership of no session but the one
    it acts for.  Whatever the state, and whatever a connection sends or
    however it arrives or goes, every other session id has after the event
    the participant entry it had before, in every room: a peer cannot put
    another session into a room or take it out, except one that carries its
    own session id. *)
Theorem membership_changes_only_for_the_actor (st : Server) (e : event)
    (s : string) (r : option string) :
  Some s <> actor st e ->
  entry_of s r (Cloud.step st e) = entry_of s r st.
Proof.
  intro N. destruct e; cbn [actor Cloud.step] in *.
  - unfold Cloud.onConnection.
    rewrite (entry_of_frame _ _ _ _ (rooms_send _ _ _)).
    destruct (truthy roomIdParam); [|reflexivity].
    rewrite entry_of_joinRoom; [reflexivity|].
    match goal with
    | |- _ <> sessionId (ws_of ?x _) =>
        change (ws_of x (length (sockets st))) with
          (ws_of (with_sockets (sockets st ++
                    [new_socket (or_else sessionIdParam id1)
                       (or_else deviceTypeParam "unknown") roomIdParam now]) st)
                 (length (sockets st)))
    end.
    rewrite ws_of_connect_new. simpl. congruence.
  - destruct (live h st); [|reflexivity]. unfold Cloud.onMessage, sendError.
    destruct data;
      try (apply entry_of_frame; now rewrite rooms_send).
    rewrite entry_of_handleMessage; [reflexivity|].
    change (ws_of (with_messageCount _ st) h) with (ws_of st h). congruence.
  - destruct (live h st); [|reflexivity]. unfold Cloud.cleanup.
    match goal with
    | |- entry_of s r (with_poseDataLimits _ (leaveRoom h ?x)) = _ =>
        change (entry_of s r (leaveRoom h x) = entry_of s r st);
        rewrite (entry_of_leaveRoom h x)
    end; [reflexivity|].
    change (ws_of (with_connections _ st) h) with (ws_of st h). congruence.
  - destruct (live h st); reflexivity.
  - destruct (live h st); [|reflexivity]. unfold Cloud.cleanup.
    match goal with
    | |- entry_of s r (with_poseDataLimits _ (leaveRoom h ?x)) = _ =>
        change (entry_of s r (leaveRoom h x) = entry_of s r st);
        rewrite (entry_of_leaveRoom h x)
    end; [reflexivity|].
    change (ws_of (with_connections ?c ?y) h) with (ws_of y h).
    destruct (fields_set_readyState h CLOSED st h) as [-> _]. congruence.
  - reflexivity.
Qed.

Lemma membership_changes_only_for_the_actor_witness :
  let st := Cloud.run init
              [Connection (Some "a") (Some "mobile") (Some "R") "i" "j" 1%Z;
               Connection (Some "b") (Some "vr") (Some "R") "i" "j" 2%Z] in
  entry_of "a" (Some "R") (Cloud.step st (WsClose 1)) =
  Some {| p_ws := 0; p_deviceType := "mobile"; joinedAt := 1 |}.
Proof.
  cbv zeta.
  rewrite (membership_changes_only_for_the_actor
             (Cloud.run init
                [Connection (Some "a") (Some "mobile") (Some "R") "i" "j" 1%Z;
                 Connection (Some "b") (Some "vr") (Some "R") "i" "j" 2%Z])
             (WsClose 1) "a" (Some "R")).
  - reflexivity.
  - vm_compute. discriminate.
Defined.

(** ** Rooms that cannot be left *)

Lemma participant_set_leaveRoom_falsy h st r :
  truthy r = false -> participant_set r (leaveRoom h st) = participant_set r st.
Proof.
  intro F. leave_cases h st room T G; try reflexivity.
  assert (N : roomId (ws_of st h) <> r) by congruence.
  unfold participant_set. cbn [rooms update_ws with_sockets with_rooms].
  unfold left_rooms.
  destruct (Nat.eqb _ 0);
    now rewrite ?map_get_delete_other, map_get_set_other by assumption.
Qed.

Lemma entry_kept_joinRoom h r0 now st s r p :
  truthy r = false -> entry_of s r st = Some p ->
  exists p', entry_of s r (Cloud.joinRoom h r0 now st) = Some p'.
Proof.
  intros F E. rewrite joinRoom_joined.
  assert (P : entry_of s r (pre_leave h st) = Some p).
  { unfold pre_leave, entry_of.
    destruct (truthy (roomId (ws_of st h))); [|exact E].
    now rewrite participant_set_leaveRoom_falsy. }
  set (st1 := pre_leave h st) in *.
  unfold entry_of, participant_set in *.
  cbn [rooms emit joined update_ws with_sockets with_rooms].
  destruct (key_eq_dec r0 r) as [<-|D].
  - rewrite map_get_set_same. unfold joined_room.
    cbn [participants with_participants].
    destruct (map_get r0 (rooms st1)) as [room|]; [|discriminate].
    destruct (key_eq_dec (sessionId (ws_of st1 h)) s) as [<-|Ns].
    + rewrite map_get_set_same. eauto.
    + rewrite map_get_set_other by assumption. eauto.
  - rewrite map_get_set_other by assumption. eauto.
Qed.

Lemma entry_kept_step st e s r p :
  truthy r = false -> entry_of s r st = Some p ->
  exists p', entry_of s r (Cloud.step st e) = Some p'.
Proof.
  intros F E.
  assert (Keep : forall st', rooms st' = rooms st ->
                   exists p', entry_of s r st' = Some p')
    by (intros st' R; exists p; now rewrite (entry_of_frame _ _ _ _ R)).
  assert (Leave : forall h x, rooms x = rooms st ->
                    exists p', entry_of s r (leaveRoom h x) = Some p').
  { intros h x R. exists p. unfold entry_of.
    rewrite participant_set_leaveRoom_falsy by exact F.
    now rewrite <- E, <- (entry_of_frame s r st x R). }
  destruct e; cbn [Cloud.step].
  - unfold Cloud.onConnection.
    rewrite (entry_of_frame _ _ _ _ (rooms_send _ _ _)).
    destruct (truthy roomIdParam); [|now apply Keep].
    eapply entry_kept_joinRoom; [exact F|].
    rewrite <- E. now apply entry_of_frame.
  - destruct (live h st); [|eauto]. unfold Cloud.onMessage, sendError.
    destruct data; try (apply Keep; now rewrite rooms_send).
    unfold Cloud.handleMessage, Cloud.sendRoomList, sendError.
    repeat match goal with |- context [if ?c then _ else _] => destruct c end;
      try (apply Keep;
           now rewrite ?rooms_handlePoseData, ?rooms_registerDevice, ?rooms_send,
             ?rooms_handleSyncRequest).
    + eapply entry_kept_joinRoom; [exact F|].
      rewrite <- E. now apply entry_of_frame.
    + now apply Leave.
  - destruct (live h st); [|eauto]. unfold Cloud.cleanup.
    match goal with
    | |- exists p', entry_of s r (with_poseDataLimits _ (leaveRoom h ?x)) = _ =>
        change (exists p', entry_of s r (leaveRoom h x) = Some p')
    end.
    now apply Leave.
  - destruct (live h st); eauto.
  - destruct (live h st); [|eauto]. unfold Cloud.cleanup.
    match goal with
    | |- exists p', entry_of s r (with_poseDataLimits _ (leaveRoom h ?x)) = _ =>
        change (exists p', entry_of s r (leaveRoom h x) = Some p')
    end.
    now apply Leave.
  - eauto.
Qed.

(** X14.  A room whose code is not truthy, which a [join_room] with an
    empty [roomId] or with none creates, can be joined but never left:
    [leaveRoom] and the leave inside [joinRoom] return early on such a
    [ws.roomId].  Once a session has an entry in such a room, it has one
    after every further sequence of events, the close of its connection
    included. *)
Theorem falsy_rooms_are_never_left (st : Server) (es : list event)
    (s : string) (r : option string) (p : Participant) :
  truthy r = false ->
  entry_of s r st = Some p ->
  exists p', entry_of s r (Cloud.run st es) = Some p'.
Proof.
  intro F. revert st p.
  induction es as [|e es IH]; intros st p E; simpl; [eauto|].
  destruct (entry_kept_step st e s r p F E) as [p' E'].
  exact (IH _ _ E').
Qed.

Lemma falsy_rooms_are_never_left_witness :
  let st := Cloud.run init
              [Connection (Some "s") (Some "mobile") None "i" "j" 1%Z;
               Message 0 (join_room "") "k" 2%Z] in
  entry_of "s" (Some "") st =
    Some {| p_ws := 0; p_deviceType := "mobile"; joinedAt := 2 |}
  /\ live 0 (Cloud.run st [Message 0 (join_room "B") "k" 3%Z; WsClose 0]) = false
  /\ exists p',
       entry_of "s" (Some "")
         (Cloud.run st [Message 0 (join_room "B") "k" 3%Z; WsClose 0]) = Some p'.
Proof.
  cbv zeta. split; [reflexivity|]. split; [reflexivity|].
  exact (falsy_rooms_are_never_left
           (Cloud.run init
              [Connection (Some "s") (Some "mobile") None "i" "j" 1%Z;
               Message 0 (join_room "") "k" 2%Z])
           [Message 0 (join_room "B") "k" 3%Z; WsClose 0]
           "s" (Some "")
           {| p_ws := 0; p_deviceType := "mobile"; joinedAt := 2 |}
           eq_refl eq_refl).
Defined.

(** * Further properties of the peer *)

(** ** The names of the landmarks *)

Lemma landmarkNames_NoDup : NoDup landmarkNames.
Proof.
  unfold landmarkNames.
  repeat (constructor; [simpl; intuition discriminate|]). constructor.
Qed.

Lemma getLandmarkName_table i :
  i < 33 ->
  nth_error landmarkNames i = Some (getLandmarkName i)
  /\ getLandmarkName i = nth i landmarkNames ""
  /\ String.prefix "landmark_" (getLandmarkName i) = false
  /\ String.eqb (getLandmarkName i) "" = false.
Proof.
  intro L.
  do 33 (destruct i as [|i]; [vm_compute; auto|]). lia.
Qed.

Lemma getLandmarkName_fallback i :
  33 <= i -> getLandmarkName i = ("landmark_" ++ show_index i)%string.
Proof.
  intro L. unfold getLandmarkName.
  assert (E : nth_error landmarkNames i = None) by (apply nth_error_None; exact L).
  now rewrite E.
Qed.

Lemma prefix_append (s t : string) : String.prefix s (s ++ t) = true.
Proof.
  induction s as [|a s IH]; simpl; [now destruct t|].
  destruct (Ascii.ascii_dec a a); [exact IH|congruence].
Qed.

Lemma show_index_inj i j : show_index i = show_index j -> i = j.
Proof.
  unfold show_index. intro E.
  apply (f_equal NilEmpty.uint_of_string) in E. rewrite !NilEmpty.usu in E.
  injection E as E. apply (f_equal Nat.of_uint) in E.
  now rewrite !Unsigned.of_to in E.
Qed.

(** X15.  [getLandmarkName] gives different indices different names, and
    never the empty name: the 33 landmarks of the pose model get the names
    of the table, which are all different, and any further index [n] gets
    [landmark_n], which no entry of the table is. *)
Theorem landmark_names_are_distinct :
  (forall i j, getLandmarkName i = getLandmarkName j -> i = j)
  /\ (forall i, i < 33 -> nth_error landmarkNames i = Some (getLandmarkName i))
  /\ (forall i, getLandmarkName i <> "").
Proof.
  assert (P : forall i, 33 <= i -> String.prefix "landmark_" (getLandmarkName i) = true).
  { intros i L. rewrite (getLandmarkName_fallback i L). apply prefix_append. }
  split; [|split].
  - intros i j E.
    destruct (Nat.lt_ge_cases i 33) as [Li|Li], (Nat.lt_ge_cases j 33) as [Lj|Lj].
    + destruct (getLandmarkName_table i Li) as (_ & Ei & _ & _).
      destruct (getLandmarkName_table j Lj) as (_ & Ej & _ & _).
      rewrite Ei, Ej in E.
      exact (proj1 (NoDup_nth landmarkNames "") landmarkNames_NoDup i j Li Lj E).
    + destruct (getLandmarkName_table i Li) as (_ & _ & F & _).
      rewrite E, (P j Lj) in F. discriminate.
    + destruct (getLandmarkName_table j Lj) as (_ & _ & F & _).
      rewrite <- E, (P i Li) in F. discriminate.
    + rewrite (getLandmarkName_fallback i Li), (getLandmarkName_fallback j Lj) in E.
      simpl in E. injection E as E. now apply show_index_inj.
  - intros i L. exact (proj1 (getLandmarkName_table i L)).
  - intros i E.
    destruct (Nat.lt_ge_cases i 33) as [L|L].
    + destruct (getLandmarkName_table i L) as (_ & _ & _ & F). rewrite E in F.
      discriminate.
    + pose proof (P i L) as F. rewrite E in F. discriminate.
Qed.

(** ** The connected flag of the peer *)







(** A [device_paired] message replaces "Connected" while the socket stays
    open. *)
Lemma paired_while_open :
  let m := WebSocketManager.run WebSocketManager.started
             [WebSocketManager.Open;
              WebSocketManager.Receive
                (WebSocketManager.JSONValue
                   {| WebSocketManager.data_type := Some "device_paired";
                      WebSocketManager.pairedDevice := Some (Some "vr");
                      WebSocketManager.data_message := None;
                      WebSocketManager.data_sessionId := None |})] in
  WebSocketManager.connectionStatus m = WebSocketManager.StatusPaired "vr"
  /\ WebSocketManager.ws m = WebSocketManager.Opened
  /\ WebSocketManager.isConnected m = true
  /\ WebSocketManager.sent m = [WebSocketManager.DeviceRegister].
Proof. vm_compute. repeat split; reflexivity. Qed.
